(** * Top-level orchestration and audit sink of the distributed file store

    A shallow embedding of [makeServer.go] (configuration loading, server
    construction, wire-type registration, the interactive command loop) and of
    the audit logger that accompanies it.

    The Go code is effectful throughout: it prints, opens files, sleeps and
    calls into the file server, the transport and the standard library.  Each
    function is therefore embedded as a program in a small free monad whose
    operations are those calls; what the environment answers is left open and
    every statement quantifies over it.  For the operating-system calls a
    concrete model (files, descriptors, a mutex, the wire-type registry) is
    given as well, so that programs that only use those can be executed. *)

From Stdlib Require Import ZArith NArith Ascii Lia.
From Stdlib Require String.
From stdpp Require Import base option list strings gmap.

Local Open Scope Z_scope.

(** ** Programs over a signature of calls *)

Section Prog.
Context {E : Type -> Type}.

(** A program either returns, or performs the call [e] and continues with
    the environment's answer. *)
Inductive prog (R : Type) : Type :=
| Ret (r : R)
| Vis (X : Type) (e : E X) (k : X -> prog R).

Global Arguments Ret {R} r.
Global Arguments Vis {R X} e k.

Fixpoint bind {A B : Type} (p : prog A) (f : A -> prog B) : prog B :=
  match p with
  | Ret a => f a
  | Vis e k => Vis e (fun x => bind (k x) f)
  end.

Definition call {X : Type} (e : E X) : prog X := Vis e Ret.

(** One performed call together with the answer it got. *)
Inductive step : Type :=
| Step (X : Type) (e : E X) (x : X).

Global Arguments Step {X} e x.

(** The environment: what the [n]-th call of a run is answered. *)
Definition env : Type := nat -> forall X : Type, E X -> X.

(** Running a program from call number [n]: the calls made, in order, and
    the result. *)
Fixpoint run {R : Type} (rho : env) (n : nat) (p : prog R) : list step * R :=
  match p with
  | Ret r => ([], r)
  | Vis e k =>
      let x := rho n _ e in
      let '(tr, r) := run rho (S n) (k x) in
      (Step e x :: tr, r)
  end.

Definition trace {R : Type} (rho : env) (n : nat) (p : prog R) : list step :=
  fst (run rho n p).

Definition result {R : Type} (rho : env) (n : nat) (p : prog R) : R :=
  snd (run rho n p).
End Prog.

Global Arguments prog E R : clear implicits.
Global Arguments step E : clear implicits.
Global Arguments env E : clear implicits.

Notation "x <- c1 ;; c2" := (bind c1 (fun x => c2))
  (at level 100, c1 at next level, c2 at level 200, right associativity).
Notation "c1 ;;; c2" := (bind c1 (fun _ => c2))
  (at level 100, c2 at level 200, right associativity).

(** ** Go values *)

(** An [error] is represented by its message; [None] is Go's [nil]. *)
Abbreviation error := string (only parsing).

Definition File : Type := nat.        (* *os.File *)
Definition Mutex : Type := nat.       (* *sync.Mutex *)
Definition Time : Type := Z.          (* time.Time, an instant *)
Definition Transport : Type := nat.   (* *p2p.TCPTransport *)
Definition FileServer : Type := nat.  (* *FileServer *)
Definition Peer : Type := string.     (* p2p.Peer, named by its remote address *)
Definition byte : Type := Corelib.Init.Byte.byte.

(** An [io.Reader] interface value; the interface may hold nothing. *)
Inductive Reader : Type :=
| NilReader
| Stream (id : nat).

(** Decoded JSON text. *)
#[local] Set Warnings "-register-all".
Inductive json : Type :=
| JNull
| JBool (b : bool)
| JNumber (literal : string)
| JString (s : string)
| JArray (elems : list json)
| JObject (members : list (string * json)).
#[local] Set Warnings "register-all".

(** The flags of [os.OpenFile] that the code uses. *)
Record OpenFlags : Type := {
  O_APPEND : bool;
  O_CREATE : bool;
  O_WRONLY : bool;
}.

(** ** Library functions whose result depends on the platform or on Unicode
    tables, and functions of package main defined in other files *)

Class Runtime : Type := {
  Fields : string -> list string;        (* strings.Fields *)
  ToLower : string -> string;            (* strings.ToLower *)
  Base : string -> string;               (* filepath.Base *)
  EqualFold : string -> string -> bool;  (* encoding/json's case folding of keys *)
  FormatRFC3339 : Time -> string;        (* t.Format(time.RFC3339) *)
  getExtension : string -> string;       (* package main, other file *)
}.

(** ** Byte-exact library functions *)

Definition newline : string := String (ascii_of_nat 10) EmptyString.

(** [strings.ReplaceAll s old new] for a non-empty [old]; [skip] counts the
    bytes of a match that are still to be dropped. *)
Fixpoint replaceFrom (skip : nat) (s old new : string) : string :=
  match s with
  | EmptyString => EmptyString
  | String c s' =>
      match skip with
      | S k => replaceFrom k s' old new
      | O =>
          if String.prefix old s
          then new +:+ replaceFrom (String.length old - 1) s' old new
          else String c (replaceFrom O s' old new)
      end
  end.

Definition ReplaceAll (s old new : string) : string := replaceFrom O s old new.

(** [strings.Split s sep] for a non-empty [sep]; [cur] is the piece being
    collected. *)
Fixpoint splitFrom (skip : nat) (s sep cur : string) : list string :=
  match s with
  | EmptyString => [cur]
  | String c s' =>
      match skip with
      | S k => splitFrom k s' sep cur
      | O =>
          if String.prefix sep s
          then cur :: splitFrom (String.length sep - 1) s' sep EmptyString
          else splitFrom O s' sep (cur +:+ String c EmptyString)
      end
  end.

Definition Split (s sep : string) : list string := splitFrom O s sep EmptyString.

(** [strings.Join]. *)
Fixpoint Join (elems : list string) (sep : string) : string :=
  match elems with
  | [] => EmptyString
  | [a] => a
  | a :: rest => a +:+ sep +:+ Join rest sep
  end.

(** What [fmt.Println] writes for operands that are strings or errors: the
    operands separated by spaces, then a newline. *)
Definition Sprintln (operands : list string) : string :=
  Join operands " " +:+ newline.

(** What [fmt.Println] writes for one operand of type [[]string]. *)
Definition SprintlnSlice (elems : list string) : string :=
  "[" +:+ Join elems " " +:+ "]" +:+ newline.

(** ** Records of the source *)

Module ServerConfig.
Record t : Type := {
  Port : string;                  (* `json:"port"` *)
  BootstrapNodes : list string;   (* `json:"peers"` *)
}.
End ServerConfig.
Abbreviation ServerConfig := ServerConfig.t.

(** The bytes a handshake may exchange on a fresh connection. *)
Inductive connE : Type -> Type :=
| ConnRead (n : nat) : connE (list byte * option error)
| ConnWrite (b : list byte) : connE (nat * option error).

Definition HandshakeFunc : Type := Peer -> prog connE (option error).

Inductive Decoder : Type := DefaultDecoder.

Module TCPTransportOps.
Record t : Type := {
  ListenerPortAddr : string;
  ShakeHands : HandshakeFunc;
  Decoder : Decoder;
  OnPeer : option FileServer;   (* a method value, named by its receiver *)
}.
End TCPTransportOps.
Abbreviation TCPTransportOps := TCPTransportOps.t.

Inductive PathTransform : Type := CryptoPathTransformFunc.

Module FileServerOps.
Record t : Type := {
  ID : string;
  RootStorage : string;
  PathTransformFunc : PathTransform;
  Transort : Transport;
  BootstrapNodes : list string;
  EncKey : list byte;
}.
End FileServerOps.
Abbreviation FileServerOps := FileServerOps.t.

Record AuditLogger : Type := {
  mu : Mutex;
  logFile : File;
  logFilePath : string;
}.

(** ** The calls the code makes *)

Inductive goE : Type -> Type :=
(* fmt, log *)
| Print (s : string) : goE unit                 (* bytes written to stdout *)
| LogPrintln (s : string) : goE unit
| LogFatal (s : string) : goE unit              (* the message; the exit follows *)
(* flag, os, time, sync *)
| FlagString (name value usage : string) : goE string   (* value after flag.Parse *)
| OsOpen (path : string) : goE (File + error)
| OsOpenFile (name : string) (flag : OpenFlags) (perm : N) : goE (File + error)
| OsStat (path : string) : goE (option error)
| OsReadFile (path : string) : goE (list byte * option error)
| OsWriteFile (path : string) (data : list byte) (perm : N) : goE (option error)
| FileWriteString (f : File) (s : string) : goE (nat * option error)
| FileClose (f : File) : goE (option error)
| TimeNow : goE Time
| Sleep (ms : Z) : goE unit
| MutexLock (m : Mutex) : goE unit
| MutexUnlock (m : Mutex) : goE unit
(* io, encoding/json, encoding/gob *)
| IoReadAll (rd : Reader) : goE (option (string * option error))  (* None: it panics *)
| JsonDecode (f : File) : goE (json + error)    (* the next JSON value of the file *)
| GobRegister (typeName : string) : goE unit
(* p2p and package main, other files *)
| NewTCPTransport (ops : TCPTransportOps) : goE (Transport * option error)
| SetOnPeer (t : Transport) (onPeer : option FileServer) : goE unit
| newEncryptionKey : goE (list byte)
| NewFileServer (ops : FileServerOps) : goE (FileServer * option error)
| GoStart (server : FileServer) : goE unit      (* go func: log.Fatal(server.Start()) *)
| FsStore (fs : FileServer) (key : string) (r : File) : goE (option error)
| FsGet (fs : FileServer) (key : string) : goE (Reader * string * option error)
| FsDelete (fs : FileServer) (key : string) : goE (option error)
| FsDeleteLocal (fs : FileServer) (key : string) : goE (option error)
| FsDeleteRemote (fs : FileServer) (key : string) (session : list string)
    : goE (option error).

Definition Prog : Type -> Type := prog goE.
Definition Env : Type := env goE.
Definition Step' : Type := step goE.

(** How a function ends: it returns, the process exits ([log.Fatal] is
    [os.Exit 1] after the message), or it panics. *)
Inductive outcome (A : Type) : Type :=
| Returns (a : A)
| Exits (code : Z)
| Panics.

Arguments Returns {A} a.
Arguments Exits {A} code.
Arguments Panics {A}.

(** ** loadConfig *)

Section Config.
Context `{Runtime}.

Definition jsonKind (v : json) : string :=
  match v with
  | JNull => "null"
  | JBool _ => "bool"
  | JNumber _ => "number"
  | JString _ => "string"
  | JArray _ => "array"
  | JObject _ => "object"
  end.

(** The text of an [UnmarshalTypeError]: outside a struct it names the Go
    type, inside one the struct and the field, by its JSON name, as well. *)
Definition typeError (v : json) (target : string) : error :=
  "json: cannot unmarshal " +:+ jsonKind v +:+ " into Go value of type " +:+ target.

Definition fieldTypeError (v : json) (name target : string) : error :=
  "json: cannot unmarshal " +:+ jsonKind v +:+ " into Go struct field ServerConfig."
    +:+ name +:+ " of type " +:+ target.

(** encoding/json on a [string] of the field [name]: a JSON string sets it,
    [null] leaves it. *)
Definition unmarshalString (name : string) (v : json) (old : string) : string + error :=
  match v with
  | JString s => inl s
  | JNull => inl old
  | _ => inr (fieldTypeError v name "string")
  end.

(** The elements of a JSON array, each decoded into the element that the
    backing array of the slice holds at its index: what was there before
    where the slice was decoded into before, the empty string beyond. *)
Fixpoint unmarshalElems (elems : list json) (backing : list string) : list string + error :=
  match elems with
  | [] => inl []
  | v :: rest =>
      match unmarshalString "peers" v (hd EmptyString backing) with
      | inr e => inr e
      | inl s =>
          match unmarshalElems rest (tl backing) with
          | inr e => inr e
          | inl l => inl (s :: l)
          end
      end
  end.

(** encoding/json on the [[]string] of [peers], whose backing array holds
    [backing], the elements of the slice first: an array gives a slice with
    one string per element, over the same backing array; an empty array
    gives a new empty slice and [null] the nil slice. The result is the
    elements and what the backing array holds behind them. *)
Definition unmarshalStrings (v : json) (backing : list string)
  : (list string * list string) + error :=
  match v with
  | JArray [] => inl ([], [])
  | JArray elems =>
      match unmarshalElems elems backing with
      | inr e => inr e
      | inl l => inl (l, drop (length elems) backing)
      end
  | JNull => inl ([], [])
  | _ => inr (fieldTypeError v "peers" "[]string")
  end.

(** The field of [ServerConfig] that an object key selects, from the
    struct tags: the exact name first, then a case-insensitive match. *)
Inductive field : Type := FPort | FBootstrapNodes.

Definition fieldOf (key : string) : option field :=
  if String.eqb key "port" then Some FPort
  else if String.eqb key "peers" then Some FBootstrapNodes
  else if EqualFold key "port" then Some FPort
  else if EqualFold key "peers" then Some FBootstrapNodes
  else None.

(** The members of an object are decoded in order into the struct; a key
    that selects no field is skipped. [spare] is what the backing array of
    [BootstrapNodes] holds behind the elements of the slice. *)
Fixpoint unmarshalMembers (members : list (string * json)) (cfg : ServerConfig)
  (spare : list string) : ServerConfig + error :=
  match members with
  | [] => inl cfg
  | (key, v) :: rest =>
      match fieldOf key with
      | Some FPort =>
          match unmarshalString "port" v (ServerConfig.Port cfg) with
          | inr e => inr e
          | inl p =>
              unmarshalMembers rest
                {| ServerConfig.Port := p;
                   ServerConfig.BootstrapNodes := ServerConfig.BootstrapNodes cfg |}
                spare
          end
      | Some FBootstrapNodes =>
          match unmarshalStrings v (ServerConfig.BootstrapNodes cfg ++ spare) with
          | inr e => inr e
          | inl (l, spare') =>
              unmarshalMembers rest
                {| ServerConfig.Port := ServerConfig.Port cfg;
                   ServerConfig.BootstrapNodes := l |}
                spare'
          end
      | None => unmarshalMembers rest cfg spare
      end
  end.

Definition zeroServerConfig : ServerConfig :=
  {| ServerConfig.Port := EmptyString; ServerConfig.BootstrapNodes := [] |}.

(** One element of the array, decoded into a zero [ServerConfig]. *)
Definition unmarshalServerConfig (v : json) : ServerConfig + error :=
  match v with
  | JObject members => unmarshalMembers members zeroServerConfig []
  | JNull => inl zeroServerConfig
  | _ => inr (typeError v "main.ServerConfig")
  end.

Fixpoint unmarshalConfigs (elems : list json) : list ServerConfig + error :=
  match elems with
  | [] => inl []
  | v :: rest =>
      match unmarshalServerConfig v with
      | inr e => inr e
      | inl c =>
          match unmarshalConfigs rest with
          | inr e => inr e
          | inl l => inl (c :: l)
          end
      end
  end.

(** [Decode(&cfg)] for [var cfg []ServerConfig], given the JSON value read.
    The decoder goes on after a value of the wrong type and reports the
    first such error at the end; [loadConfig] returns nothing but that
    error then, so the decoding stops at it here. *)
Definition unmarshal (v : json) : list ServerConfig + error :=
  match v with
  | JArray elems => unmarshalConfigs elems
  | JNull => inl []
  | _ => inr (typeError v "[]main.ServerConfig")
  end.

(** The result pair [([]ServerConfig, error)]; the nil slice is [[]]. *)
Definition loadConfig (path : string) : Prog (list ServerConfig * option error) :=
  r <- call (OsOpen path) ;;
  match r with
  | inr err => Ret ([], Some err)
  | inl file =>
      d <- call (JsonDecode file) ;;
      let res :=
        match d with
        | inr err => ([], Some err)
        | inl v =>
            match unmarshal v with
            | inr err => ([], Some err)
            | inl cfg => (cfg, None)
            end
        end in
      call (FileClose file) ;;;     (* defer file.Close() *)
      Ret res
  end.
End Config.

(** ** makeServer, completeServerSetup, registerAll *)

(** Modelled from the spec: [p2p.DefensiveHandshakeFunc] is not among the
    sources; the default handshake policy is permissive, no bytes are
    exchanged and it always succeeds. *)
Definition DefensiveHandshakeFunc : HandshakeFunc := fun _ => Ret None.

Definition makeServer (configFile : ServerConfig) : Prog FileServer :=
  let tcpops :=
    {| TCPTransportOps.ListenerPortAddr := ServerConfig.Port configFile;
       TCPTransportOps.ShakeHands := DefensiveHandshakeFunc;
       TCPTransportOps.Decoder := DefaultDecoder;
       TCPTransportOps.OnPeer := None |} in
  t <- call (NewTCPTransport tcpops) ;;
  let tcpTransport := fst t in
  let newAddr := ReplaceAll (ServerConfig.Port configFile) ":" "_" in
  key <- call newEncryptionKey ;;
  let fileServerOps :=
    {| FileServerOps.ID := EmptyString;
       FileServerOps.RootStorage := newAddr +:+ "_gyattt";
       FileServerOps.PathTransformFunc := CryptoPathTransformFunc;
       FileServerOps.Transort := tcpTransport;
       FileServerOps.BootstrapNodes := ServerConfig.BootstrapNodes configFile;
       FileServerOps.EncKey := key |} in
  s <- call (NewFileServer fileServerOps) ;;
  let newFileServer := fst s in
  call (SetOnPeer tcpTransport (Some newFileServer)) ;;;
  Ret newFileServer.

Section Setup.
Context `{Runtime}.

Fixpoint startServers (configs : list ServerConfig) (servers : gmap string FileServer)
  : Prog (gmap string FileServer) :=
  match configs with
  | [] => Ret servers
  | cfg :: rest =>
      server <- makeServer cfg ;;
      let servers' := <[ServerConfig.Port cfg := server]> servers in
      call (GoStart server) ;;;
      call (Sleep 50) ;;;
      startServers rest servers'
  end.

Definition completeServerSetup : Prog (outcome (gmap string FileServer)) :=
  configPath <- call (FlagString "config" "startServerConfig.json"
                        "path of config file to create servers") ;;
  r <- loadConfig configPath ;;
  match r with
  | (_, Some err) =>
      call (LogFatal ("Error loading config file" +:+ err)) ;;;
      Ret (Exits 1)
  | (configs, None) =>
      servers <- startServers configs ∅ ;;
      Ret (Returns servers)
  end.
End Setup.

Definition registerAll : Prog unit :=
  call (GobRegister "MessageStoreFile") ;;;
  call (GobRegister "MessageGetFile") ;;;
  call (GobRegister "MessageDeleteFile") ;;;
  call (GobRegister "MessageGetFileNotFound") ;;;
  call (GobRegister "MessageStoreAck") ;;;
  call (GobRegister "MessageDeleteAck") ;;;
  call (GobRegister "MessageDuplicateCheck") ;;;
  call (GobRegister "MessageDuplicateResponse").

(** ** The command loop *)

Definition helpText : gmap string string :=
  list_to_map [
    ("store", "store <file-path>" +:+ newline +:+
       " It stores the file at the given path on the server and replicate it on its peers.");
    ("get", "get <filename>" +:+ newline +:+
       " It gets the file from the server if its available on local storage or any of the peers.");
    ("delete", "delete <filename>" +:+ newline +:+
       " It deletes the file from the server and all its peers.");
    ("deletelocal", "deletelocal <filename>" +:+ newline +:+
       " It deletes the file from the local storage.");
    ("deleteremote", "deleteremote <filename> <target-session>" +:+ newline +:+
       " It deletes the file from the remote storage of the target session.");
    ("quit", "quit" +:+ newline +:+ " It quits the program.")
  ].

(** What one pass through the body of the [for] leads to: the next pass, or
    the end of the function. *)
Inductive control : Type :=
| Continue
| Leave (o : outcome unit).

Section Repl.
Context `{Runtime}.
Variable fs : FileServer.

(** [args[i]], read only where the length was checked. *)
Definition arg (args : list string) (i : nat) : string := nth i args EmptyString.

Definition println (operands : list string) : Prog unit :=
  call (Print (Sprintln operands)).

(** The statement after the [switch]. *)
Definition afterSwitch (deferred : list File) : Prog (control * list File) :=
  call (Sleep 50) ;;;
  Ret (Continue, deferred).

Definition caseStore (args : list string) (deferred : list File)
  : Prog (control * list File) :=
  call (Print (SprintlnSlice args)) ;;;
  if negb (length args =? 2)%nat then
    println ["Usage: store <file-path>"] ;;;
    Ret (Continue, deferred)
  else
    r <- call (OsOpen (arg args 1)) ;;
    match r with
    | inr err =>
        call (LogPrintln err) ;;;
        Ret (Continue, deferred)
    | inl f =>
        let deferred' := f :: deferred in     (* defer f.Close() *)
        let key := Base (arg args 1) in
        err <- call (FsStore fs key f) ;;
        match err with
        | Some e => println ["Error storing data"; e]
        | None => Ret tt
        end ;;;
        call (Sleep 2000) ;;;
        afterSwitch deferred'
    end.

Definition caseGet (args : list string) (deferred : list File)
  : Prog (control * list File) :=
  if negb (length args =? 2)%nat then
    println ["Usage: get <filename>"] ;;;
    Ret (Continue, deferred)
  else
    let key := arg args 1 in
    g <- call (FsGet fs key) ;;
    let '(rd, fileLoc, err) := g in
    match err with
    | Some e => println ["Error getting file:"; e]
    | None => println ["File stored at:"; fileLoc]
    end ;;;
    let ext := getExtension key in
    if (String.length ext =? 0)%nat then
      a <- call (IoReadAll rd) ;;
      match a with
      | None => Ret (Leave Panics, deferred)
      | Some (n, Some e) =>
          call (LogFatal ("Error reading data " +:+ e)) ;;;
          Ret (Leave (Exits 1), deferred)
      | Some (n, None) =>
          println [n] ;;;
          afterSwitch deferred
      end
    else afterSwitch deferred.

Definition caseDelete (args : list string) (deferred : list File)
  : Prog (control * list File) :=
  if negb (length args =? 2)%nat then
    println ["Usage: delete <filename>"] ;;;
    Ret (Continue, deferred)
  else
    let key := arg args 1 in
    err <- call (FsDelete fs key) ;;
    match err with
    | Some e => println ["Error deleting file:"; e]
    | None => Ret tt
    end ;;;
    afterSwitch deferred.

Definition caseDeleteLocal (args : list string) (deferred : list File)
  : Prog (control * list File) :=
  if negb (length args =? 2)%nat then
    println ["Usage: deletelocal <filename>"] ;;;
    Ret (Continue, deferred)
  else
    let key := arg args 1 in
    err <- call (FsDeleteLocal fs key) ;;
    match err with
    | Some e => println ["Error deleting local file:"; e]
    | None => Ret tt
    end ;;;
    afterSwitch deferred.

Definition caseDeleteRemote (args : list string) (deferred : list File)
  : Prog (control * list File) :=
  if negb (length args =? 3)%nat then
    println ["Usage: deleteremote <filename> <peer list separated by comma (ip:port)>"] ;;;
    Ret (Continue, deferred)
  else
    let key := arg args 1 in
    let session := Split (arg args 2) "," in
    err <- call (FsDeleteRemote fs key session) ;;
    match err with
    | Some e => println ["Error deleting remote file:"; e]
    | None => Ret tt
    end ;;;
    afterSwitch deferred.

Definition caseHelp (args : list string) (deferred : list File)
  : Prog (control * list File) :=
  if negb (length args =? 2)%nat then
    println ["Usage: help <command>"] ;;;
    Ret (Continue, deferred)
  else
    println [default EmptyString (helpText !! arg args 1)] ;;;
    Ret (Continue, deferred).

Definition caseQuit (deferred : list File) : Prog (control * list File) :=
  println ["Exiting..."] ;;;
  Ret (Leave (Returns tt), deferred).

Definition caseDefault (deferred : list File) : Prog (control * list File) :=
  println ["Unknown command. Supported: store, get, delete, deletelocal, quit"] ;;;
  afterSwitch deferred.

(** The body of the [for], after the prompt and the scan: [line] is what
    the scanner delivered, [deferred] the files whose [Close] is pending. *)
Definition loopBody (line : string) (deferred : list File)
  : Prog (control * list File) :=
  let args := Fields line in
  if (length args =? 0)%nat then Ret (Continue, deferred)
  else
    let cmd := ToLower (arg args 0) in
    if String.eqb cmd "store" then caseStore args deferred
    else if String.eqb cmd "get" then caseGet args deferred
    else if String.eqb cmd "delete" then caseDelete args deferred
    else if String.eqb cmd "deletelocal" then caseDeleteLocal args deferred
    else if String.eqb cmd "deleteremote" then caseDeleteRemote args deferred
    else if String.eqb cmd "help" then caseHelp args deferred
    else if String.eqb cmd "quit" then caseQuit deferred
    else caseDefault deferred.

(** Deferred calls run last in, first out. *)
Fixpoint runDeferred (deferred : list File) : Prog unit :=
  match deferred with
  | [] => Ret tt
  | f :: rest => call (FileClose f) ;;; runDeferred rest
  end.

(** The loop over what standard input still holds; the scanner stops at
    its end. *)
Fixpoint commandLoop (stdin : list string) (deferred : list File)
  : Prog (outcome unit) :=
  call (Print ">>> ") ;;;
  match stdin with
  | [] => runDeferred deferred ;;; Ret (Returns tt)
  | line :: rest =>
      r <- loopBody line deferred ;;
      match r with
      | (Continue, deferred') => commandLoop rest deferred'
      | (Leave (Exits code), _) => Ret (Exits code)
      | (Leave o, deferred') => runDeferred deferred' ;;; Ret o
      end
  end.

Definition runCommandLoop (stdin : list string) : Prog (outcome unit) :=
  commandLoop stdin [].

(** What follows the body of the loop in a run. *)
Definition afterBody (rho : Env) (n : nat) (rest : list string)
  (r : control * list File) : list Step' :=
  match r with
  | (Continue, deferred) => trace rho n (commandLoop rest deferred)
  | (Leave (Exits _), _) => []
  | (Leave _, deferred) => trace rho n (runDeferred deferred)
  end.
End Repl.

(** ** The audit logger *)

Section Audit.
Context `{Runtime}.

Definition appendCreateWronly : OpenFlags :=
  {| O_APPEND := true; O_CREATE := true; O_WRONLY := true |}.

(** The mutex is a field of the logger itself; a logger is made once per
    opened file, whose descriptor names it here. *)
Definition simpleNewAuditLogger (logFileName : string)
  : Prog (option AuditLogger * option error) :=
  r <- call (OsOpenFile logFileName appendCreateWronly 420%N) ;;   (* 0644 *)
  match r with
  | inr err => Ret (None, Some err)
  | inl fd =>
      now <- call TimeNow ;;
      let startLog := "[" +:+ FormatRFC3339 now +:+ "] LOGGING STARTED...." +:+ newline in
      call (FileWriteString fd startLog) ;;;
      call (FileWriteString fd newline) ;;;
      let newAuditLogger := {| mu := fd; logFile := fd; logFilePath := logFileName |} in
      Ret (Some newAuditLogger, None)
  end.

Definition logEntry (now : Time) (op filekey peer status : string) : string :=
  FormatRFC3339 now +:+ " | " +:+ op +:+ " | " +:+ filekey +:+ " | " +:+ peer
    +:+ " | " +:+ status +:+ newline.

Definition Log (a : AuditLogger) (op filekey peer status : string) : Prog unit :=
  call (MutexLock (mu a)) ;;;
  now <- call TimeNow ;;
  w <- call (FileWriteString (logFile a) (logEntry now op filekey peer status)) ;;
  match snd w with
  | Some err => call (Print (Sprintln ["Error writing to log file:"; err]))
  | None => Ret tt
  end ;;;
  call (MutexUnlock (mu a)).               (* defer a.mu.Unlock() *)

Definition Close (a : AuditLogger) : Prog (option error) :=
  call (FileClose (logFile a)).

Definition GetLogFilePath (a : AuditLogger) : string := logFilePath a.

Definition GetLogFile (a : AuditLogger) : File := logFile a.
End Audit.

(** ** What a run made visible *)

(** The texts written to standard output, in order. *)
Fixpoint printed (tr : list Step') : list string :=
  match tr with
  | [] => []
  | Step e _ :: rest =>
      match e with
      | Print s => s :: printed rest
      | _ => printed rest
      end
  end.

(** The calls into the file server, in order. *)
Inductive fsCall : Type :=
| CallStore (fs : FileServer) (key : string) (r : File)
| CallGet (fs : FileServer) (key : string)
| CallDelete (fs : FileServer) (key : string)
| CallDeleteLocal (fs : FileServer) (key : string)
| CallDeleteRemote (fs : FileServer) (key : string) (session : list string).

Fixpoint fsCalls (tr : list Step') : list fsCall :=
  match tr with
  | [] => []
  | Step e _ :: rest =>
      match e with
      | FsStore fs key r => CallStore fs key r :: fsCalls rest
      | FsGet fs key => CallGet fs key :: fsCalls rest
      | FsDelete fs key => CallDelete fs key :: fsCalls rest
      | FsDeleteLocal fs key => CallDeleteLocal fs key :: fsCalls rest
      | FsDeleteRemote fs key session => CallDeleteRemote fs key session :: fsCalls rest
      | _ => fsCalls rest
      end
  end.

(** The readers handed to [io.ReadAll], in order. *)
Fixpoint readAlls (tr : list Step') : list Reader :=
  match tr with
  | [] => []
  | Step e _ :: rest =>
      match e with
      | IoReadAll rd => rd :: readAlls rest
      | _ => readAlls rest
      end
  end.

(** The paths handed to [os.Open]. *)
Fixpoint opened (tr : list Step') : list string :=
  match tr with
  | [] => []
  | Step e _ :: rest =>
      match e with
      | OsOpen path => path :: opened rest
      | _ => opened rest
      end
  end.

(** Whether a call touches persistent storage. *)
Definition touchesStorage {X : Type} (e : goE X) : bool :=
  match e with
  | OsOpen _ | OsOpenFile _ _ _ | OsStat _ | OsReadFile _ | OsWriteFile _ _ _
  | FileWriteString _ _ | FileClose _ | JsonDecode _ => true
  | _ => false
  end.

Definition stepTouchesStorage (s : Step') : bool :=
  match s with Step e _ => touchesStorage e end.

(** The keys drawn by [newEncryptionKey], in order. *)
Fixpoint keysDrawn (tr : list Step') : list (list byte) :=
  match tr with
  | [] => []
  | @Step _ X e x :: rest =>
      match e in goE T return T -> list (list byte) with
      | newEncryptionKey => fun key => key :: keysDrawn rest
      | _ => fun _ => keysDrawn rest
      end x
  end.

(** The options each file server was built from, in order. *)
Fixpoint serversBuilt (tr : list Step') : list FileServerOps :=
  match tr with
  | [] => []
  | Step e _ :: rest =>
      match e with
      | NewFileServer ops => ops :: serversBuilt rest
      | _ => serversBuilt rest
      end
  end.

(** The options each transport was built from, in order. *)
Fixpoint transportsBuilt (tr : list Step') : list TCPTransportOps :=
  match tr with
  | [] => []
  | Step e _ :: rest =>
      match e with
      | NewTCPTransport ops => ops :: transportsBuilt rest
      | _ => transportsBuilt rest
      end
  end.

(** ** The operating system, as far as the audit logger and the wire-type
    registry need it *)

Record Descriptor : Type := {
  dPath : string;
  dFlags : OpenFlags;
}.

Record World : Type := {
  files : gmap string string;           (* the content of each file *)
  descriptors : gmap File Descriptor;   (* the open descriptors *)
  clock : Time;                         (* milliseconds *)
  stdout : string;
  held : gset Mutex;                    (* the locked mutexes *)
  registry : gset string;               (* the types gob knows *)
  issued : gmap File string;            (* every file handed out so far, open
                                           or closed, with the name it was
                                           opened under *)
  denied : gmap string string;          (* the names the operating system
                                           refuses to open, and why: a missing
                                           directory, a permission *)
}.

Definition setFiles (w : World) (fsys : gmap string string) : World :=
  {| files := fsys; descriptors := descriptors w; clock := clock w;
     stdout := stdout w; held := held w; registry := registry w;
     issued := issued w; denied := denied w |}.

Definition setDescriptors (w : World) (ds : gmap File Descriptor) : World :=
  {| files := files w; descriptors := ds; clock := clock w;
     stdout := stdout w; held := held w; registry := registry w;
     issued := issued w; denied := denied w |}.

Definition setClock (w : World) (t : Time) : World :=
  {| files := files w; descriptors := descriptors w; clock := t;
     stdout := stdout w; held := held w; registry := registry w;
     issued := issued w; denied := denied w |}.

Definition setStdout (w : World) (out : string) : World :=
  {| files := files w; descriptors := descriptors w; clock := clock w;
     stdout := out; held := held w; registry := registry w;
     issued := issued w; denied := denied w |}.

Definition setHeld (w : World) (h : gset Mutex) : World :=
  {| files := files w; descriptors := descriptors w; clock := clock w;
     stdout := stdout w; held := h; registry := registry w;
     issued := issued w; denied := denied w |}.

Definition setRegistry (w : World) (r : gset string) : World :=
  {| files := files w; descriptors := descriptors w; clock := clock w;
     stdout := stdout w; held := held w; registry := r;
     issued := issued w; denied := denied w |}.

Definition setIssued (w : World) (names : gmap File string) : World :=
  {| files := files w; descriptors := descriptors w; clock := clock w;
     stdout := stdout w; held := held w; registry := registry w;
     issued := names; denied := denied w |}.

Definition readOnly : OpenFlags :=
  {| O_APPEND := false; O_CREATE := false; O_WRONLY := false |}.

(** The file that the next successful open returns: one that was never
    handed out, so that a closed file stays closed whatever is opened
    later. *)
Definition nextFile (w : World) : File :=
  fresh (dom (issued w) ∪ dom (descriptors w)).

(** Opening [name]: the operating system may refuse; a missing file is
    created when the flags ask for it, and is an error otherwise. *)
Definition openFile (w : World) (name : string) (flag : OpenFlags)
  : (File + error) * World :=
  let fd := nextFile w in
  let d := {| dPath := name; dFlags := flag |} in
  match denied w !! name with
  | Some why => (inr ("open " +:+ name +:+ ": " +:+ why), w)
  | None =>
      match files w !! name with
      | Some _ =>
          (inl fd, setIssued (setDescriptors w (<[fd := d]> (descriptors w)))
                     (<[fd := name]> (issued w)))
      | None =>
          if O_CREATE flag
          then (inl fd, setIssued
                          (setDescriptors (setFiles w (<[name := EmptyString]> (files w)))
                             (<[fd := d]> (descriptors w)))
                          (<[fd := name]> (issued w)))
          else (inr ("open " +:+ name +:+ ": no such file or directory"), w)
      end
  end.

(** The error of an operation [op] on a file that is not open: closed
    before, or never opened. *)
Definition notOpen (w : World) (op : string) (f : File) : error :=
  match issued w !! f with
  | Some name => op +:+ " " +:+ name +:+ ": file already closed"
  | None => "invalid argument"
  end.

(** Writing through a descriptor opened for appending puts the bytes at the
    end of the file; a closed descriptor and one opened for reading refuse.
    Writes at an offset are outside this model. *)
Definition writeString (w : World) (f : File) (s : string)
  : option ((nat * option error) * World) :=
  match descriptors w !! f with
  | None => Some ((O, Some (notOpen w "write" f)), w)
  | Some d =>
      if negb (O_WRONLY (dFlags d))
      then Some ((O, Some ("write " +:+ dPath d +:+ ": bad file descriptor")), w)
      else if O_APPEND (dFlags d) then
        let old := default EmptyString (files w !! dPath d) in
        Some ((String.length s, None), setFiles w (<[dPath d := old +:+ s]> (files w)))
      else None
  end.

(** One call against the world; [None] where the call cannot proceed (a
    locked mutex) or is not an operating-system call. *)
Definition osStep (w : World) {X : Type} (e : goE X) : option (X * World) :=
  match e in goE T return option (T * World) with
  | Print s => Some (tt, setStdout w (stdout w +:+ s))
  | OsOpen path => Some (openFile w path readOnly)
  | OsOpenFile name flag _ => Some (openFile w name flag)
  | FileWriteString f s => writeString w f s
  | FileClose f =>
      match descriptors w !! f with
      | Some _ => Some (None, setDescriptors w (delete f (descriptors w)))
      | None => Some (Some (notOpen w "close" f), w)
      end
  | TimeNow => Some (clock w, w)
  | Sleep ms => Some (tt, setClock w (clock w + ms))
  | MutexLock m =>
      if decide (m ∈ held w) then None else Some (tt, setHeld w ({[m]} ∪ held w))
  | MutexUnlock m =>
      if decide (m ∈ held w) then Some (tt, setHeld w (held w ∖ {[m]})) else None
  | GobRegister typeName => Some (tt, setRegistry w ({[typeName]} ∪ registry w))
  | _ => None
  end.

(** A program run against the world. *)
Fixpoint interp {R : Type} (p : Prog R) (w : World) : option (R * World) :=
  match p with
  | Ret r => Some (r, w)
  | Vis e k =>
      match osStep w e with
      | Some (x, w') => interp (k x) w'
      | None => None
      end
  end.

(** One step of a thread: its next call against the world. *)
Definition threadStep (w : World) (p : Prog unit) : option (World * Prog unit) :=
  match p with
  | Ret _ => None
  | Vis e k =>
      match osStep w e with
      | Some (x, w') => Some (w', k x)
      | None => None
      end
  end.

(** Threads that share the world, scheduled in the order [schedule] names
    them; a thread that cannot step (done, or waiting for the mutex) is
    passed over. *)
Fixpoint runThreads (schedule : list nat) (w : World) (threads : list (Prog unit))
  : World * list (Prog unit) :=
  match schedule with
  | [] => (w, threads)
  | i :: rest =>
      match threads !! i with
      | None => runThreads rest w threads
      | Some p =>
          match threadStep w p with
          | None => runThreads rest w threads
          | Some (w', p') => runThreads rest w' (<[i := p']> threads)
          end
      end
  end.

(** A thread is inside the critical section when it has calls left and the
    next one is not the acquisition of the mutex. *)
Definition inCritical (p : Prog unit) : bool :=
  match p with
  | Ret _ => false
  | Vis e _ =>
      match e with
      | MutexLock _ => false
      | _ => true
      end
  end.

(** ** A runtime to execute with: ASCII text, POSIX paths, UTC *)

Module Posix.
(** The white space of [strings.Fields] among the ASCII bytes. *)
Definition asciiSpace (c : ascii) : bool :=
  let n := N_of_ascii c in
  ((9 <=? n) && (n <=? 13) || (n =? 32))%N.

Fixpoint fieldsFrom (s : string) (cur : option string) : list string :=
  match s with
  | EmptyString => match cur with Some w => [w] | None => [] end
  | String c s' =>
      if asciiSpace c then
        match cur with
        | Some w => w :: fieldsFrom s' None
        | None => fieldsFrom s' None
        end
      else fieldsFrom s' (Some (default EmptyString cur +:+ String c EmptyString))
  end.

Definition Fields (s : string) : list string := fieldsFrom s None.

Definition lower (c : ascii) : ascii :=
  let n := N_of_ascii c in
  if ((65 <=? n) && (n <=? 90))%N then ascii_of_N (n + 32) else c.

Fixpoint ToLower (s : string) : string :=
  match s with
  | EmptyString => EmptyString
  | String c s' => String (lower c) (ToLower s')
  end.

Definition EqualFold (a b : string) : bool := String.eqb (ToLower a) (ToLower b).

Definition slash : ascii := ascii_of_nat 47.
Definition dot : ascii := ascii_of_nat 46.

(** The last element of the path that is not empty, if there is one;
    [cur] is the element being read. *)
Fixpoint lastElement (s : string) (cur : string) (last : option string) : option string :=
  match s with
  | EmptyString => if String.eqb cur EmptyString then last else Some cur
  | String c s' =>
      if Ascii.eqb c slash
      then lastElement s' EmptyString
             (if String.eqb cur EmptyString then last else Some cur)
      else lastElement s' (cur +:+ String c EmptyString) last
  end.

Definition Base (path : string) : string :=
  if String.eqb path EmptyString then "."
  else default "/" (lastElement path EmptyString None).

(** A stand-in for [getExtension] of package main, which another file
    defines: from the last dot of the name on, empty when there is none. *)
Fixpoint extFrom (s : string) (ext : string) : string :=
  match s with
  | EmptyString => ext
  | String c s' =>
      if Ascii.eqb c dot then extFrom s' (String c s')
      else extFrom s' ext
  end.

Definition getExtension (name : string) : string := extFrom name EmptyString.

Definition digit (n : Z) : ascii := ascii_of_N (Z.to_N (48 + n mod 10)).

Definition pad2 (n : Z) : string :=
  String (digit (n / 10)) (String (digit n) EmptyString).

Definition pad4 (n : Z) : string := pad2 (n / 100) +:+ pad2 (n mod 100).

(** The civil date of a day count since 1970-01-01. *)
Definition civil (days : Z) : Z * Z * Z :=
  let z := days + 719468 in
  let era := z / 146097 in
  let doe := z - era * 146097 in
  let yoe := (doe - doe / 1460 + doe / 36524 - doe / 146096) / 365 in
  let doy := doe - (365 * yoe + yoe / 4 - yoe / 100) in
  let mp := (5 * doy + 2) / 153 in
  let d := doy - (153 * mp + 2) / 5 + 1 in
  let m := if mp <? 10 then mp + 3 else mp - 9 in
  let y := yoe + era * 400 + (if m <=? 2 then 1 else 0) in
  (y, m, d).

Definition FormatRFC3339 (t : Time) : string :=
  let secs := t / 1000 in
  let '(y, m, d) := civil (secs / 86400) in
  let sod := secs mod 86400 in
  pad4 y +:+ "-" +:+ pad2 m +:+ "-" +:+ pad2 d +:+ "T" +:+
  pad2 (sod / 3600) +:+ ":" +:+ pad2 (sod mod 3600 / 60) +:+ ":" +:+
  pad2 (sod mod 60) +:+ "Z".

Definition runtime : Runtime :=
  Build_Runtime Fields ToLower Base EqualFold FormatRFC3339 getExtension.

(** An environment in which every call succeeds and yields nothing. *)
Definition quiet : Env :=
  fun _ X e =>
    match e in goE T return T with
    | Print _ | LogPrintln _ | LogFatal _ | Sleep _ | MutexLock _ | MutexUnlock _
    | GobRegister _ | SetOnPeer _ _ | GoStart _ => tt
    | FlagString _ value _ => value
    | OsOpen _ | OsOpenFile _ _ _ => inl 3%nat
    | OsStat _ | OsWriteFile _ _ _ | FileClose _ => None
    | OsReadFile _ => ([], None)
    | FileWriteString _ s => (String.length s, None)
    | TimeNow => 0
    | IoReadAll _ => Some (EmptyString, None)
    | JsonDecode _ => inl JNull
    | NewTCPTransport _ => (1%nat, None)
    | newEncryptionKey => []
    | NewFileServer _ => (2%nat, None)
    | FsStore _ _ _ | FsDelete _ _ | FsDeleteLocal _ _ | FsDeleteRemote _ _ _ => None
    | FsGet _ _ => (Stream 0, EmptyString, None)
    end.

(** An environment in which the file server finds nothing and every read
    fails with an error. An environment is any choice of answers: where the
    reader is the nil reader, Go's [io.ReadAll] panics, which is the answer
    [None]; the theorems hold for every environment, this one is for
    evaluating the loop on the path of a failed read. *)
Definition failing : Env :=
  fun n X e =>
    match e in goE T return T -> T with
    | FsGet _ _ => fun _ => (NilReader, EmptyString, Some "file not found")
    | IoReadAll _ => fun _ => Some (EmptyString, Some "unexpected EOF")
    | _ => fun x => x
    end (quiet n X e).

(** An environment in which the configuration file holds the JSON value [v]. *)
Definition decoding (v : json) : Env :=
  fun n X e =>
    match e in goE T return T -> T with
    | JsonDecode _ => fun _ => inl v
    | _ => fun x => x
    end (quiet n X e).

(** The configuration of the spec's example, one node and then a second
    that dials it. *)
Definition sampleConfig : json :=
  JArray [
    JObject [("port", JString ":3000"); ("peers", JArray [])];
    JObject [("port", JString ":3001"); ("peers", JArray [JString ":3000"])]
  ].
End Posix.

(** ** Vocabulary of the statements *)

(** Modelled from the spec: the message structs are declared in another
    file of package main; the data model names the variants of the control
    message. *)
Definition controlMessageVariants : list string :=
  ["StoreFile"; "GetFile"; "DeleteFile"; "GetFileNotFound";
   "StoreAck"; "DeleteAck"; "DuplicateCheck"; "DuplicateResponse"].

(** The Go type that carries a variant. *)
Definition messageType (variant : string) : string := "Message" +:+ variant.

(** The types handed to [gob.Register], in order. *)
Fixpoint registered (tr : list Step') : list string :=
  match tr with
  | [] => []
  | Step e _ :: rest =>
      match e with
      | GobRegister typeName => typeName :: registered rest
      | _ => registered rest
      end
  end.

(** The storage roots of the file servers a run built. *)
Definition storageRoots (tr : list Step') : list string :=
  FileServerOps.RootStorage <$> serversBuilt tr.

(** Whether the byte [c] occurs in [s]. *)
Fixpoint occurs (c : ascii) (s : string) : bool :=
  match s with
  | EmptyString => false
  | String c' s' => Ascii.eqb c c' || occurs c s'
  end.

Definition colon : ascii := ascii_of_nat 58.
Definition underscore : ascii := ascii_of_nat 95.

(** Whether two bytes are the same, or one is [:] and the other [_]. *)
Definition sameBut (x y : ascii) : bool :=
  Ascii.eqb x y
  || (Ascii.eqb x colon || Ascii.eqb x underscore)
     && (Ascii.eqb y colon || Ascii.eqb y underscore).

(** Whether two addresses are as long as each other and hold, at every
    position, the same byte or [:] in one and [_] in the other. *)
Fixpoint sameButColons (a b : string) : bool :=
  match a, b with
  | EmptyString, EmptyString => true
  | String x a', String y b' => sameBut x y && sameButColons a' b'
  | _, _ => false
  end.

(** The keys handed to [Store]. *)
Fixpoint storeKeys (calls : list fsCall) : list string :=
  match calls with
  | [] => []
  | CallStore _ key _ :: rest => key :: storeKeys rest
  | _ :: rest => storeKeys rest
  end.

(** The messages of [log.Fatal], in order. *)
Fixpoint fatals (tr : list Step') : list string :=
  match tr with
  | [] => []
  | Step e _ :: rest =>
      match e with
      | LogFatal s => s :: fatals rest
      | _ => fatals rest
      end
  end.

(** The files closed, in order. *)
Fixpoint closed (tr : list Step') : list File :=
  match tr with
  | [] => []
  | Step e _ :: rest =>
      match e with
      | FileClose f => f :: closed rest
      | _ => closed rest
      end
  end.

(** Modelled from the spec: [main] is not among the sources; the process
    ends with status 0 when the loop returns (exit code 0 on clean quit).
    [log.Fatal] ends it with status 1 and a panic with status 2, as the Go
    runtime does. *)
Definition exitCode (o : outcome unit) : Z :=
  match o with
  | Returns _ => 0
  | Exits code => code
  | Panics => 2
  end.

(** The commands of the interface, as the spec lists them. *)
Definition commandNames : list string :=
  ["store"; "get"; "delete"; "deletelocal"; "deleteremote"; "help"; "quit"].

(** The number of words each case of the switch insists on, and the usage
    line it prints otherwise; [quit] and the default case check nothing. *)
Definition usageOf (cmd : string) : option (nat * string) :=
  if String.eqb cmd "store" then Some (2%nat, "Usage: store <file-path>")
  else if String.eqb cmd "get" then Some (2%nat, "Usage: get <filename>")
  else if String.eqb cmd "delete" then Some (2%nat, "Usage: delete <filename>")
  else if String.eqb cmd "deletelocal" then Some (2%nat, "Usage: deletelocal <filename>")
  else if String.eqb cmd "deleteremote" then
    Some (3%nat, "Usage: deleteremote <filename> <peer list separated by comma (ip:port)>")
  else if String.eqb cmd "help" then Some (2%nat, "Usage: help <command>")
  else None.

(** The number of words of each command in the grammar of the spec:
    [store <path>], [get <name>], [delete <name>], [deletelocal <name>],
    [deleteremote <name> <csv-peers>], [help <cmd>], [quit]. *)
Definition specWords (cmd : string) : nat :=
  if String.eqb cmd "deleteremote" then 3%nat
  else if String.eqb cmd "quit" then 1%nat
  else 2%nat.

(** Whether a text written to standard output is a usage line. *)
Definition isUsage (s : string) : bool := String.prefix "Usage:" s.

(** A JSON object with the two fields of a configuration entry. *)
Definition configObject (port : string) (peers : list string) : json :=
  JObject [("port", JString port); ("peers", JArray (JString <$> peers))].

(** Whether a JSON value is an object or [null]. *)
Definition isObjectOrNull (v : json) : bool :=
  match v with
  | JObject _ | JNull => true
  | _ => false
  end.

(** Whether a JSON value is a string or [null]. *)
Definition isStringOrNull (v : json) : bool :=
  match v with
  | JString _ | JNull => true
  | _ => false
  end.

(** Whether a JSON value is an array or [null]. *)
Definition isArrayOrNull (v : json) : bool :=
  match v with
  | JArray _ | JNull => true
  | _ => false
  end.

(** How often the byte [c] occurs in [s]. *)
Fixpoint countByte (c : ascii) (s : string) : nat :=
  match s with
  | EmptyString => O
  | String c' s' => (if Ascii.eqb c c' then 1 else 0) + countByte c s'
  end.

Definition lineFeed : ascii := ascii_of_nat 10.

(** The arguments of one call of [Log]. *)
Record LogArgs : Type := {
  argOp : string;
  argFilekey : string;
  argPeer : string;
  argStatus : string;
}.

(** Where a call of [Log] stands: before the lock, before reading the
    clock, before the write, before reporting a failed write, before the
    unlock, or finished. *)
Inductive phase : Type :=
| AtLock
| AtNow
| AtWrite (now : Time)
| AtPrint (err : string)
| AtUnlock
| Finished.

Section LogPhases.
Context `{Runtime}.

(** What is left of a call of [Log] at each phase. *)
Definition logFrom (a : AuditLogger) (c : LogArgs) (ph : phase) : Prog unit :=
  match ph with
  | AtLock => Log a (argOp c) (argFilekey c) (argPeer c) (argStatus c)
  | AtNow =>
      now <- call TimeNow ;;
      w <- call (FileWriteString (logFile a)
                   (logEntry now (argOp c) (argFilekey c) (argPeer c) (argStatus c))) ;;
      match snd w with
      | Some err => call (Print (Sprintln ["Error writing to log file:"; err]))
      | None => Ret tt
      end ;;;
      call (MutexUnlock (mu a))
  | AtWrite now =>
      w <- call (FileWriteString (logFile a)
                   (logEntry now (argOp c) (argFilekey c) (argPeer c) (argStatus c))) ;;
      match snd w with
      | Some err => call (Print (Sprintln ["Error writing to log file:"; err]))
      | None => Ret tt
      end ;;;
      call (MutexUnlock (mu a))
  | AtPrint err =>
      call (Print (Sprintln ["Error writing to log file:"; err])) ;;;
      call (MutexUnlock (mu a))
  | AtUnlock => call (MutexUnlock (mu a))
  | Finished => Ret tt
  end.

(** One call of [Log] after the other. *)
Fixpoint logEach (a : AuditLogger) (calls : list LogArgs) : Prog unit :=
  match calls with
  | [] => Ret tt
  | c :: rest =>
      Log a (argOp c) (argFilekey c) (argPeer c) (argStatus c) ;;;
      logEach a rest
  end.

(** The entries those calls write when each reads the clock at [now]. *)
Definition entriesAt (now : Time) (calls : list LogArgs) : string :=
  foldr (fun c rest =>
           logEntry now (argOp c) (argFilekey c) (argPeer c) (argStatus c) +:+ rest)
        EmptyString calls.
End LogPhases.

(** Whether the next call of a thread is a write to a file. *)
Definition atWrite (p : Prog unit) : bool :=
  match p with
  | Ret _ => false
  | Vis e _ =>
      match e with
      | FileWriteString _ _ => true
      | _ => false
      end
  end.

(** The threads are calls of [Log] on the logger [a]; while its mutex is
    free none of them is inside the critical section, and never two are. *)
Record exclusive `{Runtime} (a : AuditLogger) (w : World) (threads : list (Prog unit)) : Prop := {
  ex_shape : forall i p, threads !! i = Some p -> exists c ph, p = logFrom a c ph;
  ex_free : mu a ∉ held w ->
            forall i p, threads !! i = Some p -> inCritical p = false;
  ex_one : forall i j p q,
      threads !! i = Some p -> threads !! j = Some q ->
      inCritical p = true -> inCritical q = true -> i = j;
  ex_write : forall i p, threads !! i = Some p -> atWrite p = true -> mu a ∈ held w;
}.

(** The world before anything ran. *)
Definition emptyWorld : World :=
  {| files := ∅; descriptors := ∅; clock := 0; stdout := EmptyString;
     held := ∅; registry := ∅; issued := ∅; denied := ∅ |}.

(** ** Further vocabulary *)

(** The errors handed to [log.Println], in order. *)
Fixpoint logged (tr : list Step') : list string :=
  match tr with
  | [] => []
  | Step e _ :: rest =>
      match e with
      | LogPrintln s => s :: logged rest
      | _ => logged rest
      end
  end.

(** The pauses, in milliseconds, in order. *)
Fixpoint slept (tr : list Step') : list Z :=
  match tr with
  | [] => []
  | Step e _ :: rest =>
      match e with
      | Sleep ms => ms :: slept rest
      | _ => slept rest
      end
  end.

(** The servers whose [Start] was launched, in order. *)
Fixpoint started (tr : list Step') : list FileServer :=
  match tr with
  | [] => []
  | Step e _ :: rest =>
      match e with
      | GoStart server => server :: started rest
      | _ => started rest
      end
  end.

(** The servers that [NewFileServer] returned, in order. *)
Fixpoint serversMade (tr : list Step') : list FileServer :=
  match tr with
  | [] => []
  | @Step _ X e x :: rest =>
      match e in goE T return T -> list FileServer with
      | NewFileServer _ => fun s => fst s :: serversMade rest
      | _ => fun _ => serversMade rest
      end x
  end.

(** The files that [os.Open] returned, in order. *)
Fixpoint filesOpened (tr : list Step') : list File :=
  match tr with
  | [] => []
  | @Step _ X e x :: rest =>
      match e in goE T return T -> list File with
      | OsOpen _ =>
          fun r => match r with
                   | inl f => f :: filesOpened rest
                   | inr _ => filesOpened rest
                   end
      | _ => fun _ => filesOpened rest
      end x
  end.

(** The file server a call is made on. *)
Definition serverOf (c : fsCall) : FileServer :=
  match c with
  | CallStore fs _ _ | CallGet fs _ | CallDelete fs _
  | CallDeleteLocal fs _ | CallDeleteRemote fs _ _ => fs
  end.

(** The map that assigning each pair in turn builds: a later pair replaces
    an earlier one with the same key. *)
Definition assignAll (pairs : list (string * FileServer)) (servers : gmap string FileServer)
  : gmap string FileServer :=
  foldl (fun m e => <[e.1 := e.2]> m) servers pairs.

(** Whether a thread has run to its end. *)
Definition finished (p : Prog unit) : bool :=
  match p with
  | Ret _ => true
  | Vis _ _ => false
  end.

(** The transports that [p2p.NewTCPTransport] returned, in order. *)
Fixpoint transportsMade (tr : list Step') : list Transport :=
  match tr with
  | [] => []
  | @Step _ X e x :: rest =>
      match e in goE T return T -> list Transport with
      | NewTCPTransport _ => fun t => fst t :: transportsMade rest
      | _ => fun _ => transportsMade rest
      end x
  end.

(** The assignments to the [OnPeer] field of a transport, in order. *)
Fixpoint onPeerSet (tr : list Step') : list (Transport * option FileServer) :=
  match tr with
  | [] => []
  | Step e _ :: rest =>
      match e with
      | SetOnPeer t onPeer => (t, onPeer) :: onPeerSet rest
      | _ => onPeerSet rest
      end
  end.

Definition comma : ascii := ascii_of_nat 44.

(** An environment in which no file can be opened. *)
Definition noSuchFile : Env :=
  fun n X e =>
    match e in goE T return T -> T with
    | OsOpen path => fun _ => inr ("open " +:+ path +:+ ": no such file or directory")
    | _ => fun x => x
    end (Posix.quiet n X e).

(** The prompts of the command loop among what a run printed. *)
Definition prompts (tr : list Step') : nat :=
  length (filter (fun s => String.eqb ">>> " s) (printed tr)).

(** The topics [helpText] has a text for. *)
Definition helpTopics : list string :=
  ["store"; "get"; "delete"; "deletelocal"; "deleteremote"; "quit"].

(** An environment in which the file server refuses every change. *)
Definition refusing : Env :=
  fun n X e =>
    match e in goE T return T -> T with
    | FsStore _ _ _ | FsDelete _ _ | FsDeleteLocal _ _ | FsDeleteRemote _ _ _ =>
        fun _ => Some "no peer answered"
    | _ => fun x => x
    end (Posix.quiet n X e).

(** Whether a call of [Log] at this phase has made its write. *)
Definition wrote (ph : phase) : bool :=
  match ph with
  | AtUnlock | Finished => true
  | _ => false
  end.

(** The calls, among [calls], whose thread has made its write. *)
Fixpoint writtenBy (calls : list LogArgs) (phases : list phase) : list LogArgs :=
  match calls, phases with
  | c :: cs, ph :: phs =>
      if wrote ph then c :: writtenBy cs phs else writtenBy cs phs
  | _, _ => []
  end.

(** The calls a thread at this phase has still to make. *)
Definition stepsLeft (ph : phase) : nat :=
  match ph with
  | AtLock => 4
  | AtNow => 3
  | AtWrite _ => 2
  | AtPrint _ => 2
  | AtUnlock => 1
  | Finished => 0
  end.

(** The calls the threads have still to make, all together. *)
Fixpoint callsLeft (phases : list phase) : nat :=
  match phases with
  | [] => O
  | ph :: phs => (stepsLeft ph + callsLeft phs)%nat
  end.

(** A phase that threads reach while the file is open and the clock stands
    at [t0]: the time read is [t0], and no write has failed. *)
Definition sound (t0 : Time) (ph : phase) : Prop :=
  match ph with
  | AtWrite now => now = t0
  | AtPrint _ => False
  | _ => True
  end.

(** Threads that log [calls] through the logger [a], thread [i] standing at
    phase [phases !! i]: the file of the logger, which held [old] at the
    start, holds the entries of [written] behind it, and these are the calls
    whose write is made; the mutex is held by a thread inside the critical
    section, and by one only. *)
Record logging `{Runtime} (a : AuditLogger) (d : Descriptor) (old : string)
       (t0 : Time) (out : string) (calls : list LogArgs)
       (phases : list phase) (written : list LogArgs)
       (w : World) (threads : list (Prog unit)) : Prop := {
  lg_threads : threads = zip_with (logFrom a) calls phases;
  lg_length : length phases = length calls;
  lg_sound : Forall (sound t0) phases;
  lg_descriptor : descriptors w !! logFile a = Some d;
  lg_flags : dFlags d = appendCreateWronly;
  lg_clock : clock w = t0;
  lg_stdout : stdout w = out;
  lg_file : files w !! dPath d = Some (old +:+ entriesAt t0 written);
  lg_written : written ≡ₚ writtenBy calls phases;
  lg_exclusive : exclusive a w threads;
  lg_owner : mu a ∈ held w ->
             exists i p, threads !! i = Some p /\ inCritical p = true;
}.

(** A world in which [audit.log] is open for appending on descriptor 0. *)
Definition openLog : World :=
  {| files := {["audit.log" := "started" +:+ newline]};
     descriptors := {[0%nat := {| dPath := "audit.log"; dFlags := appendCreateWronly |}]};
     clock := 0; stdout := EmptyString; held := ∅; registry := ∅;
     issued := {[0%nat := "audit.log"]}; denied := ∅ |}.

(** Two calls of [Log]. *)
Definition twoCalls : list LogArgs :=
  [ {| argOp := "STORE"; argFilekey := "e1c9a"; argPeer := ":3001"; argStatus := "ok" |};
    {| argOp := "GET"; argFilekey := "77b0f"; argPeer := ":3002"; argStatus := "miss" |} ].

(** Whether an object key selects a field of [ServerConfig]. *)
Definition knownKey `{Runtime} (member : string * json) : bool :=
  match fieldOf member.1 with
  | Some _ => true
  | None => false
  end.

Definition selects `{Runtime} (f : field) (member : string * json) : bool :=
  match fieldOf member.1, f with
  | Some FPort, FPort | Some FBootstrapNodes, FBootstrapNodes => true
  | _, _ => false
  end.

(** *** The configuration, in the words of the spec

    A JSON array, each element an object with the fields [port], a string,
    and [peers], an array of strings. As the decoder has it, [null] stands
    for an absent value at each of these places, a field may be missing and
    further keys are free. *)

(** Whether a JSON value can be the [peers] of an entry. *)
Definition isPeers (v : json) : bool :=
  match v with
  | JArray elems => forallb isStringOrNull elems
  | JNull => true
  | _ => false
  end.

(** Whether a member of an object fits the field its key selects. *)
Definition isMember `{Runtime} (member : string * json) : bool :=
  match fieldOf member.1 with
  | Some FPort => isStringOrNull member.2
  | Some FBootstrapNodes => isPeers member.2
  | None => true
  end.

(** Whether a JSON value can be an entry of the configuration. *)
Definition isEntry `{Runtime} (v : json) : bool :=
  match v with
  | JObject members => forallb isMember members
  | JNull => true
  | _ => false
  end.

(** Whether a JSON value can be the configuration. *)
Definition isConfiguration `{Runtime} (v : json) : bool :=
  match v with
  | JArray elems => forallb isEntry elems
  | JNull => true
  | _ => false
  end.

(** The string a JSON value stands for in a field that was empty. *)
Definition textOf (v : json) : string :=
  match v with
  | JString s => s
  | _ => EmptyString
  end.

(** The value of the first member whose key selects the field [f]. *)
Definition memberOf `{Runtime} (f : field) (members : list (string * json)) : option json :=
  snd <$> List.find (selects f) members.

(** Whether at most one member selects the field [f]. *)
Definition selectedOnce `{Runtime} (f : field) (members : list (string * json)) : Prop :=
  (length (List.filter (selects f) members) <= 1)%nat.

(** The port and the peers that the members of an entry give. *)
Definition portOf `{Runtime} (members : list (string * json)) : string :=
  match memberOf FPort members with
  | Some v => textOf v
  | None => EmptyString
  end.

Definition peersOf `{Runtime} (members : list (string * json)) : list string :=
  match memberOf FBootstrapNodes members with
  | Some (JArray elems) => textOf <$> elems
  | _ => []
  end.

(** * Properties *)

(** ** The library functions on sample inputs *)

Example posix_fields : Posix.Fields "  store   a/b.txt " = ["store"; "a/b.txt"].
Proof. reflexivity. Qed.

Example posix_base : map Posix.Base ["a/b.txt"; "/x/y/"; ""; "///"; "name"]
                     = ["b.txt"; "y"; "."; "/"; "name"].
Proof. reflexivity. Qed.

Example posix_time : Posix.FormatRFC3339 1700000000000 = "2023-11-14T22:13:20Z".
Proof. reflexivity. Qed.

Example split_csv : Split ":3001,:3002" "," = [":3001"; ":3002"].
Proof. reflexivity. Qed.

Example replace_colon : ReplaceAll "127.0.0.1:3000" ":" "_" = "127.0.0.1_3000".
Proof. reflexivity. Qed.

(** ** Programs and their runs *)

Section RunFacts.
Context {E : Type -> Type}.

Lemma run_bind {A B : Type} (rho : env E) (p : prog E A) (f : A -> prog E B) :
  forall n,
    run rho n (bind p f) =
    (fst (run rho n p) ++ fst (run rho (n + length (fst (run rho n p))) (f (snd (run rho n p)))),
     snd (run rho (n + length (fst (run rho n p))) (f (snd (run rho n p))))).
Proof.
  induction p as [a | X e k IH]; intros n; simpl.
  - rewrite Nat.add_0_r. destruct (run rho n (f a)); reflexivity.
  - rewrite IH. destruct (run rho (S n) (k (rho n X e))) as [tr a] eqn:Hk. simpl.
    replace (n + S (length tr))%nat with (S n + length tr)%nat by lia.
    reflexivity.
Qed.

Lemma trace_vis {A X : Type} (rho : env E) (e : E X) (k : X -> prog E A) n :
trace rho n (Vis e k) = Step e (rho n _ e) :: trace rho (S n) (k (rho n _ e)).
Proof. unfold trace. simpl. destruct (run rho (S n) (k (rho n X e))). reflexivity. Qed.

Lemma result_vis {A X : Type} (rho : env E) (e : E X) (k : X -> prog E A) n :
result rho n (Vis e k) = result rho (S n) (k (rho n _ e)).
Proof. unfold result. simpl. destruct (run rho (S n) (k (rho n X e))). reflexivity. Qed.

Lemma trace_bind {A B : Type} (rho : env E) (p : prog E A) (f : A -> prog E B) n :
  trace rho n (bind p f) =
  trace rho n p ++ trace rho (n + length (trace rho n p)) (f (result rho n p)).
Proof. unfold trace, result. rewrite run_bind. reflexivity. Qed.

Lemma result_bind {A B : Type} (rho : env E) (p : prog E A) (f : A -> prog E B) n :
  result rho n (bind p f) =
  result rho (n + length (trace rho n p)) (f (result rho n p)).
Proof. unfold trace, result. rewrite run_bind. reflexivity. Qed.
End RunFacts.

Lemma keysDrawn_app (tr1 tr2 : list Step') :
  keysDrawn (tr1 ++ tr2) = keysDrawn tr1 ++ keysDrawn tr2.
Proof.
  induction tr1 as [| [X e x] tr1 IH]; simpl; [reflexivity |].
  destruct e; simpl; rewrite IH; reflexivity.
Qed.

Lemma serversBuilt_app (tr1 tr2 : list Step') :
  serversBuilt (tr1 ++ tr2) = serversBuilt tr1 ++ serversBuilt tr2.
Proof.
  induction tr1 as [| [X e x] tr1 IH]; simpl; [reflexivity |].
  destruct e; simpl; rewrite IH; reflexivity.
Qed.

(** ** registerAll *)

Lemma registerAll_trace (rho : Env) (n : nat) :
  registered (trace rho n registerAll) = messageType <$> controlMessageVariants.
Proof. reflexivity. Qed.

Lemma registerAll_interp (w : World) :
  interp registerAll w =
  Some (tt, setRegistry w
              ({["MessageDuplicateResponse"]} ∪ ({["MessageDuplicateCheck"]} ∪
               ({["MessageDeleteAck"]} ∪ ({["MessageStoreAck"]} ∪
               ({["MessageGetFileNotFound"]} ∪ ({["MessageDeleteFile"]} ∪
               ({["MessageGetFile"]} ∪ ({["MessageStoreFile"]} ∪ registry w))))))))).
Proof. reflexivity. Qed.

(** C2. Every one of the eight control-message variants of the data model is
    registered with the wire encoder: [registerAll] makes exactly one
    registration per variant and no other, and it turns any registry into one
    that holds, besides what it held, exactly the types of the eight
    variants; from the empty registry the registered set is the set of the
    variants. *)
Theorem registerAll_registers_every_variant :
  (forall (rho : Env) (n : nat),
      registered (trace rho n registerAll) = messageType <$> controlMessageVariants) /\
  length controlMessageVariants = 8%nat /\
  NoDup controlMessageVariants /\
  (forall w : World, exists w' : World,
      interp registerAll w = Some (tt, w') /\
      registry w' = list_to_set (messageType <$> controlMessageVariants) ∪ registry w /\
      (registry w = ∅ ->
       forall typeName : string,
         typeName ∈ registry w' <->
         exists variant, variant ∈ controlMessageVariants /\ typeName = messageType variant)).
Proof.
  split; [exact registerAll_trace |].
  split; [reflexivity |].
  split.
  { apply (bool_decide_unpack _). reflexivity. }
  intros w. eexists. split; [apply registerAll_interp |].
  assert (Hreg : registry
     (setRegistry w
        ({["MessageDuplicateResponse"]} ∪ ({["MessageDuplicateCheck"]} ∪
         ({["MessageDeleteAck"]} ∪ ({["MessageStoreAck"]} ∪
         ({["MessageGetFileNotFound"]} ∪ ({["MessageDeleteFile"]} ∪
         ({["MessageGetFile"]} ∪ ({["MessageStoreFile"]} ∪ registry w)))))))))
     = list_to_set (messageType <$> controlMessageVariants) ∪ registry w).
  { cbn [registry setRegistry]. unfold controlMessageVariants.
    cbn [fmap list_fmap list_to_set messageType String.append].
    apply set_eq. intros x. rewrite !elem_of_union, !elem_of_singleton, elem_of_empty.
    tauto. }
  split; [exact Hreg |].
  intros Hempty typeName. rewrite Hreg, Hempty.
  rewrite union_empty_r_L, elem_of_list_to_set, list_elem_of_fmap.
  split; intros (v & H1 & H2); exists v; auto.
Qed.

(** ** Strings *)

Lemma list_ascii_append (a b : string) :
  String.list_ascii_of_string (a +:+ b) =
  String.list_ascii_of_string a ++ String.list_ascii_of_string b.
Proof. induction a as [| c a IH]; simpl; [reflexivity | rewrite IH; reflexivity]. Qed.

Lemma list_ascii_inj (a b : string) :
  String.list_ascii_of_string a = String.list_ascii_of_string b -> a = b.
Proof.
  intros Heq.
  rewrite <- (String.string_of_list_ascii_of_string a),
          <- (String.string_of_list_ascii_of_string b), Heq.
  reflexivity.
Qed.

Lemma append_cancel_r (a b suffix : string) :
  a +:+ suffix = b +:+ suffix -> a = b.
Proof.
  intros Heq. apply list_ascii_inj.
  apply (f_equal String.list_ascii_of_string) in Heq.
  rewrite !list_ascii_append in Heq.
  exact (app_inv_tail _ _ _ Heq).
Qed.

Lemma prefix_colon (c : ascii) (s : string) :
  String.prefix ":" (String c s) = Ascii.eqb c colon.
Proof.
  change (String.prefix ":" (String c s))
    with (if ascii_dec ":" c then String.prefix EmptyString s else false).
  destruct (ascii_dec ":" c) as [Heq | Hne].
  - subst c. destruct s; reflexivity.
  - symmetry. apply Ascii.eqb_neq. intros Heq. apply Hne. symmetry. exact Heq.
Qed.

(** Replacing the colon acts byte by byte. *)
Lemma ReplaceAll_colon_cons (c : ascii) (s : string) :
  ReplaceAll (String c s) ":" "_" =
  String (if Ascii.eqb c colon then underscore else c) (ReplaceAll s ":" "_").
Proof.
  unfold ReplaceAll. cbn [replaceFrom]. rewrite prefix_colon.
  destruct (Ascii.eqb c colon); reflexivity.
Qed.

Lemma ReplaceAll_colon_inj (a b : string) :
  occurs underscore a = false ->
  occurs underscore b = false ->
  ReplaceAll a ":" "_" = ReplaceAll b ":" "_" ->
  a = b.
Proof.
  revert b. induction a as [| c a IH]; intros [| d b] Ha Hb Heq.
  - reflexivity.
  - rewrite ReplaceAll_colon_cons in Heq. discriminate Heq.
  - rewrite ReplaceAll_colon_cons in Heq. discriminate Heq.
  - rewrite !ReplaceAll_colon_cons in Heq.
    cbn [occurs] in Ha, Hb.
    apply orb_false_iff in Ha as [Hc Ha], Hb as [Hd Hb].
    injection Heq as Hhead Htail.
    f_equal; [| apply IH; assumption].
    destruct (Ascii.eqb_spec c colon) as [-> | Hc'];
      destruct (Ascii.eqb_spec d colon) as [-> | Hd'];
      cbv iota in Hhead; try reflexivity.
    + subst d. rewrite Ascii.eqb_refl in Hd. discriminate Hd.
    + subst c. rewrite Ascii.eqb_refl in Hc. discriminate Hc.
    + exact Hhead.
Qed.

(** ** makeServer *)

Lemma makeServer_run (cfg : ServerConfig) (rho : Env) (n : nat) :
  let tcpops :=
    {| TCPTransportOps.ListenerPortAddr := ServerConfig.Port cfg;
       TCPTransportOps.ShakeHands := DefensiveHandshakeFunc;
       TCPTransportOps.Decoder := DefaultDecoder;
       TCPTransportOps.OnPeer := None |} in
  let t := rho n _ (NewTCPTransport tcpops) in
  let key := rho (S n) _ newEncryptionKey in
  let ops :=
    {| FileServerOps.ID := EmptyString;
       FileServerOps.RootStorage := ReplaceAll (ServerConfig.Port cfg) ":" "_" +:+ "_gyattt";
       FileServerOps.PathTransformFunc := CryptoPathTransformFunc;
       FileServerOps.Transort := fst t;
       FileServerOps.BootstrapNodes := ServerConfig.BootstrapNodes cfg;
       FileServerOps.EncKey := key |} in
  let s := rho (S (S n)) _ (NewFileServer ops) in
  run rho n (makeServer cfg) =
  ([Step (NewTCPTransport tcpops) t; Step newEncryptionKey key;
    Step (NewFileServer ops) s;
    Step (SetOnPeer (fst t) (Some (fst s))) (rho (S (S (S n))) _ (SetOnPeer (fst t) (Some (fst s))))],
   fst s).
Proof. reflexivity. Qed.

Lemma makeServer_length (cfg : ServerConfig) (rho : Env) (n : nat) :
  length (trace rho n (makeServer cfg)) = 4%nat.
Proof. reflexivity. Qed.

(** The storage roots of distinct addresses may coincide: [":3000"] and
    ["_3000"] both lead to ["_3000_gyattt"]. *)
Lemma storage_root_collision :
  let c1 := {| ServerConfig.Port := ":3000"; ServerConfig.BootstrapNodes := [] |} in
  let c2 := {| ServerConfig.Port := "_3000"; ServerConfig.BootstrapNodes := [] |} in
  ServerConfig.Port c1 <> ServerConfig.Port c2 /\
  ~ (forall (rho : Env) (n : nat),
        storageRoots (trace rho n (makeServer c1)) <>
        storageRoots (trace rho n (makeServer c2))) /\
  (forall (rho1 rho2 : Env) (n1 n2 : nat),
      storageRoots (trace rho1 n1 (makeServer c1)) = ["_3000_gyattt"] /\
      storageRoots (trace rho2 n2 (makeServer c2)) = ["_3000_gyattt"]).
Proof.
  intros c1 c2. split; [discriminate |]. split.
  - intros Hclaim. apply (Hclaim Posix.quiet O). reflexivity.
  - intros rho1 rho2 n1 n2. split; reflexivity.
Qed.

Lemma sameBut_replaced (x y : ascii) :
  (if Ascii.eqb x colon then underscore else x) =
  (if Ascii.eqb y colon then underscore else y) <->
  sameBut x y = true.
Proof.
  unfold sameBut.
  destruct (Ascii.eqb x colon) eqn:Hxc; destruct (Ascii.eqb y colon) eqn:Hyc;
    cbn [orb andb].
  - split; [intros _; apply orb_true_r | reflexivity].
  - rewrite (Ascii.eqb_sym y underscore). split.
    + intros <-. rewrite Ascii.eqb_refl. apply orb_true_r.
    + intros Hor. apply orb_true_iff in Hor as [Heq | Heq].
      * apply Ascii.eqb_eq in Heq. subst y. rewrite Hxc in Hyc. discriminate Hyc.
      * apply Ascii.eqb_eq in Heq. exact Heq.
  - split.
    + intros ->. rewrite Ascii.eqb_refl, orb_true_r. reflexivity.
    + intros Hor. apply orb_true_iff in Hor as [Heq | Heq].
      * apply Ascii.eqb_eq in Heq. subst y. rewrite Hxc in Hyc. discriminate Hyc.
      * rewrite andb_true_r in Heq. apply Ascii.eqb_eq in Heq. exact Heq.
  - rewrite andb_comm. split.
    + intros ->. rewrite Ascii.eqb_refl. reflexivity.
    + intros Hor. apply orb_true_iff in Hor as [Heq | Heq].
      * apply Ascii.eqb_eq in Heq. exact Heq.
      * apply andb_true_iff in Heq as [Hy Hx].
        apply Ascii.eqb_eq in Hy, Hx. subst x y. reflexivity.
Qed.

(** The replacement makes two addresses equal exactly when they differ in
    colons and underscores only. *)
Lemma ReplaceAll_colon_same (a : string) :
  forall b : string,
    ReplaceAll a ":" "_" = ReplaceAll b ":" "_" <-> sameButColons a b = true.
Proof.
  induction a as [| x a IH]; intros [| y b]; cbn [sameButColons];
    rewrite ?ReplaceAll_colon_cons.
  - split; reflexivity.
  - split; discriminate.
  - split; discriminate.
  - rewrite andb_true_iff, <- IH, <- sameBut_replaced. split.
    + intros Heq. injection Heq as Hhead Htail. split; assumption.
    + intros [Hhead Htail]. rewrite Hhead, Htail. reflexivity.
Qed.

(** C5, as the code has it. The storage root handed to the file server is
    the listen address with every [:] replaced by [_], byte by byte,
    followed by [_gyattt], for every address; it depends on nothing else.
    Two nodes get the same storage root exactly when their listen addresses
    agree after that replacement, which is when the addresses are as long
    as each other and at every position hold the same byte, or [:] in one
    and [_] in the other. So two nodes whose listen addresses are distinct
    and contain no [_] get distinct storage roots. *)
Theorem storage_root_from_listen_address :
  (forall (c : ServerConfig) (rho : Env) (n : nat),
      storageRoots (trace rho n (makeServer c)) =
        [ReplaceAll (ServerConfig.Port c) ":" "_" +:+ "_gyattt"]) /\
  (ReplaceAll EmptyString ":" "_" = EmptyString /\
   forall (x : ascii) (s : string),
     ReplaceAll (String x s) ":" "_" =
       String (if Ascii.eqb x colon then underscore else x) (ReplaceAll s ":" "_")) /\
  (forall (c1 c2 : ServerConfig) (rho1 rho2 : Env) (n1 n2 : nat),
      (storageRoots (trace rho1 n1 (makeServer c1)) =
         storageRoots (trace rho2 n2 (makeServer c2)) <->
       ReplaceAll (ServerConfig.Port c1) ":" "_" =
         ReplaceAll (ServerConfig.Port c2) ":" "_") /\
      (storageRoots (trace rho1 n1 (makeServer c1)) =
         storageRoots (trace rho2 n2 (makeServer c2)) <->
       sameButColons (ServerConfig.Port c1) (ServerConfig.Port c2) = true)) /\
  (forall (c1 c2 : ServerConfig) (rho1 rho2 : Env) (n1 n2 : nat),
      occurs underscore (ServerConfig.Port c1) = false ->
      occurs underscore (ServerConfig.Port c2) = false ->
      ServerConfig.Port c1 <> ServerConfig.Port c2 ->
      storageRoots (trace rho1 n1 (makeServer c1)) <>
        storageRoots (trace rho2 n2 (makeServer c2))).
Proof.
  assert (Hroots : forall (c1 c2 : ServerConfig) (rho1 rho2 : Env) (n1 n2 : nat),
             storageRoots (trace rho1 n1 (makeServer c1)) =
               storageRoots (trace rho2 n2 (makeServer c2)) <->
             ReplaceAll (ServerConfig.Port c1) ":" "_" =
               ReplaceAll (ServerConfig.Port c2) ":" "_").
  { intros c1 c2 rho1 rho2 n1 n2.
    change (storageRoots (trace rho1 n1 (makeServer c1)))
      with [ReplaceAll (ServerConfig.Port c1) ":" "_" +:+ "_gyattt"].
    change (storageRoots (trace rho2 n2 (makeServer c2)))
      with [ReplaceAll (ServerConfig.Port c2) ":" "_" +:+ "_gyattt"].
    split.
    - intros Heq. injection Heq as Heq. exact (append_cancel_r _ _ _ Heq).
    - intros ->. reflexivity. }
  split; [reflexivity |].
  split; [split; [reflexivity | exact ReplaceAll_colon_cons] |]. split.
  - intros c1 c2 rho1 rho2 n1 n2. split; [apply Hroots |].
    rewrite <- ReplaceAll_colon_same. apply Hroots.
  - intros c1 c2 rho1 rho2 n1 n2 H1 H2 Hne Heq. apply Hne.
    apply ReplaceAll_colon_inj; [assumption .. |].
    apply (Hroots c1 c2 rho1 rho2 n1 n2). exact Heq.
Qed.

Lemma storage_root_from_listen_address_witness :
  storageRoots (trace Posix.quiet O
     (makeServer {| ServerConfig.Port := ":3000"; ServerConfig.BootstrapNodes := [] |})) =
    ["_3000_gyattt"] /\
  storageRoots (trace Posix.quiet O
     (makeServer {| ServerConfig.Port := "node_1:3000";
                    ServerConfig.BootstrapNodes := [":3000"] |})) =
    ["node_1_3000_gyattt"] /\
  storageRoots (trace Posix.quiet O
     (makeServer {| ServerConfig.Port := ":3000"; ServerConfig.BootstrapNodes := [] |})) <>
  storageRoots (trace Posix.quiet O
     (makeServer {| ServerConfig.Port := "127.0.0.1:3001";
                    ServerConfig.BootstrapNodes := [":3000"] |})).
Proof.
  destruct storage_root_from_listen_address as (Hroot & _ & _ & Hdistinct).
  split; [apply Hroot |]. split; [apply Hroot |].
  apply (Hdistinct
           {| ServerConfig.Port := ":3000"; ServerConfig.BootstrapNodes := [] |}
           {| ServerConfig.Port := "127.0.0.1:3001";
              ServerConfig.BootstrapNodes := [":3000"] |}
           Posix.quiet Posix.quiet O O).
  - reflexivity.
  - reflexivity.
  - discriminate.
Defined.

Lemma transportsBuilt_app (tr1 tr2 : list Step') :
  transportsBuilt (tr1 ++ tr2) = transportsBuilt tr1 ++ transportsBuilt tr2.
Proof.
  induction tr1 as [| [X e x] tr1 IH]; simpl; [reflexivity |].
  destruct e; simpl; rewrite IH; reflexivity.
Qed.

(** One pass of the loop over the configurations: the four calls of
    [makeServer], the start of the server, the pause, then the rest. *)
Lemma startServers_cons (cfg : ServerConfig) (rest : list ServerConfig)
      (servers : gmap string FileServer) (rho : Env) (n : nat) :
  exists (server : FileServer) (tail : list Step'),
    trace rho n (startServers (cfg :: rest) servers) =
      trace rho n (makeServer cfg) ++ tail /\
    tail = Step (GoStart server) (rho (4 + n)%nat _ (GoStart server))
           :: Step (Sleep 50) (rho (5 + n)%nat _ (Sleep 50))
           :: trace rho (6 + n)%nat
                (startServers rest (<[ServerConfig.Port cfg := server]> servers)).
Proof.
  exists (result rho n (makeServer cfg)). eexists. split; [| reflexivity].
  unfold trace, result. simpl.
  match goal with |- context [run rho ?m (startServers rest ?sv)] =>
    destruct (run rho m (startServers rest sv)) as [tr r] end.
  reflexivity.
Qed.

(** C7. Every server built by [makeServer] installs the permissive default
    handshake on its transport: the one transport a call builds, and each
    transport that the loop over the configurations builds, carries
    [DefensiveHandshakeFunc]; that handshake exchanges no bytes and succeeds
    for every peer. *)
Theorem makeServer_installs_defensive_handshake :
  (forall (cfg : ServerConfig) (rho : Env) (n : nat),
      TCPTransportOps.ShakeHands <$> transportsBuilt (trace rho n (makeServer cfg)) =
      [DefensiveHandshakeFunc]) /\
  (forall (configs : list ServerConfig) (servers : gmap string FileServer)
          (rho : Env) (n : nat),
      Forall (fun ops => TCPTransportOps.ShakeHands ops = DefensiveHandshakeFunc)
             (transportsBuilt (trace rho n (startServers configs servers)))) /\
  (forall (peer : Peer) (rho : env connE) (n : nat),
      run rho n (DefensiveHandshakeFunc peer) = ([], None)).
Proof.
  split; [reflexivity |]. split; [| reflexivity].
  induction configs as [| cfg rest IH]; intros servers rho n.
  - constructor.
  - destruct (startServers_cons cfg rest servers rho n) as (server & tail & -> & ->).
    rewrite transportsBuilt_app. apply Forall_app. split.
    + repeat constructor.
    + apply IH.
Qed.

(** C4. Each server built by [makeServer] receives an encryption key
    generated in that very call: one run of [makeServer] calls
    [newEncryptionKey] exactly once, hands the key it got to the file server
    unchanged, and makes no call that reads or writes persistent storage;
    over a list of configurations there is one such call per server, each
    at its own position in the run, and the i-th server gets the i-th key. *)
Theorem makeServer_draws_its_own_key :
  (forall (cfg : ServerConfig) (rho : Env) (n : nat),
      keysDrawn (trace rho n (makeServer cfg)) = [rho (S n) _ newEncryptionKey] /\
      FileServerOps.EncKey <$> serversBuilt (trace rho n (makeServer cfg)) =
        keysDrawn (trace rho n (makeServer cfg)) /\
      existsb stepTouchesStorage (trace rho n (makeServer cfg)) = false) /\
  (forall (configs : list ServerConfig) (servers : gmap string FileServer)
          (rho : Env) (n : nat),
      keysDrawn (trace rho n (startServers configs servers)) =
        (fun i => rho (S (6 * i + n)) _ newEncryptionKey) <$> seq 0 (length configs) /\
      FileServerOps.EncKey <$> serversBuilt (trace rho n (startServers configs servers)) =
        keysDrawn (trace rho n (startServers configs servers)) /\
      existsb stepTouchesStorage (trace rho n (startServers configs servers)) = false).
Proof.
  split; [intros; repeat split |].
  induction configs as [| cfg rest IH]; intros servers rho n.
  - repeat split.
  - destruct (startServers_cons cfg rest servers rho n) as (server & tail & -> & ->).
    destruct (IH (<[ServerConfig.Port cfg := server]> servers) rho (6 + n)%nat)
      as (Hkeys & Hpass & Hstore).
    split; [| split].
    + rewrite keysDrawn_app. cbn [keysDrawn]. rewrite Hkeys.
      change (keysDrawn (trace rho n (makeServer cfg)))
        with [rho (S n) _ newEncryptionKey].
      cbn [length seq fmap list_fmap app]. f_equal.
      rewrite <- seq_shift, <- list_fmap_compose.
      apply list_fmap_ext. intros _ i _. simpl. f_equal. lia.
    + rewrite serversBuilt_app, fmap_app, keysDrawn_app.
      cbn [serversBuilt keysDrawn]. rewrite Hpass. reflexivity.
    + rewrite existsb_app. apply orb_false_intro; [reflexivity |].
      exact Hstore.
Qed.

(** ** The command loop *)

Lemma printed_app (tr1 tr2 : list Step') :
  printed (tr1 ++ tr2) = printed tr1 ++ printed tr2.
Proof.
  induction tr1 as [| [X e x] tr1 IH]; simpl; [reflexivity |].
  destruct e; simpl; rewrite IH; reflexivity.
Qed.

Lemma fsCalls_app (tr1 tr2 : list Step') :
  fsCalls (tr1 ++ tr2) = fsCalls tr1 ++ fsCalls tr2.
Proof.
  induction tr1 as [| [X e x] tr1 IH]; simpl; [reflexivity |].
  destruct e; simpl; rewrite IH; reflexivity.
Qed.

Lemma closed_app (tr1 tr2 : list Step') :
  closed (tr1 ++ tr2) = closed tr1 ++ closed tr2.
Proof.
  induction tr1 as [| [X e x] tr1 IH]; simpl; [reflexivity |].
  destruct e; simpl; rewrite IH; reflexivity.
Qed.

Section ReplFacts.
Context `{Runtime}.
Variable fs : FileServer.

Lemma commandLoop_cons (line : string) (rest : list string) (deferred : list File)
    (rho : Env) (n : nat) :
trace rho n (commandLoop fs (line :: rest) deferred) =
  Step (Print ">>> ") (rho n _ (Print ">>> "))
  :: trace rho (S n) (loopBody fs line deferred)
  ++ afterBody fs rho (S n + length (trace rho (S n) (loopBody fs line deferred))) rest
       (result rho (S n) (loopBody fs line deferred)).
Proof.
change (commandLoop fs (line :: rest) deferred)
  with (Vis (Print ">>> ") (fun _ =>
          r <- loopBody fs line deferred ;;
          match r with
          | (Continue, deferred') => commandLoop fs rest deferred'
          | (Leave (Exits code), _) => Ret (Exits code)
          | (Leave o, deferred') => runDeferred deferred' ;;; Ret o
          end)).
rewrite trace_vis, trace_bind. f_equal. f_equal. unfold afterBody.
destruct (result rho (S n) (loopBody fs line deferred)) as [[| [a | code |]] d'];
  try reflexivity; rewrite trace_bind; apply app_nil_r.
Qed.

Lemma commandLoop_cons_result (line : string) (rest : list string)
    (deferred : list File) (rho : Env) (n : nat) :
result rho n (commandLoop fs (line :: rest) deferred) =
  match result rho (S n) (loopBody fs line deferred) with
  | (Continue, deferred') =>
      result rho (S n + length (trace rho (S n) (loopBody fs line deferred)))
        (commandLoop fs rest deferred')
  | (Leave o, _) => o
  end.
Proof.
change (commandLoop fs (line :: rest) deferred)
  with (Vis (Print ">>> ") (fun _ =>
          r <- loopBody fs line deferred ;;
          match r with
          | (Continue, deferred') => commandLoop fs rest deferred'
          | (Leave (Exits code), _) => Ret (Exits code)
          | (Leave o, deferred') => runDeferred deferred' ;;; Ret o
          end)).
rewrite result_vis, result_bind.
destruct (result rho (S n) (loopBody fs line deferred)) as [[| [a | code |]] d'];
  try reflexivity; rewrite result_bind; reflexivity.
Qed.

Lemma runDeferred_closes (deferred : list File) (rho : Env) (n : nat) :
  closed (trace rho n (runDeferred deferred)) = deferred /\
  printed (trace rho n (runDeferred deferred)) = [] /\
  fsCalls (trace rho n (runDeferred deferred)) = [] /\
  fatals (trace rho n (runDeferred deferred)) = [].
Proof.
  revert n. induction deferred as [| f rest IH]; intros n; [repeat split |].
  destruct (IH (S n)) as (Hc & Hp & Hf & Hx).
  change (runDeferred (f :: rest)) with (Vis (FileClose f) (fun _ => runDeferred rest)).
  rewrite trace_vis. cbn [closed printed fsCalls fatals].
  rewrite Hc, Hp, Hf, Hx. repeat split.
Qed.
End ReplFacts.

Section ReplClaims.
Context `{Runtime}.
Variable fs : FileServer.

Lemma loopBody_empty (line : string) (deferred : list File) :
  Fields line = [] -> loopBody fs line deferred = Ret (Continue, deferred).
Proof. intros HF. unfold loopBody. rewrite HF. reflexivity. Qed.

(** The switch, on the lower-cased first word. *)
Lemma loopBody_switch (line a0 : string) (rest : list string) (deferred : list File) :
  Fields line = a0 :: rest ->
  (ToLower a0 = "store" -> loopBody fs line deferred = caseStore fs (a0 :: rest) deferred) /\
  (ToLower a0 = "get" -> loopBody fs line deferred = caseGet fs (a0 :: rest) deferred) /\
  (ToLower a0 = "delete" -> loopBody fs line deferred = caseDelete fs (a0 :: rest) deferred) /\
  (ToLower a0 = "deletelocal" ->
   loopBody fs line deferred = caseDeleteLocal fs (a0 :: rest) deferred) /\
  (ToLower a0 = "deleteremote" ->
   loopBody fs line deferred = caseDeleteRemote fs (a0 :: rest) deferred) /\
  (ToLower a0 = "help" -> loopBody fs line deferred = caseHelp (a0 :: rest) deferred) /\
  (ToLower a0 = "quit" -> loopBody fs line deferred = caseQuit deferred) /\
  (ToLower a0 ∉ commandNames -> loopBody fs line deferred = caseDefault deferred).
Proof.
  intros HF. unfold loopBody. rewrite HF. cbn [length Nat.eqb arg nth].
  repeat split; intros Hcmd; try (rewrite Hcmd; reflexivity).
  unfold commandNames in Hcmd.
  repeat (apply not_elem_of_cons in Hcmd as [?%String.eqb_neq Hcmd]).
  repeat match goal with Hne : String.eqb _ _ = false |- _ => rewrite Hne; clear Hne end.
  reflexivity.
Qed.

Lemma caseDefault_run (deferred : list File) (rho : Env) (n : nat) :
  printed (trace rho n (caseDefault deferred)) =
    [Sprintln ["Unknown command. Supported: store, get, delete, deletelocal, quit"]] /\
  fsCalls (trace rho n (caseDefault deferred)) = [] /\
  opened (trace rho n (caseDefault deferred)) = [] /\
  result rho n (caseDefault deferred) = (Continue, deferred).
Proof. repeat split. Qed.

Lemma caseQuit_run (deferred : list File) (rho : Env) (n : nat) :
  printed (trace rho n (caseQuit deferred)) = [Sprintln ["Exiting..."]] /\
  fsCalls (trace rho n (caseQuit deferred)) = [] /\
  opened (trace rho n (caseQuit deferred)) = [] /\
  length (trace rho n (caseQuit deferred)) = 1%nat /\
  result rho n (caseQuit deferred) = (Leave (Returns tt), deferred).
Proof. repeat split. Qed.

(** A case that checks the number of words and finds another one: the usage
    line, nothing else besides the echo of [store], and on to the next line. *)
Lemma usage_run (cmd : string) (args : list string) (deferred : list File)
      (rho : Env) (n : nat) (words : nat) (usage : string) (body : Prog (control * list File)) :
  usageOf cmd = Some (words, usage) ->
  length args <> words ->
  body = (if String.eqb cmd "store" then caseStore fs args deferred
          else if String.eqb cmd "get" then caseGet fs args deferred
          else if String.eqb cmd "delete" then caseDelete fs args deferred
          else if String.eqb cmd "deletelocal" then caseDeleteLocal fs args deferred
          else if String.eqb cmd "deleteremote" then caseDeleteRemote fs args deferred
          else if String.eqb cmd "help" then caseHelp args deferred
          else if String.eqb cmd "quit" then caseQuit deferred
          else caseDefault deferred) ->
  printed (trace rho n body) =
    (if String.eqb cmd "store" then [SprintlnSlice args] else []) ++ [Sprintln [usage]] /\
  fsCalls (trace rho n body) = [] /\
  opened (trace rho n body) = [] /\
  length (trace rho n body) = length (printed (trace rho n body)) /\
  result rho n body = (Continue, deferred).
Proof.
  intros Husage Hlen ->. unfold usageOf in Husage.
  repeat match type of Husage with
  | (if String.eqb cmd ?c then _ else _) = _ =>
      destruct (String.eqb cmd c) eqn:?;
      [ injection Husage as <- <-;
        apply Nat.eqb_neq in Hlen;
        unfold caseStore, caseGet, caseDelete, caseDeleteLocal, caseDeleteRemote, caseHelp;
        rewrite Hlen; repeat split
      | ]
  end.
  discriminate Husage.
Qed.
Lemma caseStore_run (c path : string) (deferred : list File) (rho : Env) (n : nat) :
  opened (trace rho n (caseStore fs [c; path] deferred)) = [path] /\
  (forall f : File,
      rho (S n) _ (OsOpen path) = inl f ->
      fsCalls (trace rho n (caseStore fs [c; path] deferred)) =
        [CallStore fs (Base path) f] /\
      result rho n (caseStore fs [c; path] deferred) = (Continue, f :: deferred)) /\
  (forall err : error,
      rho (S n) _ (OsOpen path) = inr err ->
      fsCalls (trace rho n (caseStore fs [c; path] deferred)) = [] /\
      result rho n (caseStore fs [c; path] deferred) = (Continue, deferred)).
Proof.
  unfold caseStore, trace, result. cbn [length Nat.eqb negb arg nth]. simpl.
  destruct (rho (S n) _ (OsOpen path)) as [f | err] eqn:Hopen; simpl.
  - destruct (rho (S (S n)) _ (FsStore fs (Base path) f)); simpl;
      (split; [reflexivity |]); split; intros ? Heq; inversion Heq; subst;
      split; reflexivity.
  - (split; [reflexivity |]); split; intros ? Heq; inversion Heq; subst;
      split; reflexivity.
Qed.

Lemma caseGet_run (c name : string) (deferred : list File) (rho : Env) (n : nat) :
  getExtension name = EmptyString ->
  fsCalls (trace rho n (caseGet fs [c; name] deferred)) = [CallGet fs name] /\
  readAlls (trace rho n (caseGet fs [c; name] deferred)) =
    [(rho n _ (FsGet fs name)).1.1] /\
  head (printed (trace rho n (caseGet fs [c; name] deferred))) =
    Some (match (rho n _ (FsGet fs name)).2 with
          | Some e => Sprintln ["Error getting file:"; e]
          | None => Sprintln ["File stored at:"; (rho n _ (FsGet fs name)).1.2]
          end) /\
  (forall (data : string) (e : error),
      rho (S (S n)) _ (IoReadAll (rho n _ (FsGet fs name)).1.1) = Some (data, Some e) ->
      fatals (trace rho n (caseGet fs [c; name] deferred)) = ["Error reading data " +:+ e] /\
      length (trace rho n (caseGet fs [c; name] deferred)) = 4%nat /\
      result rho n (caseGet fs [c; name] deferred) = (Leave (Exits 1), deferred)).
Proof.
  intros Hext. unfold caseGet. cbn [length Nat.eqb negb arg nth].
  rewrite Hext. cbn [String.length Nat.eqb].
  unfold trace, result. simpl.
  destruct (rho n _ (FsGet fs name)) as [[rd fileLoc] err]. cbn [fst snd].
  destruct err as [e0 |]; simpl.
  - destruct (rho (S (S n)) _ (IoReadAll rd)) as [[data [e |]] |] eqn:Hread; simpl;
      (split; [reflexivity |]); (split; [reflexivity |]); (split; [reflexivity |]);
      intros data' e' Heq; inversion Heq; subst; repeat split.
  - destruct (rho (S (S n)) _ (IoReadAll rd)) as [[data [e |]] |] eqn:Hread; simpl;
      (split; [reflexivity |]); (split; [reflexivity |]); (split; [reflexivity |]);
      intros data' e' Heq; inversion Heq; subst; repeat split.
Qed.



Lemma caseDeleteRemote_run (c name peers : string) (deferred : list File)
      (rho : Env) (n : nat) :
  fsCalls (trace rho n (caseDeleteRemote fs [c; name; peers] deferred)) =
    [CallDeleteRemote fs name (Split peers ",")] /\
  result rho n (caseDeleteRemote fs [c; name; peers] deferred) = (Continue, deferred).
Proof.
  unfold caseDeleteRemote, trace, result. cbn [length Nat.eqb negb arg nth].
  cbn [bind call run].
  destruct (rho n _ (FsDeleteRemote fs name (Split peers ","))); split; reflexivity.
Qed.

End ReplClaims.


Section ReplTraces.
Context `{Runtime}.
Variable fs : FileServer.






End ReplTraces.

Section ReplTheorems.
Context `{Runtime}.
Variable fs : FileServer.


End ReplTheorems.

Section ReplKeys.
Context `{Runtime}.
Variable fs : FileServer.

(** C8. For every [store <path>] command that opens the file, the logical
    key passed to [Store] is the base name of the path; so two paths with the
    same base name are stored under the same key, hence under the same
    fingerprint, whatever function of the key the fingerprint is. *)
Theorem store_key_is_base_name
  (fingerprint : string -> string)
  (line1 line2 c1 c2 path1 path2 : string) (d1 d2 : list File)
  (rho1 rho2 : Env) (n1 n2 : nat) (f1 f2 : File) :
  Fields line1 = [c1; path1] -> ToLower c1 = "store" ->
  Fields line2 = [c2; path2] -> ToLower c2 = "store" ->
  rho1 (S n1) _ (OsOpen path1) = inl f1 ->
  rho2 (S n2) _ (OsOpen path2) = inl f2 ->
  Base path1 = Base path2 ->
  fsCalls (trace rho1 n1 (loopBody fs line1 d1)) = [CallStore fs (Base path1) f1] /\
  fsCalls (trace rho2 n2 (loopBody fs line2 d2)) = [CallStore fs (Base path2) f2] /\
  storeKeys (fsCalls (trace rho1 n1 (loopBody fs line1 d1))) =
    storeKeys (fsCalls (trace rho2 n2 (loopBody fs line2 d2))) /\
  fingerprint <$> storeKeys (fsCalls (trace rho1 n1 (loopBody fs line1 d1))) =
    fingerprint <$> storeKeys (fsCalls (trace rho2 n2 (loopBody fs line2 d2))).
Proof.
  intros HF1 HL1 HF2 HL2 Ho1 Ho2 Hbase.
  destruct (loopBody_switch fs line1 c1 [path1] d1 HF1) as (Hs1 & _).
  destruct (loopBody_switch fs line2 c2 [path2] d2 HF2) as (Hs2 & _).
  rewrite (Hs1 HL1), (Hs2 HL2).
  destruct (caseStore_run fs c1 path1 d1 rho1 n1) as (_ & Hok1 & _).
  destruct (caseStore_run fs c2 path2 d2 rho2 n2) as (_ & Hok2 & _).
  destruct (Hok1 f1 Ho1) as [-> _]. destruct (Hok2 f2 Ho2) as [-> _].
  cbn [storeKeys]. rewrite Hbase. repeat split.
Qed.

(** C9. For every [get <name>] command whose name has no extension, the
    loop hands the reader that [Get] returned to [io.ReadAll] whether or not
    [Get] reported an error (after an error the error line is printed and
    the read follows all the same); when the read fails the process ends
    through [log.Fatal]: the message, exit status 1, no further prompt and
    no deferred close. *)
Theorem get_reads_whatever_get_returned
  (line c name : string) (rest : list string) (deferred : list File)
  (rho : Env) (n : nat) :
  Fields line = [c; name] -> ToLower c = "get" ->
  getExtension name = EmptyString ->
  fsCalls (trace rho (S n) (loopBody fs line deferred)) = [CallGet fs name] /\
  readAlls (trace rho (S n) (loopBody fs line deferred)) =
    [(rho (S n) _ (FsGet fs name)).1.1] /\
  (forall e : error,
      (rho (S n) _ (FsGet fs name)).2 = Some e ->
      head (printed (trace rho (S n) (loopBody fs line deferred))) =
        Some (Sprintln ["Error getting file:"; e])) /\
  (forall (data : string) (e : error),
      rho (S (S (S n))) _ (IoReadAll (rho (S n) _ (FsGet fs name)).1.1) =
        Some (data, Some e) ->
      fatals (trace rho (S n) (loopBody fs line deferred)) = ["Error reading data " +:+ e] /\
      result rho (S n) (loopBody fs line deferred) = (Leave (Exits 1), deferred) /\
      result rho n (commandLoop fs (line :: rest) deferred) = Exits 1 /\
      exitCode (result rho n (commandLoop fs (line :: rest) deferred)) = 1 /\
      length (trace rho n (commandLoop fs (line :: rest) deferred)) = 5%nat).
Proof.
  intros HF HL Hext.
  destruct (loopBody_switch fs line c [name] deferred HF) as (_ & Hget & _).
  rewrite commandLoop_cons, commandLoop_cons_result, (Hget HL).
  destruct (caseGet_run fs c name deferred rho (S n) Hext)
    as (Hcalls & Hreads & Hprint & Hfatal).
  split; [exact Hcalls |]. split; [exact Hreads |].
  split.
  { intros e He. rewrite Hprint, He. reflexivity. }
  intros data e Hread. destruct (Hfatal data e Hread) as (Hf & Hlen & Hres).
  split; [exact Hf |]. split; [exact Hres |].
  rewrite Hres. split; [reflexivity |]. split; [reflexivity |].
  cbn [afterBody length]. rewrite length_app, Hlen. reflexivity.
Qed.
End ReplKeys.

Lemma usageOf_isUsage (cmd usage : string) (words : nat) :
  usageOf cmd = Some (words, usage) -> isUsage (Sprintln [usage]) = true.
Proof.
  unfold usageOf. intros Husage.
  repeat match type of Husage with
  | (if String.eqb cmd ?c then _ else _) = _ =>
      destruct (String.eqb cmd c); [injection Husage as <- <-; reflexivity |]
  end.
  discriminate Husage.
Qed.

Lemma usageOf_commands (cmd : string) :
  cmd ∈ commandNames ->
  cmd <> "quit" ->
  exists usage, usageOf cmd = Some (specWords cmd, usage).
Proof.
  unfold commandNames. intros Hin Hquit.
  repeat (apply elem_of_cons in Hin as [-> | Hin];
    [first [eexists; reflexivity | exfalso; apply Hquit; reflexivity] |]).
  apply elem_of_nil in Hin. destruct Hin.
Qed.

Section ReplUsage.
Context `{Runtime}.
Variable fs : FileServer.

(** C10, as the code has it. Each of [store], [get], [delete],
    [deletelocal], [deleteremote] and [help], given another number of words
    than its case asks for, prints its usage line (after the echo of the
    words, for [store]), calls no operation of the file server, opens no
    file, and the loop goes on to the next prompt; the numbers asked for are
    those of the grammar. [quit] checks nothing: whatever follows it, it
    prints its farewell and leaves the loop, again without any call to the
    file server. *)
Theorem wrong_word_count_changes_nothing :
  (forall (line a0 : string) (rest more : list string) (deferred : list File)
          (rho : Env) (n : nat) (words : nat) (usage : string),
      Fields line = a0 :: rest ->
      usageOf (ToLower a0) = Some (words, usage) ->
      length (a0 :: rest) <> words ->
      printed (trace rho (S n) (loopBody fs line deferred)) =
        (if String.eqb (ToLower a0) "store" then [SprintlnSlice (a0 :: rest)] else [])
        ++ [Sprintln [usage]] /\
      isUsage (Sprintln [usage]) = true /\
      fsCalls (trace rho (S n) (loopBody fs line deferred)) = [] /\
      opened (trace rho (S n) (loopBody fs line deferred)) = [] /\
      length (trace rho (S n) (loopBody fs line deferred)) =
        length (printed (trace rho (S n) (loopBody fs line deferred))) /\
      result rho (S n) (loopBody fs line deferred) = (Continue, deferred) /\
      trace rho n (commandLoop fs (line :: more) deferred) =
        Step (Print ">>> ") (rho n _ (Print ">>> "))
        :: trace rho (S n) (loopBody fs line deferred)
        ++ trace rho (S n + length (trace rho (S n) (loopBody fs line deferred)))
             (commandLoop fs more deferred)) /\
  (forall cmd : string,
      cmd ∈ commandNames -> cmd <> "quit" ->
      exists usage, usageOf cmd = Some (specWords cmd, usage)) /\
  usageOf "quit" = None /\
  (forall (line a0 : string) (rest : list string) (deferred : list File)
          (rho : Env) (n : nat),
      Fields line = a0 :: rest ->
      ToLower a0 = "quit" ->
      printed (trace rho n (loopBody fs line deferred)) = [Sprintln ["Exiting..."]] /\
      fsCalls (trace rho n (loopBody fs line deferred)) = [] /\
      opened (trace rho n (loopBody fs line deferred)) = [] /\
      result rho n (loopBody fs line deferred) = (Leave (Returns tt), deferred)).
Proof.
  split.
  { intros line a0 rest more deferred rho n words usage HF Husage Hlen.
    assert (Hbody : loopBody fs line deferred =
      (if String.eqb (ToLower a0) "store" then caseStore fs (a0 :: rest) deferred
       else if String.eqb (ToLower a0) "get" then caseGet fs (a0 :: rest) deferred
       else if String.eqb (ToLower a0) "delete" then caseDelete fs (a0 :: rest) deferred
       else if String.eqb (ToLower a0) "deletelocal"
            then caseDeleteLocal fs (a0 :: rest) deferred
       else if String.eqb (ToLower a0) "deleteremote"
            then caseDeleteRemote fs (a0 :: rest) deferred
       else if String.eqb (ToLower a0) "help" then caseHelp (a0 :: rest) deferred
       else if String.eqb (ToLower a0) "quit" then caseQuit deferred
       else caseDefault deferred)).
    { unfold loopBody. rewrite HF. reflexivity. }
    destruct (usage_run fs (ToLower a0) (a0 :: rest) deferred rho (S n) words usage
                (loopBody fs line deferred) Husage Hlen Hbody)
      as (Hprint & Hcalls & Hopen & Hsteps & Hres).
    split; [exact Hprint |].
    split; [exact (usageOf_isUsage _ _ _ Husage) |].
    split; [exact Hcalls |]. split; [exact Hopen |]. split; [exact Hsteps |].
    split; [exact Hres |].
    rewrite commandLoop_cons, Hres. reflexivity. }
  split; [exact usageOf_commands |].
  split; [reflexivity |].
  intros line a0 rest deferred rho n HF Hcmd.
  destruct (loopBody_switch fs line a0 rest deferred HF) as (_ & _ & _ & _ & _ & _ & Hquit & _).
  rewrite (Hquit Hcmd). repeat split.
Qed.
End ReplUsage.

(** ** The command loop on sample lines *)

(** [quit] followed by a word is a command of the interface with another
    number of words than the grammar gives it; no usage line is printed and
    the loop does not go on to the next prompt. *)
Lemma quit_with_words_prints_no_usage :
  ToLower (Runtime := Posix.runtime) (arg (Fields (Runtime := Posix.runtime) "quit now") 0)
    ∈ commandNames /\
  length (Fields (Runtime := Posix.runtime) "quit now") <> specWords "quit" /\
  forall (deferred : list File) (rho : Env) (n : nat),
    existsb isUsage
      (printed (trace rho n (loopBody (H := Posix.runtime) 0%nat "quit now" deferred))) = false /\
    result rho n (loopBody (H := Posix.runtime) 0%nat "quit now" deferred) <>
      (Continue, deferred).
Proof.
  split; [apply (bool_decide_unpack _); reflexivity |].
  split; [discriminate |].
  intros deferred rho n. split; [reflexivity | discriminate].
Qed.

Lemma wrong_word_count_changes_nothing_witness :
  Fields (Runtime := Posix.runtime) "delete" = ["delete"] /\
  usageOf (ToLower (Runtime := Posix.runtime) "delete") =
    Some (2%nat, "Usage: delete <filename>") /\
  length ["delete"] <> 2%nat /\
  printed (trace Posix.quiet 1 (loopBody (H := Posix.runtime) 0%nat "delete" [])) =
    [Sprintln ["Usage: delete <filename>"]] /\
  fsCalls (trace Posix.quiet 1 (loopBody (H := Posix.runtime) 0%nat "delete" [])) = [] /\
  result Posix.quiet 1 (loopBody (H := Posix.runtime) 0%nat "delete" []) = (Continue, []).
Proof.
  split; [reflexivity |]. split; [reflexivity |]. split; [discriminate |].
  destruct (wrong_word_count_changes_nothing (H := Posix.runtime) 0%nat) as (Husage & _).
  destruct (Husage "delete" "delete" [] [] [] Posix.quiet O 2%nat "Usage: delete <filename>"
              eq_refl eq_refl ltac:(discriminate))
    as (Hprint & _ & Hcalls & _ & _ & Hres & _).
  split; [exact Hprint |]. split; [exact Hcalls | exact Hres].
Defined.

Lemma store_key_is_base_name_witness :
  Fields (Runtime := Posix.runtime) "store a/x.txt" = ["store"; "a/x.txt"] /\
  Fields (Runtime := Posix.runtime) "Store  b/x.txt" = ["Store"; "b/x.txt"] /\
  Base (Runtime := Posix.runtime) "a/x.txt" = Base (Runtime := Posix.runtime) "b/x.txt" /\
  fsCalls (trace Posix.quiet 0 (loopBody (H := Posix.runtime) 0%nat "store a/x.txt" [])) =
    [CallStore 0%nat "x.txt" 3%nat] /\
  fsCalls (trace Posix.quiet 0 (loopBody (H := Posix.runtime) 0%nat "Store  b/x.txt" [])) =
    [CallStore 0%nat "x.txt" 3%nat].
Proof.
  split; [reflexivity |]. split; [reflexivity |]. split; [reflexivity |].
  destruct (store_key_is_base_name (H := Posix.runtime) 0%nat (fun key => key)
              "store a/x.txt" "Store  b/x.txt" "store" "Store" "a/x.txt" "b/x.txt"
              [] [] Posix.quiet Posix.quiet O O 3%nat 3%nat
              eq_refl eq_refl eq_refl eq_refl eq_refl eq_refl eq_refl)
    as (H1 & H2 & _).
  split; [exact H1 | exact H2].
Defined.

Lemma get_reads_whatever_get_returned_witness :
  Fields (Runtime := Posix.runtime) "get notes" = ["get"; "notes"] /\
  getExtension (Runtime := Posix.runtime) "notes" = EmptyString /\
  Posix.failing 1%nat _ (FsGet 0%nat "notes") = (NilReader, EmptyString, Some "file not found") /\
  readAlls (trace Posix.failing 1 (loopBody (H := Posix.runtime) 0%nat "get notes" [])) =
    [NilReader] /\
  fatals (trace Posix.failing 1 (loopBody (H := Posix.runtime) 0%nat "get notes" [])) =
    ["Error reading data unexpected EOF"] /\
  result Posix.failing 0 (commandLoop (H := Posix.runtime) 0%nat ["get notes"; "quit"] []) =
    Exits 1.
Proof.
  split; [reflexivity |]. split; [reflexivity |]. split; [reflexivity |].
  destruct (get_reads_whatever_get_returned (H := Posix.runtime) 0%nat
              "get notes" "get" "notes" ["quit"] [] Posix.failing O
              eq_refl eq_refl eq_refl)
    as (_ & Hreads & _ & Hfatal).
  destruct (Hfatal EmptyString "unexpected EOF" eq_refl) as (Hf & _ & Hexit & _ & _).
  split; [exact Hreads |]. split; [exact Hf | exact Hexit].
Defined.

Example session :
  let run := run Posix.quiet 0
               (runCommandLoop (H := Posix.runtime) 0%nat
                  ["help quit"; ""; "frobnicate"; "get"; "QUIT"; "delete x"]) in
  printed run.1 =
    [">>> "; Sprintln ["quit" +:+ newline +:+ " It quits the program."];
     ">>> ";
     ">>> "; Sprintln ["Unknown command. Supported: store, get, delete, deletelocal, quit"];
     ">>> "; Sprintln ["Usage: get <filename>"];
     ">>> "; Sprintln ["Exiting..."]] /\
  fsCalls run.1 = [] /\
  run.2 = Returns tt.
Proof. repeat split. Qed.

(** ** loadConfig *)

Section ConfigClaims.
Context `{Runtime}.

Lemma unmarshalElems_strings (l : list string) :
  forall backing : list string, unmarshalElems (JString <$> l) backing = inl l.
Proof.
  induction l as [| s l IH]; intros backing; [reflexivity |].
  change (JString <$> s :: l) with (JString s :: (JString <$> l)).
  cbn [unmarshalElems unmarshalString]. rewrite IH. reflexivity.
Qed.

Lemma unmarshalElems_decides (elems : list json) :
  forall backing : list string,
    if forallb isStringOrNull elems
    then exists l, unmarshalElems elems backing = inl l /\ length l = length elems
    else exists err, unmarshalElems elems backing = inr err.
Proof.
  induction elems as [| v rest IH]; intros backing; [exists []; split; reflexivity |].
  cbn [forallb unmarshalElems]. specialize (IH (tl backing)).
  destruct v; cbn [isStringOrNull andb unmarshalString]; try (eexists; reflexivity);
    destruct (forallb isStringOrNull rest);
    try (destruct IH as (l & -> & Hlen); eexists; split; [reflexivity |];
         cbn [length]; rewrite Hlen; reflexivity);
    destruct IH as (err & ->); eexists; reflexivity.
Qed.

Lemma unmarshalElems_fresh (elems : list json) (l : list string) :
  unmarshalElems elems [] = inl l -> l = textOf <$> elems.
Proof.
  revert l. induction elems as [| v rest IH]; intros l Hrun.
  - injection Hrun as <-. reflexivity.
  - cbn [unmarshalElems hd tl] in Hrun.
    destruct (unmarshalString "peers" v EmptyString) as [s | e] eqn:Hv; [| discriminate Hrun].
    destruct (unmarshalElems rest []) as [l' | e] eqn:Hrest; [| discriminate Hrun].
    injection Hrun as <-. rewrite fmap_cons, <- (IH l' eq_refl). f_equal.
    destruct v; try discriminate Hv; injection Hv as <-; reflexivity.
Qed.

Lemma unmarshalStrings_decides (v : json) (backing : list string) :
  if isPeers v
  then exists l spare, unmarshalStrings v backing = inl (l, spare)
  else exists err, unmarshalStrings v backing = inr err.
Proof.
  destruct v as [| b | literal | s | elems | members]; cbn [isPeers unmarshalStrings];
    try (eexists; reflexivity); try (eexists; eexists; reflexivity).
  destruct elems as [| v rest]; [eexists; eexists; reflexivity |].
  pose proof (unmarshalElems_decides (v :: rest) backing) as Helems.
  destruct (forallb isStringOrNull (v :: rest)).
  - destruct Helems as (l & -> & _). eexists. eexists. reflexivity.
  - destruct Helems as (err & ->). eexists. reflexivity.
Qed.

Lemma unmarshalMembers_decides (members : list (string * json)) :
  forall (cfg : ServerConfig) (spare : list string),
    if forallb isMember members
    then exists c, unmarshalMembers members cfg spare = inl c
    else exists err, unmarshalMembers members cfg spare = inr err.
Proof.
  induction members as [| [key v] rest IH]; intros cfg spare; [exists cfg; reflexivity |].
  cbn [forallb unmarshalMembers]. unfold isMember at 1. cbn [fst snd].
  destruct (fieldOf key) as [[|] |].
  - destruct v; cbn [isStringOrNull andb unmarshalString];
      try (eexists; reflexivity); apply IH.
  - pose proof (unmarshalStrings_decides v (ServerConfig.BootstrapNodes cfg ++ spare)) as Hv.
    destruct (isPeers v); cbn [andb].
    + destruct Hv as (l & spare' & ->). apply IH.
    + destruct Hv as (err & ->). eexists. reflexivity.
  - cbn [andb]. apply IH.
Qed.

Lemma unmarshalServerConfig_decides (v : json) :
  if isEntry v
  then exists c, unmarshalServerConfig v = inl c
  else exists err, unmarshalServerConfig v = inr err.
Proof.
  destruct v as [| b | literal | s | elems | members]; cbn [isEntry unmarshalServerConfig];
    try (eexists; reflexivity).
  apply unmarshalMembers_decides.
Qed.

Lemma unmarshalConfigs_decides (elems : list json) :
  if forallb isEntry elems
  then exists cfgs, unmarshalConfigs elems = inl cfgs
  else exists err, unmarshalConfigs elems = inr err.
Proof.
  induction elems as [| v rest IH]; [exists []; reflexivity |].
  cbn [forallb unmarshalConfigs].
  pose proof (unmarshalServerConfig_decides v) as Hv.
  destruct (isEntry v); cbn [andb].
  - destruct Hv as (c & ->). destruct (forallb isEntry rest).
    + destruct IH as (cfgs & ->). eexists. reflexivity.
    + destruct IH as (err & ->). eexists. reflexivity.
  - destruct Hv as (err & ->). eexists. reflexivity.
Qed.

Lemma unmarshal_decides (v : json) :
  if isConfiguration v
  then exists cfgs, unmarshal v = inl cfgs
  else exists err, unmarshal v = inr err.
Proof.
  destruct v as [| b | literal | s | elems | members]; cbn [isConfiguration unmarshal];
    try (eexists; reflexivity).
  apply unmarshalConfigs_decides.
Qed.

Lemma unmarshalServerConfig_object (port : string) (peers : list string) :
  unmarshalServerConfig (configObject port peers) =
  inl {| ServerConfig.Port := port; ServerConfig.BootstrapNodes := peers |}.
Proof.
  pose proof (unmarshalElems_strings peers []) as Hpeers.
  unfold configObject, unmarshalServerConfig. cbn [unmarshalMembers].
  unfold fieldOf. cbn [String.eqb Ascii.eqb Bool.eqb andb].
  cbn [unmarshalString unmarshalStrings zeroServerConfig ServerConfig.BootstrapNodes app].
  destruct peers as [| p peers]; [reflexivity |].
  change (JString <$> p :: peers) with (JString p :: (JString <$> peers)) in *.
  rewrite Hpeers. reflexivity.
Qed.

Lemma unmarshalConfigs_each (elems : list json) (cfgs : list ServerConfig) :
  unmarshalConfigs elems = inl cfgs ->
  Forall2 (fun v c => unmarshalServerConfig v = inl c) elems cfgs.
Proof.
  revert cfgs. induction elems as [| v rest IH]; intros cfgs Hdec; simpl in Hdec.
  - injection Hdec as <-. constructor.
  - destruct (unmarshalServerConfig v) as [c | e] eqn:Hv; [| discriminate Hdec].
    destruct (unmarshalConfigs rest) as [l | e] eqn:Hrest; [| discriminate Hdec].
    injection Hdec as <-. constructor; [exact Hv | apply IH; reflexivity].
Qed.

Lemma unmarshalConfigs_objects (entries : list (string * list string)) :
  unmarshalConfigs ((fun e => configObject e.1 e.2) <$> entries) =
  inl ((fun e => {| ServerConfig.Port := e.1; ServerConfig.BootstrapNodes := e.2 |})
         <$> entries).
Proof.
  induction entries as [| [port peers] rest IH]; [reflexivity |].
  change (unmarshalConfigs ((fun e => configObject e.1 e.2) <$> (port, peers) :: rest))
    with (match unmarshalServerConfig (configObject port peers) with
          | inr e => inr e
          | inl c =>
              match unmarshalConfigs ((fun e => configObject e.1 e.2) <$> rest) with
              | inr e => inr e
              | inl l => inl (c :: l)
              end
          end).
  rewrite unmarshalServerConfig_object, IH. reflexivity.
Qed.

(** *** The keys of an entry *)

(** The key [port] or [peers] itself selects its field; any other key
    selects the field whose name it equals when case is ignored, [port]
    before [peers]. *)
Lemma fieldOf_keys (key : string) :
  (fieldOf key = Some FPort <->
   key = "port" \/ key <> "peers" /\ EqualFold key "port" = true) /\
  (fieldOf key = Some FBootstrapNodes <->
   key = "peers" \/
   key <> "port" /\ EqualFold key "port" = false /\ EqualFold key "peers" = true).
Proof.
  unfold fieldOf.
  destruct (String.eqb key "port") eqn:Hport.
  { apply String.eqb_eq in Hport. subst key. split; split.
    - intros _. left. reflexivity.
    - reflexivity.
    - discriminate.
    - intros [Heq | [Hne _]]; [discriminate Heq | destruct Hne; reflexivity]. }
  apply String.eqb_neq in Hport.
  destruct (String.eqb key "peers") eqn:Hpeers.
  { apply String.eqb_eq in Hpeers. subst key. split; split.
    - discriminate.
    - intros [Heq | [Hne _]]; [discriminate Heq | destruct Hne; reflexivity].
    - intros _. left. reflexivity.
    - reflexivity. }
  apply String.eqb_neq in Hpeers.
  destruct (EqualFold key "port") eqn:Hfp.
  { split; split.
    - intros _. right. split; [exact Hpeers | reflexivity].
    - reflexivity.
    - discriminate.
    - intros [Heq | (_ & Hfalse & _)]; [contradiction | discriminate Hfalse]. }
  destruct (EqualFold key "peers") eqn:Hfq.
  { split; split.
    - discriminate.
    - intros [Heq | [_ Htrue]]; [contradiction | discriminate Htrue].
    - intros _. right. repeat split; assumption.
    - reflexivity. }
  split; split.
  - discriminate.
  - intros [Heq | [_ Htrue]]; [contradiction | discriminate Htrue].
  - discriminate.
  - intros [Heq | (_ & _ & Htrue)]; [contradiction | discriminate Htrue].
Qed.

Lemma unmarshalMembers_skips (members : list (string * json)) :
  forall (cfg : ServerConfig) (spare : list string),
    unmarshalMembers members cfg spare =
    unmarshalMembers (List.filter knownKey members) cfg spare.
Proof.
  induction members as [| [key v] rest IH]; intros cfg spare; [reflexivity |].
  cbn [List.filter]. unfold knownKey at 1. cbn [fst unmarshalMembers].
  destruct (fieldOf key) as [[|] |] eqn:Hkey; cbn [unmarshalMembers]; rewrite ?Hkey.
  - destruct (unmarshalString "port" v (ServerConfig.Port cfg)); [apply IH | reflexivity].
  - destruct (unmarshalStrings v (ServerConfig.BootstrapNodes cfg ++ spare)) as [[l sp] | e];
      [apply IH | reflexivity].
  - apply IH.
Qed.

Lemma unmarshalMembers_keeps (members : list (string * json)) :
  forall (cfg c : ServerConfig) (spare : list string),
    unmarshalMembers members cfg spare = inl c ->
    (existsb (selects FPort) members = false ->
     ServerConfig.Port c = ServerConfig.Port cfg) /\
    (existsb (selects FBootstrapNodes) members = false ->
     ServerConfig.BootstrapNodes c = ServerConfig.BootstrapNodes cfg).
Proof.
  induction members as [| [key v] rest IH]; intros cfg c spare Hrun.
  - injection Hrun as <-. split; reflexivity.
  - cbn [unmarshalMembers existsb] in *. unfold selects at 1 3. cbn [fst].
    destruct (fieldOf key) as [[|] |].
    + destruct (unmarshalString "port" v (ServerConfig.Port cfg)) as [p | e];
        [| discriminate Hrun].
      destruct (IH _ c _ Hrun) as [_ Hpeers].
      split; [discriminate | exact Hpeers].
    + destruct (unmarshalStrings v (ServerConfig.BootstrapNodes cfg ++ spare))
        as [[l sp] | e]; [| discriminate Hrun].
      destruct (IH _ c _ Hrun) as [Hport _].
      split; [exact Hport | discriminate].
    + exact (IH cfg c spare Hrun).
Qed.

Lemma selectedOnce_cons (f : field) (member : string * json)
      (rest : list (string * json)) :
  selectedOnce f (member :: rest) ->
  selectedOnce f rest /\ (selects f member = true -> existsb (selects f) rest = false).
Proof.
  unfold selectedOnce. cbn [List.filter]. destruct (selects f member); cbn [length].
  - intros Hle. assert (Hnil : List.filter (selects f) rest = []).
    { destruct (List.filter (selects f) rest); [reflexivity | cbn [length] in Hle; lia]. }
    rewrite Hnil. split; [cbn; lia |]. intros _.
    destruct (existsb (selects f) rest) eqn:Hex; [| reflexivity].
    apply existsb_exists in Hex as (x & Hin & Hx).
    assert (Hfil : In x (List.filter (selects f) rest)) by (apply filter_In; split; assumption).
    rewrite Hnil in Hfil. destruct Hfil.
  - intros Hle. split; [exact Hle | discriminate].
Qed.

Lemma unmarshalMembers_port (members : list (string * json)) :
  forall (cfg c : ServerConfig) (spare : list string),
    selectedOnce FPort members ->
    unmarshalMembers members cfg spare = inl c ->
    ServerConfig.Port c =
      match memberOf FPort members with
      | Some (JString s) => s
      | _ => ServerConfig.Port cfg
      end.
Proof.
  induction members as [| [key v] rest IH]; intros cfg c spare Honce Hrun.
  - injection Hrun as <-. reflexivity.
  - destruct (selectedOnce_cons _ _ _ Honce) as [Hrest Hlast].
    unfold memberOf in *. cbn [List.find unmarshalMembers] in *.
    unfold selects in Hlast at 1. unfold selects at 1. cbn [fst] in *.
    destruct (fieldOf key) as [[|] |].
    + cbn [fmap option_fmap option_map snd].
      destruct (unmarshalString "port" v (ServerConfig.Port cfg)) as [p | e] eqn:Hv;
        [| discriminate Hrun].
      destruct (unmarshalMembers_keeps rest _ c _ Hrun) as [Hport _].
      rewrite (Hport (Hlast eq_refl)). cbn [ServerConfig.Port].
      destruct v; try discriminate Hv; injection Hv as <-; reflexivity.
    + destruct (unmarshalStrings v (ServerConfig.BootstrapNodes cfg ++ spare))
        as [[l sp] | e]; [| discriminate Hrun].
      exact (IH _ c _ Hrest Hrun).
    + exact (IH cfg c spare Hrest Hrun).
Qed.

Lemma unmarshalMembers_peers (members : list (string * json)) :
  forall (cfg c : ServerConfig),
    ServerConfig.BootstrapNodes cfg = [] ->
    selectedOnce FBootstrapNodes members ->
    unmarshalMembers members cfg [] = inl c ->
    ServerConfig.BootstrapNodes c =
      match memberOf FBootstrapNodes members with
      | Some (JArray elems) => textOf <$> elems
      | _ => []
      end.
Proof.
  induction members as [| [key v] rest IH]; intros cfg c Hzero Honce Hrun.
  - injection Hrun as <-. exact Hzero.
  - destruct (selectedOnce_cons _ _ _ Honce) as [Hrest Hlast].
    unfold memberOf in *. cbn [List.find unmarshalMembers] in *.
    unfold selects in Hlast at 1. unfold selects at 1. cbn [fst] in *.
    destruct (fieldOf key) as [[|] |].
    + destruct (unmarshalString "port" v (ServerConfig.Port cfg)) as [p | e];
        [| discriminate Hrun].
      exact (IH {| ServerConfig.Port := p;
                   ServerConfig.BootstrapNodes := ServerConfig.BootstrapNodes cfg |}
                c Hzero Hrest Hrun).
    + cbn [fmap option_fmap option_map snd]. rewrite Hzero in Hrun. cbn [app] in Hrun.
      destruct (unmarshalStrings v []) as [[l sp] | e] eqn:Hv; [| discriminate Hrun].
      destruct (unmarshalMembers_keeps rest _ c _ Hrun) as [_ Hpeers].
      rewrite (Hpeers (Hlast eq_refl)). cbn [ServerConfig.BootstrapNodes].
      destruct v as [| b | literal | s | elems | ms]; try discriminate Hv.
      * injection Hv as <- _. reflexivity.
      * destruct elems as [| e0 es]; [injection Hv as <- _; reflexivity |].
        cbn [unmarshalStrings] in Hv.
        destruct (unmarshalElems (e0 :: es) []) as [l' | e] eqn:Hl; [| discriminate Hv].
        injection Hv as <- _. exact (unmarshalElems_fresh _ _ Hl).
    + exact (IH cfg c Hzero Hrest Hrun).
Qed.

Lemma unmarshalServerConfig_fields (members : list (string * json)) (c : ServerConfig) :
  selectedOnce FPort members ->
  selectedOnce FBootstrapNodes members ->
  unmarshalServerConfig (JObject members) = inl c ->
  c = {| ServerConfig.Port := portOf members;
         ServerConfig.BootstrapNodes := peersOf members |}.
Proof.
  intros Hport Hpeers Hrun. cbn [unmarshalServerConfig] in Hrun.
  pose proof (unmarshalMembers_port members _ c _ Hport Hrun) as Hp.
  pose proof (unmarshalMembers_peers members zeroServerConfig c eq_refl Hpeers Hrun) as Hb.
  destruct c as [port peers]. cbn [ServerConfig.Port ServerConfig.BootstrapNodes] in *.
  unfold portOf, peersOf. rewrite Hb. f_equal.
  rewrite Hp. cbn [zeroServerConfig ServerConfig.Port].
  destruct (memberOf FPort members) as [[| | | | |] |] eqn:Hm; try reflexivity.
Qed.

(** C6. [loadConfig] returns an error and no configuration when the file
    cannot be opened, when no JSON value can be read from it and when the
    value does not decode into [[]ServerConfig]; it does not decode exactly
    when it is of a wrong type where the decoder looks: the value is
    neither an array nor [null], an element is neither an object nor
    [null], a member whose key selects [port] is neither a string nor
    [null], or a member whose key selects [peers] is neither [null] nor an
    array of strings and [null]s. Otherwise it returns what was decoded,
    with no error: one [ServerConfig] per element of the array, in order;
    for an element that names each field at most once, [Port] and
    [BootstrapNodes] are the values of those fields, and a field that is
    missing or [null] is left empty. An opened file is closed. *)
Theorem loadConfig_result :
  (forall (path : string) (rho : Env) (n : nat),
      result rho n (loadConfig path) =
        match rho n _ (OsOpen path) with
        | inr err => ([], Some err)
        | inl file =>
            match rho (S n) _ (JsonDecode file) with
            | inr err => ([], Some err)
            | inl v =>
                match unmarshal v with
                | inr err => ([], Some err)
                | inl cfg => (cfg, None)
                end
            end
        end) /\
  (forall (path : string) (rho : Env) (n : nat),
      closed (trace rho n (loadConfig path)) =
        match rho n _ (OsOpen path) with
        | inr _ => []
        | inl file => [file]
        end) /\
  (forall (path : string) (rho : Env) (n : nat) (file : File) (v : json),
      rho n _ (OsOpen path) = inl file ->
      rho (S n) _ (JsonDecode file) = inl v ->
      (isConfiguration v = false ->
       exists err, result rho n (loadConfig path) = ([], Some err)) /\
      (isConfiguration v = true ->
       exists cfgs, unmarshal v = inl cfgs /\
                    result rho n (loadConfig path) = (cfgs, None))) /\
  (forall v : json,
      (isConfiguration v = false -> exists err, unmarshal v = inr err) /\
      (isConfiguration v = true -> exists cfgs, unmarshal v = inl cfgs)) /\
  (forall (elems : list json) (cfgs : list ServerConfig),
      unmarshal (JArray elems) = inl cfgs ->
      length cfgs = length elems /\
      Forall2 (fun v c => unmarshalServerConfig v = inl c) elems cfgs) /\
  (forall (members : list (string * json)) (c : ServerConfig),
      selectedOnce FPort members ->
      selectedOnce FBootstrapNodes members ->
      unmarshalServerConfig (JObject members) = inl c ->
      c = {| ServerConfig.Port := portOf members;
             ServerConfig.BootstrapNodes := peersOf members |}) /\
  (forall entries : list (string * list string),
      unmarshal (JArray ((fun e => configObject e.1 e.2) <$> entries)) =
      inl ((fun e => {| ServerConfig.Port := e.1; ServerConfig.BootstrapNodes := e.2 |})
             <$> entries)) /\
  (forall key : string,
      (fieldOf key = Some FPort <->
       key = "port" \/ key <> "peers" /\ EqualFold key "port" = true) /\
      (fieldOf key = Some FBootstrapNodes <->
       key = "peers" \/
       key <> "port" /\ EqualFold key "port" = false /\ EqualFold key "peers" = true)).
Proof.
  assert (Hresult : forall (path : string) (rho : Env) (n : nat),
             result rho n (loadConfig path) =
               match rho n _ (OsOpen path) with
               | inr err => ([], Some err)
               | inl file =>
                   match rho (S n) _ (JsonDecode file) with
                   | inr err => ([], Some err)
                   | inl v =>
                       match unmarshal v with
                       | inr err => ([], Some err)
                       | inl cfg => (cfg, None)
                       end
                   end
               end).
  { intros path rho n. unfold loadConfig, result. simpl.
    destruct (rho n _ (OsOpen path)) as [file | err]; simpl; [| reflexivity].
    destruct (rho (S n) _ (JsonDecode file)) as [v | err]; [| reflexivity].
    destruct (unmarshal v); reflexivity. }
  split; [exact Hresult |].
  split.
  { intros path rho n. unfold loadConfig, trace. simpl.
    destruct (rho n _ (OsOpen path)) as [file | err]; simpl; [| reflexivity].
    destruct (rho (S n) _ (JsonDecode file)) as [v | err]; reflexivity. }
  split.
  { intros path rho n file v Hopen Hread. rewrite Hresult, Hopen, Hread.
    pose proof (unmarshal_decides v) as Hv.
    split; intros Hconf; rewrite Hconf in Hv.
    - destruct Hv as (err & ->). exists err. reflexivity.
    - destruct Hv as (cfgs & ->). exists cfgs. split; reflexivity. }
  split.
  { intros v. pose proof (unmarshal_decides v) as Hv.
    split; intros Hconf; rewrite Hconf in Hv; exact Hv. }
  split.
  { intros elems cfgs Hdec. apply unmarshalConfigs_each in Hdec.
    split; [symmetry; exact (Forall2_length _ _ _ Hdec) | exact Hdec]. }
  split; [exact unmarshalServerConfig_fields |].
  split; [exact unmarshalConfigs_objects |].
  exact fieldOf_keys.
Qed.
End ConfigClaims.

(** What is no array of objects with the two fields is a configuration all
    the same: [null] loads as no entry, and [null], an empty object and an
    object with a misspelt key load as entries with no port and no peers,
    each without an error. *)
Lemma loadConfig_accepts_missing_fields :
  result (Posix.decoding JNull) 0 (loadConfig (H := Posix.runtime) "startServerConfig.json") =
    ([], None) /\
  result (Posix.decoding (JArray [JNull; JObject []; JObject [("prot", JString ":3000")]])) 0
         (loadConfig (H := Posix.runtime) "startServerConfig.json") =
    ([ {| ServerConfig.Port := EmptyString; ServerConfig.BootstrapNodes := [] |};
       {| ServerConfig.Port := EmptyString; ServerConfig.BootstrapNodes := [] |};
       {| ServerConfig.Port := EmptyString; ServerConfig.BootstrapNodes := [] |} ], None).
Proof. split; reflexivity. Qed.

Example loadConfig_sample :
  run (Posix.decoding Posix.sampleConfig) 0
      (loadConfig (H := Posix.runtime) "startServerConfig.json") =
  ([Step (OsOpen "startServerConfig.json") (inl 3%nat);
    Step (JsonDecode 3%nat) (inl Posix.sampleConfig);
    Step (FileClose 3%nat) None],
   ([ {| ServerConfig.Port := ":3000"; ServerConfig.BootstrapNodes := [] |};
      {| ServerConfig.Port := ":3001"; ServerConfig.BootstrapNodes := [":3000"] |} ],
    None)).
Proof. reflexivity. Qed.

(** A repeated key decodes into what the first occurrence left: the second
    [peers] leaves the element that its [null] stands for as it was. *)
Example repeated_peers :
  unmarshalServerConfig (H := Posix.runtime)
    (JObject [("peers", JArray [JString ":1"; JString ":2"]); ("peers", JArray [JNull])]) =
  inl {| ServerConfig.Port := EmptyString; ServerConfig.BootstrapNodes := [":1"] |}.
Proof. reflexivity. Qed.

(** ** The audit logger *)

Lemma countByte_append (c : ascii) (a b : string) :
  countByte c (a +:+ b) = (countByte c a + countByte c b)%nat.
Proof. induction a as [| c' a IH]; simpl; [reflexivity | rewrite IH; lia]. Qed.

Lemma countByte_absent (c : ascii) (s : string) :
  occurs c s = false -> countByte c s = O.
Proof.
  induction s as [| c' s IH]; simpl; [reflexivity |].
  intros Hocc. apply orb_false_iff in Hocc as [-> Hocc]. rewrite (IH Hocc). reflexivity.
Qed.

Section AuditClaims.
Context `{Runtime}.

Lemma logEntry_one_line (now : Time) (op filekey peer status : string) :
  occurs lineFeed (FormatRFC3339 now) = false ->
  occurs lineFeed op = false ->
  occurs lineFeed filekey = false ->
  occurs lineFeed peer = false ->
  occurs lineFeed status = false ->
  countByte lineFeed (logEntry now op filekey peer status) = 1%nat.
Proof.
  intros Ht Ho Hk Hp Hs. unfold logEntry.
  rewrite !countByte_append.
  rewrite (countByte_absent _ _ Ht), (countByte_absent _ _ Ho), (countByte_absent _ _ Hk),
          (countByte_absent _ _ Hp), (countByte_absent _ _ Hs).
  reflexivity.
Qed.

Lemma Log_trace (a : AuditLogger) (op filekey peer status : string) (rho : Env) (n : nat) :
  let now := rho (S n) _ TimeNow in
  let entry := logEntry now op filekey peer status in
  let w := rho (S (S n)) _ (FileWriteString (logFile a) entry) in
  trace rho n (Log a op filekey peer status) =
    [Step (MutexLock (mu a)) tt; Step TimeNow now;
     Step (FileWriteString (logFile a) entry) w]
    ++ match w.2 with
       | Some err => [Step (Print (Sprintln ["Error writing to log file:"; err])) tt]
       | None => []
       end
    ++ [Step (MutexUnlock (mu a)) tt].
Proof.
  intros now entry w. unfold Log, trace. simpl. fold now. fold entry. fold w.
  destruct (rho n _ (MutexLock (mu a))).
  destruct (w.2) as [err |]; simpl.
  - destruct (rho (S (S (S n))) _ (Print (Sprintln ["Error writing to log file:"; err]))).
    destruct (rho (S (S (S (S n)))) _ (MutexUnlock (mu a))). reflexivity.
  - destruct (rho (S (S (S n))) _ (MutexUnlock (mu a))). reflexivity.
Qed.

Lemma simpleNewAuditLogger_run (logFileName : string) (rho : Env) (n : nat) :
  head (trace rho n (simpleNewAuditLogger logFileName)) =
    Some (Step (OsOpenFile logFileName appendCreateWronly 420%N)
               (rho n _ (OsOpenFile logFileName appendCreateWronly 420%N))) /\
  result rho n (simpleNewAuditLogger logFileName) =
    match rho n _ (OsOpenFile logFileName appendCreateWronly 420%N) with
    | inr err => (None, Some err)
    | inl fd => (Some {| mu := fd; logFile := fd; logFilePath := logFileName |}, None)
    end.
Proof.
  unfold simpleNewAuditLogger, trace, result. simpl.
  destruct (rho n _ (OsOpenFile logFileName appendCreateWronly 420%N)); split; reflexivity.
Qed.

(** Against the operating system: a call of [Log] on a logger whose file is
    open for appending and whose mutex is free adds its entry at the end of
    the file and changes nothing else. *)
Lemma Log_interp (a : AuditLogger) (op filekey peer status : string)
      (w : World) (d : Descriptor) :
  descriptors w !! logFile a = Some d ->
  dFlags d = appendCreateWronly ->
  mu a ∉ held w ->
  exists w',
    interp (Log a op filekey peer status) w = Some (tt, w') /\
    files w' = <[dPath d := default EmptyString (files w !! dPath d)
                            +:+ logEntry (clock w) op filekey peer status]> (files w) /\
    descriptors w' = descriptors w /\ held w' = held w /\
    stdout w' = stdout w /\ clock w' = clock w /\ registry w' = registry w.
Proof.
  intros Hd Hflags Hfree. unfold Log. cbn [bind call interp osStep].
  destruct (decide (mu a ∈ held w)) as [Hin | _]; [contradiction |].
  cbn [interp osStep setHeld clock]. unfold writeString. cbn [descriptors setHeld].
  rewrite Hd, Hflags. cbn [appendCreateWronly O_WRONLY O_APPEND negb snd].
  cbn [bind call interp osStep setFiles held setHeld].
  destruct (decide (mu a ∈ {[mu a]} ∪ held w)) as [_ | Hout].
  - eexists. split; [reflexivity |].
    cbn [files descriptors held stdout clock registry setFiles setHeld].
    repeat split.
    apply set_eq. intros m. rewrite elem_of_difference, elem_of_union, elem_of_singleton.
    split; [intros [[-> | Hm] Hne]; [destruct Hne; reflexivity | exact Hm] |].
    intros Hm. split; [right; exact Hm |]. intros ->. exact (Hfree Hm).
  - exfalso. apply Hout. apply elem_of_union_l, elem_of_singleton. reflexivity.
Qed.
Lemma interp_bind {A B : Type} (p : Prog A) (f : A -> Prog B) (w : World) :
  interp (bind p f) w =
  match interp p w with
  | Some (a, w') => interp (f a) w'
  | None => None
  end.
Proof.
  revert w. induction p as [a | X e k IH]; intros w; [reflexivity |].
  cbn [bind interp]. destruct (osStep w e) as [[x w'] |]; [apply IH | reflexivity].
Qed.

Lemma append_assoc (a b c : string) : (a +:+ b) +:+ c = a +:+ (b +:+ c).
Proof.
  induction a as [| x a IH]; [reflexivity |].
  change (String x ((a +:+ b) +:+ c) = String x (a +:+ (b +:+ c))).
  rewrite IH. reflexivity.
Qed.

Lemma append_empty_r (a : string) : a +:+ EmptyString = a.
Proof.
  induction a as [| x a IH]; [reflexivity |].
  change (String x (a +:+ EmptyString) = String x a).
  rewrite IH. reflexivity.
Qed.

(** One call after the other: each adds its entry behind the entries of the
    calls before it. *)
Lemma logEach_interp (a : AuditLogger) (calls : list LogArgs) (w : World)
      (d : Descriptor) (old : string) :
  descriptors w !! logFile a = Some d ->
  dFlags d = appendCreateWronly ->
  files w !! dPath d = Some old ->
  mu a ∉ held w ->
  exists w',
    interp (logEach a calls) w = Some (tt, w') /\
    files w' !! dPath d = Some (old +:+ entriesAt (clock w) calls).
Proof.
  revert w old. induction calls as [| c rest IH]; intros w old Hd Hflags Hold Hfree.
  - exists w. split; [reflexivity |].
    cbn [entriesAt foldr]. rewrite append_empty_r. exact Hold.
  - destruct (Log_interp a (argOp c) (argFilekey c) (argPeer c) (argStatus c) w d
                Hd Hflags Hfree)
      as (w1 & Hrun & Hfiles & Hdesc & Hheld & _ & Hclock & _).
    cbn [logEach]. rewrite interp_bind, Hrun.
    assert (Hd1 : descriptors w1 !! logFile a = Some d) by (rewrite Hdesc; exact Hd).
    assert (Hfree1 : mu a ∉ held w1) by (rewrite Hheld; exact Hfree).
    assert (Hold1 : files w1 !! dPath d =
                    Some (old +:+ logEntry (clock w) (argOp c) (argFilekey c)
                                    (argPeer c) (argStatus c))).
    { rewrite Hfiles, lookup_insert_eq, Hold. reflexivity. }
    destruct (IH w1 _ Hd1 Hflags Hold1 Hfree1) as (w2 & Hrun2 & Hfiles2).
    exists w2. split; [exact Hrun2 |].
    rewrite Hfiles2, Hclock, append_assoc. reflexivity.
Qed.

(** *** Threads that log at the same time *)

Lemma exclusive_start (a : AuditLogger) (w : World) (calls : list LogArgs) :
  mu a ∉ held w ->
  exclusive a w ((fun c => logFrom a c AtLock) <$> calls).
Proof.
  intros Hfree.
  assert (Hat : forall i p, ((fun c => logFrom a c AtLock) <$> calls) !! i = Some p ->
                            exists c, p = logFrom a c AtLock).
  { intros i p Hp. rewrite list_lookup_fmap in Hp.
    destruct (calls !! i) as [c |]; [| discriminate Hp].
    injection Hp as <-. exists c. reflexivity. }
  split.
  - intros i p Hp. destruct (Hat i p Hp) as [c ->]. exists c, AtLock. reflexivity.
  - intros _ i p Hp. destruct (Hat i p Hp) as [c ->]. reflexivity.
  - intros i j p q Hp _ Hcrit. destruct (Hat i p Hp) as [c ->]. discriminate Hcrit.
  - intros i p Hp Hw. destruct (Hat i p Hp) as [c ->]. discriminate Hw.
Qed.

Lemma exclusive_step (a : AuditLogger) (w w' : World) (threads : list (Prog unit))
      (i : nat) (p p' : Prog unit) :
  exclusive a w threads ->
  threads !! i = Some p ->
  threadStep w p = Some (w', p') ->
  exclusive a w' (<[i := p']> threads).
Proof.
  intros [Hshape Hfree Hone Hwrite] Hi Hstep.
  destruct (Hshape i p Hi) as (c & ph & ->).
  assert (Hlt : (i < length threads)%nat) by (eapply lookup_lt_Some; exact Hi).
  (* every other thread is where it was *)
  assert (Hother : forall j q, <[i := p']> threads !! j = Some q ->
                               j = i /\ q = p' \/ j <> i /\ threads !! j = Some q).
  { intros j q Hq. apply list_lookup_insert_Some in Hq as [(-> & -> & _) | [Hne Hq]];
      [left; split; reflexivity | right; split; [congruence | exact Hq]]. }
  (* while this thread is in the critical section, no other is *)
  assert (Halone : inCritical (logFrom a c ph) = true ->
                   forall j q, j <> i -> threads !! j = Some q -> inCritical q = false).
  { intros Hcrit j q Hne Hq. destruct (inCritical q) eqn:Hcq; [| reflexivity].
    exfalso. apply Hne. exact (Hone j i q _ Hq Hi Hcq Hcrit). }
  destruct ph; cbn [logFrom Log bind call threadStep osStep] in Hstep.
  - (* the lock is taken: the mutex was free *)
    destruct (decide (mu a ∈ held w)) as [Hin | Hout]; [discriminate Hstep |].
    injection Hstep as <- <-.
    split.
    + intros j q Hq. destruct (Hother j q Hq) as [[-> ->] | [_ Hq']];
        [exists c, AtNow; reflexivity | exact (Hshape j q Hq')].
    + intros Hnot. exfalso. apply Hnot. cbn [held setHeld].
      apply elem_of_union_l, elem_of_singleton. reflexivity.
    + intros j k q r Hq Hr Hcq Hcr.
      destruct (Hother j q Hq) as [[-> ->] | [_ Hq']];
        destruct (Hother k r Hr) as [[-> ->] | [_ Hr']]; try reflexivity.
      * rewrite (Hfree Hout k r Hr') in Hcr. discriminate Hcr.
      * rewrite (Hfree Hout j q Hq') in Hcq. discriminate Hcq.
      * rewrite (Hfree Hout j q Hq') in Hcq. discriminate Hcq.
    + intros j q Hq _. cbn [held setHeld].
      apply elem_of_union_l, elem_of_singleton. reflexivity.
  - (* the clock is read *)
    injection Hstep as <- <-.
    assert (Hheld : mu a ∈ held w).
    { destruct (decide (mu a ∈ held w)) as [Hin | Hout]; [exact Hin |].
      discriminate (Hfree Hout i _ Hi). }
    split.
    + intros j q Hq. destruct (Hother j q Hq) as [[-> ->] | [_ Hq']];
        [exists c, (AtWrite (clock w)); reflexivity | exact (Hshape j q Hq')].
    + intros Hnot. contradiction.
    + intros j k q r Hq Hr Hcq Hcr.
      destruct (Hother j q Hq) as [[-> ->] | [Hj Hq']];
        destruct (Hother k r Hr) as [[-> ->] | [Hk Hr']]; try reflexivity.
      * rewrite (Halone eq_refl k r Hk Hr') in Hcr. discriminate Hcr.
      * rewrite (Halone eq_refl j q Hj Hq') in Hcq. discriminate Hcq.
      * exact (Hone j k q r Hq' Hr' Hcq Hcr).
    + intros j q Hq _. exact Hheld.
  - (* the entry is written *)
    assert (Hheld : mu a ∈ held w) by (exact (Hwrite i _ Hi eq_refl)).
    unfold writeString in Hstep.
    assert (Hw' : held w' = held w /\
                  exists ph', p' = logFrom a c ph' /\ inCritical p' = true).
    { destruct (descriptors w !! logFile a) as [d |].
      - destruct (negb (O_WRONLY (dFlags d))).
        + injection Hstep as <- <-. split; [reflexivity |].
          eexists (AtPrint _). split; reflexivity.
        + destruct (O_APPEND (dFlags d)); [| discriminate Hstep].
          injection Hstep as <- <-. split; [reflexivity |].
          exists AtUnlock. split; reflexivity.
      - injection Hstep as <- <-. split; [reflexivity |].
        eexists (AtPrint _). split; reflexivity. }
    destruct Hw' as (Hheld' & ph' & -> & Hcrit').
    split.
    + intros j q Hq. destruct (Hother j q Hq) as [[-> ->] | [_ Hq']];
        [exists c, ph'; reflexivity | exact (Hshape j q Hq')].
    + intros Hnot. rewrite Hheld' in Hnot. contradiction.
    + intros j k q r Hq Hr Hcq Hcr.
      destruct (Hother j q Hq) as [[-> ->] | [Hj Hq']];
        destruct (Hother k r Hr) as [[-> ->] | [Hk Hr']]; try reflexivity.
      * rewrite (Halone eq_refl k r Hk Hr') in Hcr. discriminate Hcr.
      * rewrite (Halone eq_refl j q Hj Hq') in Hcq. discriminate Hcq.
      * exact (Hone j k q r Hq' Hr' Hcq Hcr).
    + intros j q Hq _. rewrite Hheld'. exact Hheld.
  - (* the failure is reported *)
    injection Hstep as <- <-.
    assert (Hheld : mu a ∈ held w).
    { destruct (decide (mu a ∈ held w)) as [Hin | Hout]; [exact Hin |].
      discriminate (Hfree Hout i _ Hi). }
    split.
    + intros j q Hq. destruct (Hother j q Hq) as [[-> ->] | [_ Hq']];
        [exists c, AtUnlock; reflexivity | exact (Hshape j q Hq')].
    + intros Hnot. contradiction.
    + intros j k q r Hq Hr Hcq Hcr.
      destruct (Hother j q Hq) as [[-> ->] | [Hj Hq']];
        destruct (Hother k r Hr) as [[-> ->] | [Hk Hr']]; try reflexivity.
      * rewrite (Halone eq_refl k r Hk Hr') in Hcr. discriminate Hcr.
      * rewrite (Halone eq_refl j q Hj Hq') in Hcq. discriminate Hcq.
      * exact (Hone j k q r Hq' Hr' Hcq Hcr).
    + intros j q Hq _. exact Hheld.
  - (* the lock is released: every other thread is outside *)
    destruct (decide (mu a ∈ held w)) as [Hin | Hout]; [| discriminate Hstep].
    injection Hstep as <- <-.
    assert (Hout : forall j q, <[i := Ret tt]> threads !! j = Some q -> inCritical q = false).
    { intros j q Hq. destruct (Hother j q Hq) as [[-> ->] | [Hj Hq']];
        [reflexivity | exact (Halone eq_refl j q Hj Hq')]. }
    split.
    + intros j q Hq. destruct (Hother j q Hq) as [[-> ->] | [_ Hq']];
        [exists c, Finished; reflexivity | exact (Hshape j q Hq')].
    + intros _. exact Hout.
    + intros j k q r Hq _ Hcq. rewrite (Hout j q Hq) in Hcq. discriminate Hcq.
    + intros j q Hq Hwq. pose proof (Hout j q Hq) as Hcq.
      destruct q as [| X e k]; [discriminate Hwq |]. destruct e; discriminate.
  - discriminate Hstep.
Qed.

Lemma exclusive_run (a : AuditLogger) (schedule : list nat) :
  forall (w : World) (threads : list (Prog unit)),
    exclusive a w threads ->
    exclusive a (runThreads schedule w threads).1 (runThreads schedule w threads).2.
Proof.
  induction schedule as [| i rest IH]; intros w threads Hex; [exact Hex |].
  cbn [runThreads].
  destruct (threads !! i) as [p |] eqn:Hi; [| apply IH; exact Hex].
  destruct (threadStep w p) as [[w' p'] |] eqn:Hstep; [| apply IH; exact Hex].
  apply IH. exact (exclusive_step a w w' threads i p p' Hex Hi Hstep).
Qed.
End AuditClaims.

Lemma held_restored (m : Mutex) (h : gset Mutex) :
  m ∉ h -> ({[m]} ∪ h) ∖ {[m]} = h.
Proof.
  intros Hfree. apply set_eq. intros x.
  rewrite elem_of_difference, elem_of_union, elem_of_singleton.
  split; [intros [[-> | Hx] Hne]; [destruct Hne; reflexivity | exact Hx] |].
  intros Hx. split; [right; exact Hx |]. intros ->. exact (Hfree Hx).
Qed.

Section AuditWorld.
Context `{Runtime}.

Lemma countByte_none (c : ascii) (s : string) :
  countByte c s = O <-> occurs c s = false.
Proof.
  split; [| apply countByte_absent].
  induction s as [| c' s IH]; [reflexivity |].
  cbn [countByte occurs]. destruct (Ascii.eqb c c'); [discriminate |].
  intros Hzero. apply IH. exact Hzero.
Qed.

(** The line feeds of an entry: its own, and those of its fields. *)
Lemma logEntry_line_feeds (now : Time) (op filekey peer status : string) :
  countByte lineFeed (logEntry now op filekey peer status) =
    S (countByte lineFeed (FormatRFC3339 now) + countByte lineFeed op
       + countByte lineFeed filekey + countByte lineFeed peer
       + countByte lineFeed status).
Proof.
  unfold logEntry. rewrite !countByte_append.
  change (countByte lineFeed " | ") with O. change (countByte lineFeed newline) with 1%nat.
  lia.
Qed.

(** Against the operating system: a call of [Log] on a logger whose file is
    not open adds nothing to any file; the failed write is reported on
    standard output and the mutex is released. *)
Lemma Log_closed_interp (a : AuditLogger) (op filekey peer status : string) (w : World) :
  descriptors w !! logFile a = None ->
  mu a ∉ held w ->
  exists w',
    interp (Log a op filekey peer status) w = Some (tt, w') /\
    files w' = files w /\
    descriptors w' = descriptors w /\ held w' = held w /\
    stdout w' =
      stdout w +:+ Sprintln ["Error writing to log file:"; notOpen w "write" (logFile a)].
Proof.
  intros Hd Hfree. unfold Log. cbn [bind call interp osStep].
  destruct (decide (mu a ∈ held w)) as [Hin | _]; [contradiction |].
  cbn [interp osStep clock setHeld]. unfold writeString.
  cbn [descriptors setHeld]. rewrite Hd.
  cbn [snd bind call interp osStep held setStdout setHeld].
  destruct (decide (mu a ∈ {[mu a]} ∪ held w)) as [_ | Hout];
    [| exfalso; apply Hout; apply elem_of_union_l, elem_of_singleton; reflexivity].
  eexists. split; [reflexivity |].
  cbn [files stdout held descriptors setStdout setHeld].
  repeat split. apply held_restored. exact Hfree.
Qed.

Lemma nextFile_fresh (w : World) : descriptors w !! nextFile w = None.
Proof.
  apply not_elem_of_dom. intros Hin.
  apply (is_fresh (dom (issued w) ∪ dom (descriptors w))).
  apply elem_of_union_r. exact Hin.
Qed.

(** Against the operating system: where it refuses the name, the
    constructor returns no logger and the error, and nothing has changed. *)
Lemma simpleNewAuditLogger_refused (logFileName why : string) (w : World) :
  denied w !! logFileName = Some why ->
  interp (simpleNewAuditLogger logFileName) w =
    Some ((None, Some ("open " +:+ logFileName +:+ ": " +:+ why)), w).
Proof.
  intros Hdenied. unfold simpleNewAuditLogger. cbn [bind call interp osStep].
  unfold openFile. rewrite Hdenied. reflexivity.
Qed.

(** Against the operating system: where the open succeeds, the constructor
    has opened the file for appending, creating it when it was missing and
    keeping what it held, and has written the two lines of its banner behind
    that; no other file has changed. *)
Lemma simpleNewAuditLogger_interp (logFileName : string) (w : World) :
  denied w !! logFileName = None ->
  let fd := nextFile w in
  exists w',
    interp (simpleNewAuditLogger logFileName) w =
      Some ((Some {| mu := fd; logFile := fd; logFilePath := logFileName |}, None), w') /\
    descriptors w' =
      <[fd := {| dPath := logFileName; dFlags := appendCreateWronly |}]> (descriptors w) /\
    files w' =
      <[logFileName :=
          default EmptyString (files w !! logFileName)
          +:+ ("[" +:+ FormatRFC3339 (clock w) +:+ "] LOGGING STARTED...." +:+ newline)
          +:+ newline]> (files w) /\
    held w' = held w /\ clock w' = clock w /\ stdout w' = stdout w.
Proof.
  intros Hallowed fd. unfold simpleNewAuditLogger. cbn [bind call interp osStep].
  unfold openFile. fold fd. rewrite Hallowed.
  destruct (files w !! logFileName) as [old |] eqn:Hold;
    cbn [appendCreateWronly O_CREATE interp osStep clock setDescriptors setFiles setIssued];
    unfold writeString; cbn [descriptors setDescriptors setFiles setIssued];
    rewrite lookup_insert_eq;
    cbn [dFlags dPath appendCreateWronly O_WRONLY O_APPEND negb
         interp osStep files descriptors setDescriptors setFiles setIssued];
    rewrite ?lookup_insert_eq;
    cbn [dFlags dPath appendCreateWronly O_WRONLY O_APPEND negb
         interp osStep files descriptors setDescriptors setFiles setIssued];
    rewrite ?Hold, ?lookup_insert_eq;
    cbn [default dFlags dPath appendCreateWronly O_WRONLY O_APPEND negb
         interp osStep files descriptors setDescriptors setFiles setIssued];
    rewrite ?lookup_insert_eq;
    (eexists; split; [reflexivity |]);
    cbn [files descriptors held clock stdout setDescriptors setFiles setIssued default];
    rewrite ?insert_insert_eq; unfold id; rewrite ?append_assoc; repeat split.
Qed.
End AuditWorld.

Section AuditTheorem.
Context `{Runtime}.

(** C1. Every call of [Log] makes, between locking and unlocking the mutex
    of the logger, exactly one write to the file of the logger, of the text
    [timestamp | op | filekey | peer | status] and a line feed, the
    timestamp being the clock in RFC 3339. The fields are written as they
    are: the text holds one line feed more than its fields do, so it is one
    line exactly when no field holds a line feed. The file is the one file
    the constructor opened with [O_APPEND|O_CREATE|O_WRONLY]; where the
    operating system refuses the open the constructor returns no logger and
    the error. Against the operating system a call on a logger whose file
    is open adds exactly its entry at the end of that file and changes no
    other, a call after the file was closed adds nothing and reports the
    failed write, and a sequence of calls adds one entry per call. Threads
    that log at the same time are serialized by the mutex: never two of
    them are between lock and unlock, and a thread about to write holds
    the mutex. *)
Theorem Log_appends_one_line :
  (forall (a : AuditLogger) (op filekey peer status : string) (rho : Env) (n : nat),
      let now := rho (S n) _ TimeNow in
      let entry := logEntry now op filekey peer status in
      let w := rho (S (S n)) _ (FileWriteString (logFile a) entry) in
      trace rho n (Log a op filekey peer status) =
        [Step (MutexLock (mu a)) tt; Step TimeNow now;
         Step (FileWriteString (logFile a) entry) w]
        ++ match w.2 with
           | Some err => [Step (Print (Sprintln ["Error writing to log file:"; err])) tt]
           | None => []
           end
        ++ [Step (MutexUnlock (mu a)) tt]) /\
  (forall (now : Time) (op filekey peer status : string),
      logEntry now op filekey peer status =
        Join [FormatRFC3339 now; op; filekey; peer; status] " | " +:+ newline /\
      countByte lineFeed (logEntry now op filekey peer status) =
        S (countByte lineFeed (FormatRFC3339 now) + countByte lineFeed op
           + countByte lineFeed filekey + countByte lineFeed peer
           + countByte lineFeed status) /\
      (countByte lineFeed (logEntry now op filekey peer status) = 1%nat <->
       occurs lineFeed (FormatRFC3339 now) = false /\
       occurs lineFeed op = false /\ occurs lineFeed filekey = false /\
       occurs lineFeed peer = false /\ occurs lineFeed status = false)) /\
  (forall (logFileName : string) (rho : Env) (n : nat),
      head (trace rho n (simpleNewAuditLogger logFileName)) =
        Some (Step (OsOpenFile logFileName appendCreateWronly 420%N)
                   (rho n _ (OsOpenFile logFileName appendCreateWronly 420%N))) /\
      O_APPEND appendCreateWronly = true /\ O_CREATE appendCreateWronly = true /\
      result rho n (simpleNewAuditLogger logFileName) =
        match rho n _ (OsOpenFile logFileName appendCreateWronly 420%N) with
        | inr err => (None, Some err)
        | inl fd => (Some {| mu := fd; logFile := fd; logFilePath := logFileName |}, None)
        end) /\
  (forall (logFileName : string) (w : World),
      (forall why : string,
          denied w !! logFileName = Some why ->
          interp (simpleNewAuditLogger logFileName) w =
            Some ((None, Some ("open " +:+ logFileName +:+ ": " +:+ why)), w)) /\
      (denied w !! logFileName = None ->
       exists w',
         interp (simpleNewAuditLogger logFileName) w =
           Some ((Some {| mu := nextFile w; logFile := nextFile w;
                          logFilePath := logFileName |}, None), w') /\
         descriptors w !! nextFile w = None /\
         descriptors w' =
           <[nextFile w := {| dPath := logFileName; dFlags := appendCreateWronly |}]>
             (descriptors w) /\
         files w' =
           <[logFileName :=
               default EmptyString (files w !! logFileName)
               +:+ ("[" +:+ FormatRFC3339 (clock w) +:+ "] LOGGING STARTED...." +:+ newline)
               +:+ newline]> (files w) /\
         held w' = held w /\ clock w' = clock w /\ stdout w' = stdout w)) /\
  (forall (a : AuditLogger) (op filekey peer status : string) (w : World) (d : Descriptor),
      descriptors w !! logFile a = Some d ->
      dFlags d = appendCreateWronly ->
      mu a ∉ held w ->
      exists w',
        interp (Log a op filekey peer status) w = Some (tt, w') /\
        files w' = <[dPath d := default EmptyString (files w !! dPath d)
                                +:+ logEntry (clock w) op filekey peer status]> (files w) /\
        descriptors w' = descriptors w /\ held w' = held w /\
        stdout w' = stdout w /\ clock w' = clock w /\ registry w' = registry w) /\
  (forall (a : AuditLogger) (op filekey peer status : string) (w : World),
      descriptors w !! logFile a = None ->
      mu a ∉ held w ->
      exists w',
        interp (Log a op filekey peer status) w = Some (tt, w') /\
        files w' = files w /\
        descriptors w' = descriptors w /\ held w' = held w /\
        stdout w' =
          stdout w
          +:+ Sprintln ["Error writing to log file:"; notOpen w "write" (logFile a)]) /\
  (forall (a : AuditLogger) (calls : list LogArgs) (w : World) (d : Descriptor)
          (old : string),
      descriptors w !! logFile a = Some d ->
      dFlags d = appendCreateWronly ->
      files w !! dPath d = Some old ->
      mu a ∉ held w ->
      exists w',
        interp (logEach a calls) w = Some (tt, w') /\
        files w' !! dPath d = Some (old +:+ entriesAt (clock w) calls)) /\
  (forall (a : AuditLogger) (calls : list LogArgs) (schedule : list nat) (w : World),
      mu a ∉ held w ->
      let threads :=
        (fun c => Log a (argOp c) (argFilekey c) (argPeer c) (argStatus c)) <$> calls in
      let after := runThreads schedule w threads in
      (forall i j p q,
          after.2 !! i = Some p -> after.2 !! j = Some q ->
          inCritical p = true -> inCritical q = true -> i = j) /\
      (forall i p, after.2 !! i = Some p -> atWrite p = true -> mu a ∈ held after.1)).
Proof.
  split; [exact Log_trace |].
  split.
  { intros now op filekey peer status.
    split; [unfold logEntry; cbn [Join]; rewrite !append_assoc; reflexivity |].
    split; [apply logEntry_line_feeds |].
    rewrite logEntry_line_feeds, <- !countByte_none. lia. }
  split.
  { intros logFileName rho n.
    destruct (simpleNewAuditLogger_run logFileName rho n) as [Hhead Hres].
    repeat split; assumption. }
  split.
  { intros logFileName w. split; [intros why; apply simpleNewAuditLogger_refused |].
    intros Hallowed.
    destruct (simpleNewAuditLogger_interp logFileName w Hallowed)
      as (w' & Hrun & Hdesc & Hfiles & Hheld & Hclock & Hout).
    exists w'. split; [exact Hrun |]. split; [apply nextFile_fresh |].
    repeat split; assumption. }
  split; [exact Log_interp |].
  split; [exact Log_closed_interp |].
  split; [exact logEach_interp |].
  intros a calls schedule w Hfree threads after.
  pose proof (exclusive_run a schedule w threads (exclusive_start a w calls Hfree)) as Hex.
  fold after in Hex. destruct Hex as [_ _ Hone Hwrite].
  split; [exact Hone | exact Hwrite].
Qed.
End AuditTheorem.

(** A logger made on the empty world and an entry written through it. *)
Lemma Log_appends_one_line_witness :
  let a := {| mu := 0%nat; logFile := 0%nat; logFilePath := "audit.log" |} in
  exists w1 w2,
    interp (simpleNewAuditLogger (H := Posix.runtime) "audit.log") emptyWorld =
      Some ((Some a, None), w1) /\
    interp (Log (H := Posix.runtime) a "STORE" "e1c9a" ":3001" "ok") w1 = Some (tt, w2) /\
    files w2 !! "audit.log" =
      Some ("[1970-01-01T00:00:00Z] LOGGING STARTED...." +:+ newline +:+ newline +:+
            "1970-01-01T00:00:00Z | STORE | e1c9a | :3001 | ok" +:+ newline).
Proof.
  intros a.
  destruct (Log_appends_one_line (H := Posix.runtime))
    as (_ & _ & _ & Hnew & Hlog & _).
  destruct (Hnew "audit.log" emptyWorld) as [_ Hopen].
  destruct (Hopen eq_refl) as (w1 & Hrun1 & _ & Hdesc & Hfiles1 & Hheld1 & Hclock1 & _).
  assert (Hd : descriptors w1 !! logFile a =
               Some {| dPath := "audit.log"; dFlags := appendCreateWronly |})
    by (rewrite Hdesc; apply lookup_insert_eq).
  assert (Hfree : mu a ∉ held w1) by (rewrite Hheld1; apply not_elem_of_empty).
  destruct (Hlog a "STORE" "e1c9a" ":3001" "ok" w1 _ Hd eq_refl Hfree)
    as (w2 & Hrun2 & Hfiles2 & _).
  exists w1, w2. split; [exact Hrun1 |]. split; [exact Hrun2 |].
  rewrite Hfiles2. cbn [dPath]. rewrite lookup_insert_eq, Hfiles1, lookup_insert_eq, Hclock1.
  reflexivity.
Defined.

(** Not every call appends exactly one line: the fields are written as
    they are, so a file key that holds a line feed makes one call of [Log]
    append two lines; and a call after [Close] appends nothing. *)
Lemma Log_appends_two_lines :
  let a := {| mu := 0%nat; logFile := 0%nat; logFilePath := "audit.log" |} in
  let entry := "1970-01-01T00:00:00Z | STORE | a" +:+ newline +:+ "b | :3001 | ok" +:+ newline in
  files openLog !! "audit.log" = Some ("started" +:+ newline) /\
  (exists w',
      interp (Log (H := Posix.runtime) a "STORE" ("a" +:+ newline +:+ "b") ":3001" "ok")
             openLog = Some (tt, w') /\
      files w' !! "audit.log" = Some (("started" +:+ newline) +:+ entry) /\
      countByte lineFeed entry = 2%nat /\
      countByte lineFeed entry <> 1%nat) /\
  (exists w1 w2,
      interp (Close a) openLog = Some (None, w1) /\
      interp (Log (H := Posix.runtime) a "STORE" "e1c9a" ":3001" "ok") w1 = Some (tt, w2) /\
      files w2 !! "audit.log" = Some ("started" +:+ newline)).
Proof.
  intros a entry. split; [reflexivity |]. split.
  - eexists. split; [reflexivity |].
    split; [reflexivity |]. split; [reflexivity | discriminate].
  - eexists. eexists. split; [reflexivity |]. split; reflexivity.
Qed.

(** The first word is lower-cased before the switch: [QUIT] quits. *)
Example upper_case_quit (deferred : list File) (rho : Env) (n : nat) :
  printed (trace rho n (loopBody (H := Posix.runtime) 0%nat "QUIT" deferred)) =
    [Sprintln ["Exiting..."]] /\
  result rho n (loopBody (H := Posix.runtime) 0%nat "QUIT" deferred) =
    (Leave (Returns tt), deferred).
Proof. split; reflexivity. Qed.


(** * Further properties *)

Lemma serversMade_app (tr1 tr2 : list Step') :
  serversMade (tr1 ++ tr2) = serversMade tr1 ++ serversMade tr2.
Proof.
  induction tr1 as [| [X e x] tr1 IH]; simpl; [reflexivity |].
  destruct e; simpl; rewrite IH; reflexivity.
Qed.

Lemma started_app (tr1 tr2 : list Step') :
  started (tr1 ++ tr2) = started tr1 ++ started tr2.
Proof.
  induction tr1 as [| [X e x] tr1 IH]; simpl; [reflexivity |].
  destruct e; simpl; rewrite IH; reflexivity.
Qed.

Lemma slept_app (tr1 tr2 : list Step') :
  slept (tr1 ++ tr2) = slept tr1 ++ slept tr2.
Proof.
  induction tr1 as [| [X e x] tr1 IH]; simpl; [reflexivity |].
  destruct e; simpl; rewrite IH; reflexivity.
Qed.

Lemma fatals_app (tr1 tr2 : list Step') :
  fatals (tr1 ++ tr2) = fatals tr1 ++ fatals tr2.
Proof.
  induction tr1 as [| [X e x] tr1 IH]; simpl; [reflexivity |].
  destruct e; simpl; rewrite IH; reflexivity.
Qed.

Lemma opened_app (tr1 tr2 : list Step') :
  opened (tr1 ++ tr2) = opened tr1 ++ opened tr2.
Proof.
  induction tr1 as [| [X e x] tr1 IH]; simpl; [reflexivity |].
  destruct e; simpl; rewrite IH; reflexivity.
Qed.

(** ** completeServerSetup *)

Lemma startServers_unfold (cfg : ServerConfig) (rest : list ServerConfig)
      (servers : gmap string FileServer) (rho : Env) (n : nat) :
  let server := result rho n (makeServer cfg) in
  trace rho n (startServers (cfg :: rest) servers) =
    trace rho n (makeServer cfg)
    ++ Step (GoStart server) (rho (4 + n)%nat _ (GoStart server))
    :: Step (Sleep 50) (rho (5 + n)%nat _ (Sleep 50))
    :: trace rho (6 + n)%nat
         (startServers rest (<[ServerConfig.Port cfg := server]> servers)) /\
  result rho n (startServers (cfg :: rest) servers) =
    result rho (6 + n)%nat
      (startServers rest (<[ServerConfig.Port cfg := server]> servers)).
Proof.
  intros server. unfold server, trace, result. simpl.
  match goal with |- context [run rho ?m (startServers rest ?sv)] =>
    destruct (run rho m (startServers rest sv)) as [tr r] end.
  split; reflexivity.
Qed.

Lemma startServers_run (configs : list ServerConfig) :
  forall (servers : gmap string FileServer) (rho : Env) (n : nat),
    let tr := trace rho n (startServers configs servers) in
    result rho n (startServers configs servers) =
      assignAll (zip (ServerConfig.Port <$> configs) (serversMade tr)) servers /\
    length (serversMade tr) = length configs /\
    started tr = serversMade tr /\
    ServerConfig.Port <$> configs = TCPTransportOps.ListenerPortAddr <$> transportsBuilt tr /\
    ServerConfig.BootstrapNodes <$> configs =
      FileServerOps.BootstrapNodes <$> serversBuilt tr /\
    slept tr = replicate (length configs) 50 /\
    fatals tr = [].
Proof.
  induction configs as [| cfg rest IH]; intros servers rho n tr; [repeat split |].
  destruct (startServers_unfold cfg rest servers rho n) as [Htr Hres].
  destruct (IH (<[ServerConfig.Port cfg := result rho n (makeServer cfg)]> servers)
               rho (6 + n)%nat) as (IHres & IHlen & IHstart & IHports & IHpeers & IHslept & IHfat).
  unfold tr. rewrite Htr, Hres.
  rewrite serversMade_app, started_app, transportsBuilt_app, serversBuilt_app,
          slept_app, fatals_app.
  cbn [serversMade started transportsBuilt serversBuilt slept fatals].
  change (serversMade (trace rho n (makeServer cfg))) with [result rho n (makeServer cfg)].
  change (started (trace rho n (makeServer cfg))) with (@nil FileServer).
  change (slept (trace rho n (makeServer cfg))) with (@nil Z).
  change (fatals (trace rho n (makeServer cfg))) with (@nil string).
  cbn [app length].
  rewrite IHres, IHlen, IHstart, IHslept, IHfat.
  split; [reflexivity |]. split; [reflexivity |]. split; [reflexivity |].
  split; [rewrite fmap_app, fmap_cons, IHports; reflexivity |].
  split; [rewrite fmap_app, fmap_cons, IHpeers; reflexivity |].
  split; reflexivity.
Qed.

Lemma assignAll_keeps (pairs : list (string * FileServer)) (key : string)
      (server : FileServer) :
  forall servers : gmap string FileServer,
    servers !! key = Some server -> key ∉ pairs.*1 ->
    assignAll pairs servers !! key = Some server.
Proof.
  unfold assignAll.
  induction pairs as [| [k s] pairs IH]; intros servers Hm Hnot; [exact Hm |].
  cbn [foldl fst snd]. apply IH.
  - rewrite lookup_insert_ne; [exact Hm |].
    intros ->. apply Hnot. cbn. apply elem_of_cons. left. reflexivity.
  - intros Hin. apply Hnot. cbn. apply elem_of_cons. right. exact Hin.
Qed.

(** Where a key was assigned last, the map holds that value. *)
Lemma assignAll_last (before after : list (string * FileServer)) (key : string)
      (server : FileServer) (servers : gmap string FileServer) :
  key ∉ after.*1 ->
  assignAll (before ++ (key, server) :: after) servers !! key = Some server.
Proof.
  intros Hnot. unfold assignAll. rewrite foldl_app. cbn [foldl fst snd].
  apply (assignAll_keeps after key server); [apply lookup_insert_eq | exact Hnot].
Qed.

Lemma assignAll_dom (pairs : list (string * FileServer)) (servers : gmap string FileServer) :
  dom (assignAll pairs servers) = dom servers ∪ list_to_set pairs.*1.
Proof.
  unfold assignAll. revert servers.
  induction pairs as [| [k s] pairs IH]; intros servers.
  - cbn. apply set_eq. intros x. rewrite elem_of_union, elem_of_empty. tauto.
  - cbn [foldl fst snd]. rewrite IH, dom_insert_L. cbn [fmap list_fmap list_to_set fst].
    apply set_eq. intros x. rewrite !elem_of_union, elem_of_singleton. tauto.
Qed.

Section SetupFacts.
Context `{Runtime}.

Lemma loadConfig_builds_nothing (path : string) (rho : Env) (n : nat) :
  serversBuilt (trace rho n (loadConfig path)) = [] /\
  transportsBuilt (trace rho n (loadConfig path)) = [] /\
  serversMade (trace rho n (loadConfig path)) = [] /\
  started (trace rho n (loadConfig path)) = [] /\
  keysDrawn (trace rho n (loadConfig path)) = [] /\
  slept (trace rho n (loadConfig path)) = [] /\
  fatals (trace rho n (loadConfig path)) = [] /\
  opened (trace rho n (loadConfig path)) = [path].
Proof.
  unfold loadConfig, trace. simpl.
  destruct (rho n _ (OsOpen path)) as [file | err]; simpl; [| repeat split].
  destruct (rho (S n) _ (JsonDecode file)) as [v | err]; repeat split.
Qed.

Lemma completeServerSetup_unfold (rho : Env) (n : nat) :
  let path := rho n _ (FlagString "config" "startServerConfig.json"
                         "path of config file to create servers") in
  let loaded := result rho (S n) (loadConfig path) in
  let m := (S n + length (trace rho (S n) (loadConfig path)))%nat in
  trace rho n completeServerSetup =
    Step (FlagString "config" "startServerConfig.json"
            "path of config file to create servers") path
    :: trace rho (S n) (loadConfig path)
    ++ match loaded.2 with
       | Some err =>
           [Step (LogFatal ("Error loading config file" +:+ err))
                 (rho m _ (LogFatal ("Error loading config file" +:+ err)))]
       | None => trace rho m (startServers loaded.1 ∅)
       end /\
  result rho n completeServerSetup =
    match loaded.2 with
    | Some _ => Exits 1
    | None => Returns (result rho m (startServers loaded.1 ∅))
    end.
Proof.
  intros path loaded m. unfold completeServerSetup.
  change (configPath <- call (FlagString "config" "startServerConfig.json"
                                "path of config file to create servers") ;;
          r <- loadConfig configPath ;;
          match r with
          | (_, Some err) =>
              call (LogFatal ("Error loading config file" +:+ err)) ;;; Ret (Exits 1)
          | (configs, None) =>
              servers <- startServers configs ∅ ;; Ret (Returns servers)
          end)
    with (Vis (FlagString "config" "startServerConfig.json"
                 "path of config file to create servers")
            (fun configPath =>
               r <- loadConfig configPath ;;
               match r with
               | (_, Some err) =>
                   call (LogFatal ("Error loading config file" +:+ err)) ;;; Ret (Exits 1)
               | (configs, None) =>
                   servers <- startServers configs ∅ ;; Ret (Returns servers)
               end)).
  rewrite trace_vis, result_vis, trace_bind, result_bind.
  fold path. fold loaded. fold m.
  destruct loaded as [configs [err |]]; cbn [fst snd].
  - split; reflexivity.
  - rewrite trace_bind, result_bind. cbn [trace result run fst snd].
    rewrite app_nil_r. split; reflexivity.
Qed.

(** X1. When the configuration cannot be loaded, [completeServerSetup] ends
    the process through [log.Fatal] with status 1; the message is the text
    [Error loading config file] directly followed by the error, with nothing
    in between; no transport and no server is built or started and no key
    is drawn. The file it tried is the value of the [-config] flag. *)
Theorem completeServerSetup_load_failure (rho : Env) (n : nat) (err : string) :
  let path := rho n _ (FlagString "config" "startServerConfig.json"
                         "path of config file to create servers") in
  (result rho (S n) (loadConfig path)).2 = Some err ->
  result rho n completeServerSetup = Exits 1 /\
  fatals (trace rho n completeServerSetup) = ["Error loading config file" +:+ err] /\
  opened (trace rho n completeServerSetup) = [path] /\
  transportsBuilt (trace rho n completeServerSetup) = [] /\
  serversBuilt (trace rho n completeServerSetup) = [] /\
  started (trace rho n completeServerSetup) = [] /\
  keysDrawn (trace rho n completeServerSetup) = [].
Proof.
  intros path Herr.
  destruct (completeServerSetup_unfold rho n) as [Htr Hres].
  fold path in Htr, Hres. rewrite Htr, Hres, Herr.
  destruct (loadConfig_builds_nothing path rho (S n))
    as (Hb & Ht & _ & Hs & Hk & _ & Hf & Ho).
  cbn [fatals opened transportsBuilt serversBuilt started keysDrawn].
  rewrite fatals_app, opened_app, transportsBuilt_app, serversBuilt_app,
          started_app, keysDrawn_app, Hb, Ht, Hs, Hk, Hf, Ho.
  repeat split.
Qed.

(** X2. When the configuration loads, [completeServerSetup] builds one
    server per entry, in order, each on the entry's listen address and
    bootstrap list, launches every one of them and pauses 50 ms after each;
    it calls [log.Fatal] nowhere itself. The map it returns is keyed by listen address: it
    is what assigning the servers in order gives, so its keys are the
    addresses of the entries, and of two entries with the same address only
    the later one's server is in the map, though both were started. *)
Theorem completeServerSetup_success (rho : Env) (n : nat) (configs : list ServerConfig) :
  let path := rho n _ (FlagString "config" "startServerConfig.json"
                         "path of config file to create servers") in
  let tr := trace rho n completeServerSetup in
  result rho (S n) (loadConfig path) = (configs, None) ->
  length (serversMade tr) = length configs /\
  started tr = serversMade tr /\
  TCPTransportOps.ListenerPortAddr <$> transportsBuilt tr = ServerConfig.Port <$> configs /\
  FileServerOps.BootstrapNodes <$> serversBuilt tr =
    ServerConfig.BootstrapNodes <$> configs /\
  slept tr = replicate (length configs) 50 /\
  fatals tr = [] /\
  exists servers : gmap string FileServer,
    result rho n completeServerSetup = Returns servers /\
    servers = assignAll (zip (ServerConfig.Port <$> configs) (serversMade tr)) ∅ /\
    dom servers = list_to_set (ServerConfig.Port <$> configs) /\
    (forall (i : nat) (cfg : ServerConfig) (server : FileServer),
        configs !! i = Some cfg -> serversMade tr !! i = Some server ->
        ServerConfig.Port cfg ∉ ServerConfig.Port <$> drop (S i) configs ->
        servers !! ServerConfig.Port cfg = Some server).
Proof.
  intros path tr Hload.
  destruct (completeServerSetup_unfold rho n) as [Htr Hres].
  fold path in Htr, Hres. rewrite Hload in Htr, Hres. cbn [fst snd] in Htr, Hres.
  destruct (loadConfig_builds_nothing path rho (S n))
    as (Hb & Ht & Hm & Hs & _ & Hz & Hf & _).
  destruct (startServers_run configs ∅ rho
              (S n + length (trace rho (S n) (loadConfig path))))
    as (Sres & Slen & Sstart & Sports & Speers & Sslept & Sfat).
  assert (Hmade : serversMade tr =
                  serversMade (trace rho (S n + length (trace rho (S n) (loadConfig path)))
                                 (startServers configs ∅))).
  { unfold tr. rewrite Htr. cbn [serversMade]. rewrite serversMade_app, Hm. reflexivity. }
  rewrite Hmade. unfold tr. rewrite Htr.
  cbn [started transportsBuilt serversBuilt slept fatals].
  rewrite started_app, transportsBuilt_app, serversBuilt_app, slept_app, fatals_app,
          Hb, Ht, Hs, Hz, Hf.
  cbn [app]. rewrite Slen, Sstart, <- Sports, <- Speers, Sslept, Sfat.
  repeat (split; [reflexivity |]).
  eexists. split; [exact Hres |]. split; [exact Sres |].
  assert (Hlen : length (ServerConfig.Port <$> configs) =
                 length (serversMade (trace rho (S n + length (trace rho (S n) (loadConfig path)))
                                        (startServers configs ∅))))
    by (rewrite Slen, length_fmap; reflexivity).
  split.
  - rewrite Sres, assignAll_dom, dom_empty_L, fst_zip by (rewrite Hlen; reflexivity).
    apply set_eq. intros x. rewrite elem_of_union, elem_of_empty. tauto.
  - intros i cfg server Hcfg Hsrv Hlast. rewrite Sres.
    rewrite <- (take_drop_middle configs i cfg Hcfg) at 1.
    rewrite <- (take_drop_middle _ i server Hsrv).
    rewrite fmap_app, fmap_cons.
    rewrite zip_with_app by
      (rewrite length_fmap, !length_take, Slen; reflexivity).
    cbn [zip_with]. apply assignAll_last.
    rewrite fst_zip; [exact Hlast |].
    rewrite length_fmap, !length_drop, Slen. reflexivity.
Qed.
End SetupFacts.

Lemma completeServerSetup_load_failure_witness :
  result noSuchFile 0 (completeServerSetup (H := Posix.runtime)) = Exits 1 /\
  fatals (trace noSuchFile 0 (completeServerSetup (H := Posix.runtime))) =
    ["Error loading config fileopen startServerConfig.json: no such file or directory"] /\
  started (trace noSuchFile 0 (completeServerSetup (H := Posix.runtime))) = [].
Proof.
  destruct (completeServerSetup_load_failure (H := Posix.runtime) noSuchFile 0
              "open startServerConfig.json: no such file or directory" eq_refl)
    as (Hres & Hfatal & _ & _ & _ & Hstart & _).
  split; [exact Hres |]. split; [exact Hfatal | exact Hstart].
Defined.

Lemma completeServerSetup_success_witness :
  started (trace (Posix.decoding Posix.sampleConfig) 0
             (completeServerSetup (H := Posix.runtime))) = [2%nat; 2%nat] /\
  slept (trace (Posix.decoding Posix.sampleConfig) 0
           (completeServerSetup (H := Posix.runtime))) = [50; 50] /\
  exists servers : gmap string FileServer,
    result (Posix.decoding Posix.sampleConfig) 0 (completeServerSetup (H := Posix.runtime)) =
      Returns servers /\
    dom servers = {[":3000"; ":3001"]}.
Proof.
  destruct (completeServerSetup_success (H := Posix.runtime)
              (Posix.decoding Posix.sampleConfig) 0
              [ {| ServerConfig.Port := ":3000"; ServerConfig.BootstrapNodes := [] |};
                {| ServerConfig.Port := ":3001"; ServerConfig.BootstrapNodes := [":3000"] |} ]
              eq_refl)
    as (_ & Hstart & _ & _ & Hslept & _ & servers & Hres & _ & Hdom & _).
  split; [exact Hstart |]. split; [exact Hslept |].
  exists servers. split; [exact Hres |]. rewrite Hdom.
  cbn [fmap list_fmap list_to_set ServerConfig.Port].
  apply set_eq. intros x. rewrite !elem_of_union, !elem_of_singleton, elem_of_empty. tauto.
Defined.

(** ** makeServer *)

Lemma transportsMade_app (tr1 tr2 : list Step') :
  transportsMade (tr1 ++ tr2) = transportsMade tr1 ++ transportsMade tr2.
Proof.
  induction tr1 as [| [X e x] tr1 IH]; simpl; [reflexivity |].
  destruct e; simpl; rewrite IH; reflexivity.
Qed.

Lemma onPeerSet_app (tr1 tr2 : list Step') :
  onPeerSet (tr1 ++ tr2) = onPeerSet tr1 ++ onPeerSet tr2.
Proof.
  induction tr1 as [| [X e x] tr1 IH]; simpl; [reflexivity |].
  destruct e; simpl; rewrite IH; reflexivity.
Qed.

Lemma occurs_append (c : ascii) (a b : string) :
  occurs c (a +:+ b) = occurs c a || occurs c b.
Proof.
  induction a as [| x a IH]; [reflexivity |].
  change (occurs c (String x a +:+ b)) with (Ascii.eqb c x || occurs c (a +:+ b)).
  rewrite IH. cbn [occurs]. apply orb_assoc.
Qed.

Lemma length_append (a b : string) :
  String.length (a +:+ b) = (String.length a + String.length b)%nat.
Proof.
  induction a as [| x a IH]; [reflexivity |].
  change (S (String.length (a +:+ b)) = S (String.length a + String.length b)).
  rewrite IH. reflexivity.
Qed.

Lemma ReplaceAll_colon_free (s : string) :
  occurs colon (ReplaceAll s ":" "_") = false /\
  String.length (ReplaceAll s ":" "_") = String.length s.
Proof.
  induction s as [| c s [IHo IHl]]; [split; reflexivity |].
  rewrite ReplaceAll_colon_cons. cbn [occurs String.length]. rewrite IHo, IHl.
  split; [| reflexivity]. rewrite orb_false_r.
  destruct (Ascii.eqb c colon) eqn:Hc; [reflexivity |].
  rewrite Ascii.eqb_sym. exact Hc.
Qed.

Section MakeServerFacts.
Context `{Runtime}.

(** X3. Every server that the loop over the configuration builds is wired
    to a transport of its own: the transport is built with no [OnPeer]
    callback, the file server is built on the transport that
    [p2p.NewTCPTransport] just returned, and that transport's [OnPeer] is
    then set to the server that [NewFileServer] returned, one assignment
    per server and in the order of the configuration. *)
Theorem startServers_wires_each_transport (configs : list ServerConfig) :
  forall (servers : gmap string FileServer) (rho : Env) (n : nat),
    let tr := trace rho n (startServers configs servers) in
    length (transportsMade tr) = length configs /\
    TCPTransportOps.OnPeer <$> transportsBuilt tr = replicate (length configs) None /\
    FileServerOps.Transort <$> serversBuilt tr = transportsMade tr /\
    onPeerSet tr = zip (transportsMade tr) (Some <$> serversMade tr).
Proof.
  induction configs as [| cfg rest IH]; intros servers rho n tr; [repeat split |].
  destruct (startServers_unfold cfg rest servers rho n) as [Htr _].
  destruct (IH (<[ServerConfig.Port cfg := result rho n (makeServer cfg)]> servers)
               rho (6 + n)%nat) as (IHlen & IHnil & IHon & IHset).
  unfold tr. rewrite Htr.
  rewrite transportsMade_app, transportsBuilt_app, serversBuilt_app, onPeerSet_app,
          serversMade_app, !fmap_app.
  cbn [transportsMade transportsBuilt serversBuilt onPeerSet serversMade].
  rewrite IHnil, IHon, IHset, length_app, IHlen.
  repeat split.
Qed.

(** X4. The storage root of every server is a name without a colon, as long
    as the listen address and seven bytes more: each colon of the address
    has become an underscore and [_gyattt] follows. *)
Theorem storage_roots_hold_no_colon (configs : list ServerConfig) :
  forall (servers : gmap string FileServer) (rho : Env) (n : nat),
    Forall2 (fun cfg root =>
               occurs colon root = false /\
               String.length root = (String.length (ServerConfig.Port cfg) + 7)%nat /\
               root = ReplaceAll (ServerConfig.Port cfg) ":" "_" +:+ "_gyattt")
            configs (storageRoots (trace rho n (startServers configs servers))).
Proof.
  induction configs as [| cfg rest IH]; intros servers rho n; [constructor |].
  destruct (startServers_unfold cfg rest servers rho n) as [Htr _].
  rewrite Htr. unfold storageRoots. rewrite serversBuilt_app, fmap_app.
  cbn [serversBuilt]. apply Forall2_cons. split; [| apply IH].
  cbn [FileServerOps.RootStorage].
  destruct (ReplaceAll_colon_free (ServerConfig.Port cfg)) as [Hfree Hlen].
  rewrite occurs_append, length_append, Hfree, Hlen. repeat split.
Qed.
End MakeServerFacts.

(** ** The command loop, line by line *)

Lemma readAlls_app (tr1 tr2 : list Step') :
  readAlls (tr1 ++ tr2) = readAlls tr1 ++ readAlls tr2.
Proof.
  induction tr1 as [| [X e x] tr1 IH]; simpl; [reflexivity |].
  destruct e; simpl; rewrite IH; reflexivity.
Qed.

Lemma filesOpened_app (tr1 tr2 : list Step') :
  filesOpened (tr1 ++ tr2) = filesOpened tr1 ++ filesOpened tr2.
Proof.
  induction tr1 as [| [X e x] tr1 IH]; simpl; [reflexivity |].
  destruct e; simpl; try (rewrite IH; reflexivity).
  destruct x; simpl; rewrite IH; reflexivity.
Qed.

(** Follows a program along every answer of the environment. *)
Ltac walk :=
  unfold trace, result;
  repeat (cbn [bind call run fst snd];
          match goal with
          | |- context [match ?x with _ => _ end] =>
              lazymatch x with
              | context [@run] => fail
              | _ => destruct x eqn:?
              end
          end);
  cbn [bind call run fst snd].

Lemma Sprintln_line (operands : list string) :
  occurs lineFeed (Sprintln operands) = true.
Proof. unfold Sprintln. rewrite occurs_append. apply orb_true_r. Qed.

Lemma SprintlnSlice_line (elems : list string) :
  occurs lineFeed (SprintlnSlice elems) = true.
Proof. unfold SprintlnSlice. rewrite !occurs_append, !orb_true_r. reflexivity. Qed.

Lemma prompts_app (tr1 tr2 : list Step') :
  prompts (tr1 ++ tr2) = (prompts tr1 + prompts tr2)%nat.
Proof. unfold prompts. rewrite printed_app, filter_app, length_app. reflexivity. Qed.

Lemma prompts_lines (tr : list Step') :
  Forall (fun s => occurs lineFeed s = true) (printed tr) -> prompts tr = O.
Proof.
  unfold prompts. induction (printed tr) as [| s l IH]; intros Hall; [reflexivity |].
  apply Forall_cons in Hall as [Hs Hl].
  rewrite filter_cons_False; [exact (IH Hl) |].
  intros Heq. apply Is_true_true, String.eqb_eq in Heq. subst s. discriminate Hs.
Qed.

Section LoopFacts.
Context `{Runtime}.
Variable fs : FileServer.

(** What one pass through the body of the loop does, whatever the line. *)
Lemma loopBody_summary (line : string) (deferred : list File) (rho : Env) (n : nat) :
  let tr := trace rho n (loopBody fs line deferred) in
  let r := result rho n (loopBody fs line deferred) in
  (length (fsCalls tr) <= 1)%nat /\
  Forall (fun c => serverOf c = fs) (fsCalls tr) /\
  closed tr = [] /\
  Forall (fun s => occurs lineFeed s = true) (printed tr) /\
  r.2 = rev (filesOpened tr) ++ deferred /\
  (r.1 = Continue /\ fatals tr = [] \/
   r.1 = Leave (Returns tt) /\ fatals tr = [] \/
   r.1 = Leave Panics /\ fatals tr = [] \/
   r.1 = Leave (Exits 1) /\ exists e, fatals tr = ["Error reading data " +:+ e]).
Proof.
  intros tr r. subst tr r. unfold loopBody.
  destruct (Fields line) as [| a0 rest];
    [cbn; split; [lia |]; split; [constructor |]; split; [reflexivity |];
     split; [constructor |]; split; [reflexivity |]; left; split; reflexivity |].
  cbn [length Nat.eqb arg nth].
  unfold caseStore, caseGet, caseDelete, caseDeleteLocal, caseDeleteRemote, caseHelp,
         caseQuit, caseDefault, println, afterSwitch.
  walk; cbn [fsCalls closed filesOpened fatals printed length app rev serverOf];
    (split; [lia |]); (split; [repeat constructor |]);
    (split; [reflexivity |]);
    (split; [repeat constructor; first [apply Sprintln_line | apply SprintlnSlice_line] |]);
    (split; [reflexivity |]);
    first [ left; split; reflexivity
          | right; left; split; reflexivity
          | right; right; left; split; reflexivity
          | right; right; right; split; [reflexivity | eexists; reflexivity] ].
Qed.

(** The body leaves the loop on [quit], and on a [get] of a name without
    extension whose content cannot be read; on nothing else. *)
Lemma loopBody_leaves (line : string) (deferred : list File) (rho : Env) (n : nat)
      (o : outcome unit) :
  (result rho n (loopBody fs line deferred)).1 = Leave o ->
  exists (a0 : string) (rest : list string),
    Fields line = a0 :: rest /\
    (ToLower a0 = "quit" /\ o = Returns tt \/
     ToLower a0 = "get" /\ o <> Returns tt).
Proof.
  unfold loopBody.
  destruct (Fields line) as [| a0 rest]; [discriminate |].
  cbn [length Nat.eqb arg nth]. intros Hleave. exists a0, rest. split; [reflexivity |].
  destruct (String.eqb (ToLower a0) "store") eqn:Hstore.
  { revert Hleave. unfold caseStore, println, afterSwitch. walk; discriminate. }
  destruct (String.eqb (ToLower a0) "get") eqn:Hget.
  { apply String.eqb_eq in Hget. right. split; [exact Hget |].
    revert Hleave. unfold caseGet, println, afterSwitch.
    walk; intros Heq; try discriminate Heq; injection Heq as <-; discriminate. }
  destruct (String.eqb (ToLower a0) "delete").
  { revert Hleave. unfold caseDelete, println, afterSwitch. walk; discriminate. }
  destruct (String.eqb (ToLower a0) "deletelocal").
  { revert Hleave. unfold caseDeleteLocal, println, afterSwitch. walk; discriminate. }
  destruct (String.eqb (ToLower a0) "deleteremote").
  { revert Hleave. unfold caseDeleteRemote, println, afterSwitch. walk; discriminate. }
  destruct (String.eqb (ToLower a0) "help").
  { revert Hleave. unfold caseHelp, println. walk; discriminate. }
  destruct (String.eqb (ToLower a0) "quit") eqn:Hquit.
  { apply String.eqb_eq in Hquit. left. split; [exact Hquit |].
    revert Hleave. unfold caseQuit, println. walk. intros Heq. injection Heq as <-.
    reflexivity. }
  revert Hleave. unfold caseDefault, println, afterSwitch. walk; discriminate.
Qed.

Lemma runDeferred_opens_nothing (deferred : list File) (rho : Env) (n : nat) :
  filesOpened (trace rho n (runDeferred deferred)) = [] /\
  length (trace rho n (runDeferred deferred)) = length deferred.
Proof.
  revert n. induction deferred as [| f rest IH]; intros n; [split; reflexivity |].
  destruct (IH (S n)) as [Ho Hl].
  change (runDeferred (f :: rest)) with (Vis (FileClose f) (fun _ => runDeferred rest)).
  rewrite trace_vis. cbn [filesOpened length]. rewrite Ho, Hl. split; reflexivity.
Qed.

Lemma commandLoop_nil (deferred : list File) (rho : Env) (n : nat) :
  trace rho n (commandLoop fs [] deferred) =
    Step (Print ">>> ") (rho n _ (Print ">>> ")) :: trace rho (S n) (runDeferred deferred) /\
  result rho n (commandLoop fs [] deferred) = Returns tt.
Proof.
  change (commandLoop fs [] deferred)
    with (Vis (Print ">>> ") (fun _ => runDeferred deferred ;;; Ret (Returns tt))).
  rewrite trace_vis, result_vis, trace_bind, result_bind.
  cbn [trace result run fst snd]. rewrite app_nil_r. split; reflexivity.
Qed.

(** What a run of the loop does, whatever standard input holds. *)
Lemma commandLoop_summary (stdin : list string) :
  forall (deferred : list File) (rho : Env) (n : nat),
    let tr := trace rho n (commandLoop fs stdin deferred) in
    (length (fsCalls tr) <= length stdin)%nat /\
    Forall (fun c => serverOf c = fs) (fsCalls tr) /\
    match result rho n (commandLoop fs stdin deferred) with
    | Exits code =>
        code = 1 /\ closed tr = [] /\
        exists e, fatals tr = ["Error reading data " +:+ e]
    | _ =>
        fatals tr = [] /\
        exists before,
          closed before = [] /\
          tr = before ++ trace rho (n + length before)
                           (runDeferred (rev (filesOpened before) ++ deferred))
    end.
Proof.
  induction stdin as [| line rest IH]; intros deferred rho n tr.
  - destruct (commandLoop_nil deferred rho n) as [Htr Hres].
    destruct (runDeferred_closes deferred rho (S n)) as (_ & _ & Hcalls & Hfatal).
    unfold tr. rewrite Htr, Hres. cbn [fsCalls fatals]. rewrite Hcalls, Hfatal.
    split; [cbn; lia |]. split; [constructor |]. split; [reflexivity |].
    exists [Step (Print ">>> ") (rho n _ (Print ">>> "))].
    split; [reflexivity |]. cbn [length filesOpened rev app].
    replace (n + 1)%nat with (S n) by lia. reflexivity.
  - pose proof (commandLoop_cons fs line rest deferred rho n) as Htr.
    pose proof (commandLoop_cons_result fs line rest deferred rho n) as Hres.
    destruct (loopBody_summary line deferred rho (S n))
      as (Hone & Hon & Hclosed & _ & Hdeferred & Hout).
    set (body := trace rho (S n) (loopBody fs line deferred)) in *.
    destruct (result rho (S n) (loopBody fs line deferred)) as [c d'].
    cbn [fst snd] in Hdeferred, Hout. subst d'.
    unfold tr. rewrite Htr, Hres. clear Htr Hres. unfold afterBody.
    destruct Hout as [[-> Hfatal] | [[-> Hfatal] | [[-> Hfatal] | [-> [e Hfatal]]]]].
    + specialize (IH (rev (filesOpened body) ++ deferred) rho (S n + length body)%nat).
      cbn zeta in IH. destruct IH as (IHone & IHon & IHout).
      set (tail := trace rho (S n + length body)
                     (commandLoop fs rest (rev (filesOpened body) ++ deferred))) in *.
      cbn [fsCalls]. rewrite fsCalls_app, length_app.
      split; [cbn [length]; lia |]. split; [apply Forall_app; split; assumption |].
      destruct (result rho (S n + length body)
                  (commandLoop fs rest (rev (filesOpened body) ++ deferred))) as [[] | code |].
      * destruct IHout as (IHfatal & before & Hbefore & Htail).
        cbn [fatals]. rewrite fatals_app, Hfatal, IHfatal.
        split; [reflexivity |].
        exists (Step (Print ">>> ") (rho n _ (Print ">>> ")) :: body ++ before).
        cbn [closed filesOpened]. rewrite closed_app, filesOpened_app, Hclosed, Hbefore.
        split; [reflexivity |].
        rewrite rev_app_distr, <- app_assoc.
        rewrite Htail at 1. cbn [app length]. rewrite <- app_assoc, length_app.
        do 3 f_equal.
        match goal with |- trace _ ?a ?p = trace _ ?b _ =>
          apply (f_equal (fun m => trace rho m p)) end.
        rewrite Nat.add_succ_r, Nat.add_assoc. reflexivity.
      * destruct IHout as (-> & IHclosed & e & IHfatal).
        cbn [closed fatals]. rewrite closed_app, fatals_app, Hclosed, IHclosed, Hfatal, IHfatal.
        split; [reflexivity |]. split; [reflexivity |]. exists e. reflexivity.
      * destruct IHout as (IHfatal & before & Hbefore & Htail).
        cbn [fatals]. rewrite fatals_app, Hfatal, IHfatal.
        split; [reflexivity |].
        exists (Step (Print ">>> ") (rho n _ (Print ">>> ")) :: body ++ before).
        cbn [closed filesOpened]. rewrite closed_app, filesOpened_app, Hclosed, Hbefore.
        split; [reflexivity |].
        rewrite rev_app_distr, <- app_assoc.
        rewrite Htail at 1. cbn [app length]. rewrite <- app_assoc, length_app.
        do 3 f_equal.
        match goal with |- trace _ ?a ?p = trace _ ?b _ =>
          apply (f_equal (fun m => trace rho m p)) end.
        rewrite Nat.add_succ_r, Nat.add_assoc. reflexivity.
    + destruct (runDeferred_closes (rev (filesOpened body) ++ deferred) rho
                  (S n + length body)%nat) as (_ & _ & Hcalls & Hfatal').
      cbn [fsCalls fatals]. rewrite fsCalls_app, fatals_app, Hcalls, Hfatal, Hfatal', app_nil_r.
      split; [cbn [length]; lia |]. split; [exact Hon |]. split; [reflexivity |].
      exists (Step (Print ">>> ") (rho n _ (Print ">>> ")) :: body).
      cbn [closed filesOpened length]. split; [exact Hclosed |].
      rewrite Nat.add_succ_r. reflexivity.
    + destruct (runDeferred_closes (rev (filesOpened body) ++ deferred) rho
                  (S n + length body)%nat) as (_ & _ & Hcalls & Hfatal').
      cbn [fsCalls fatals]. rewrite fsCalls_app, fatals_app, Hcalls, Hfatal, Hfatal', app_nil_r.
      split; [cbn [length]; lia |]. split; [exact Hon |]. split; [reflexivity |].
      exists (Step (Print ">>> ") (rho n _ (Print ">>> ")) :: body).
      cbn [closed filesOpened length]. split; [exact Hclosed |].
      rewrite Nat.add_succ_r. reflexivity.
    + cbn [fsCalls fatals closed]. rewrite !app_nil_r, Hfatal, Hclosed.
      split; [cbn [length]; lia |]. split; [exact Hon |].
      split; [reflexivity |]. split; [reflexivity |]. exists e. reflexivity.
Qed.
End LoopFacts.

Lemma prefix_comma (c : ascii) (s : string) :
  String.prefix "," (String c s) = Ascii.eqb c comma.
Proof.
  change (String.prefix "," (String c s))
    with (if ascii_dec "," c then String.prefix EmptyString s else false).
  destruct (ascii_dec "," c) as [Heq | Hne].
  - subst c. destruct s; reflexivity.
  - symmetry. apply Ascii.eqb_neq. intros Heq. apply Hne. symmetry. exact Heq.
Qed.

Lemma Join_cons (a : string) (elems : list string) (sep : string) :
  elems <> [] -> Join (a :: elems) sep = a +:+ sep +:+ Join elems sep.
Proof. destruct elems; [intros Hne; destruct Hne; reflexivity | reflexivity]. Qed.

(** Splitting at the commas: [cur] is the piece being collected. *)
Lemma splitFrom_comma (s : string) :
  forall cur : string,
    occurs comma cur = false ->
    Join (splitFrom O s "," cur) "," = cur +:+ s /\
    length (splitFrom O s "," cur) = S (countByte comma s) /\
    Forall (fun piece => occurs comma piece = false) (splitFrom O s "," cur).
Proof.
  induction s as [| c s IH]; intros cur Hcur.
  - cbn [splitFrom Join countByte length]. rewrite append_empty_r.
    repeat split. repeat constructor. exact Hcur.
  - cbn [splitFrom]. rewrite prefix_comma. cbn [String.length Nat.sub countByte].
    rewrite Ascii.eqb_sym.
    destruct (Ascii.eqb comma c) eqn:Hc.
    + apply Ascii.eqb_eq in Hc. subst c.
      destruct (IH EmptyString eq_refl) as (Hjoin & Hlen & Hall).
      rewrite Join_cons by (intros Hnil; rewrite Hnil in Hlen; discriminate Hlen).
      rewrite Hjoin. cbn [length]. rewrite Hlen.
      split; [reflexivity |]. split; [reflexivity |].
      constructor; assumption.
    + assert (Hcur' : occurs comma (cur +:+ String c EmptyString) = false).
      { rewrite occurs_append, Hcur. cbn [occurs]. rewrite Hc. reflexivity. }
      destruct (IH _ Hcur') as (Hjoin & Hlen & Hall).
      rewrite Hjoin, Hlen, append_assoc.
      split; [reflexivity |]. split; [reflexivity |]. exact Hall.
Qed.

Section LoopTheorems.
Context `{Runtime}.
Variable fs : FileServer.

(** X5. [store] of a path that cannot be opened: the words are echoed, the
    error of [os.Open] goes to [log.Println], and the loop goes on to the
    next line at once; the file server is not called, no [Close] is
    deferred and neither pause is made. *)
Theorem store_of_unopenable_path
  (line c path : string) (deferred : list File) (rho : Env) (n : nat) (err : error) :
  let tr := trace rho n (loopBody fs line deferred) in
  Fields line = [c; path] -> ToLower c = "store" ->
  rho (S n) _ (OsOpen path) = inr err ->
  printed tr = [SprintlnSlice [c; path]] /\
  opened tr = [path] /\
  logged tr = [err] /\
  fsCalls tr = [] /\
  slept tr = [] /\
  length tr = 3%nat /\
  result rho n (loopBody fs line deferred) = (Continue, deferred).
Proof.
  intros tr HF Hc Hopen. unfold tr.
  destruct (loopBody_switch fs line c [path] deferred HF) as (Hstore & _).
  rewrite (Hstore Hc). unfold caseStore, trace, result.
  cbn [length Nat.eqb negb arg nth bind call run fst snd]. rewrite Hopen.
  repeat split.
Qed.

(** X6. [get] of a name with an extension: the file server is asked for
    the name, one line reports the location or the error, and the reader is
    left alone: [io.ReadAll] is not called, so the command can neither
    end the process nor panic, whatever [Get] returned. *)
Theorem get_with_extension_reads_nothing
  (line c name : string) (deferred : list File) (rho : Env) (n : nat) :
  let tr := trace rho n (loopBody fs line deferred) in
  Fields line = [c; name] -> ToLower c = "get" ->
  getExtension name <> EmptyString ->
  fsCalls tr = [CallGet fs name] /\
  readAlls tr = [] /\
  fatals tr = [] /\
  printed tr =
    [match (rho n _ (FsGet fs name)).2 with
     | Some e => Sprintln ["Error getting file:"; e]
     | None => Sprintln ["File stored at:"; (rho n _ (FsGet fs name)).1.2]
     end] /\
  slept tr = [50] /\
  result rho n (loopBody fs line deferred) = (Continue, deferred).
Proof.
  intros tr HF Hc Hext. unfold tr.
  destruct (loopBody_switch fs line c [name] deferred HF) as (_ & Hget & _).
  rewrite (Hget Hc). unfold caseGet, println, afterSwitch, trace, result.
  cbn [length Nat.eqb negb arg nth].
  destruct (getExtension name) as [| x ext]; [destruct Hext; reflexivity |].
  cbn [String.length Nat.eqb bind call run fst snd].
  destruct (rho n _ (FsGet fs name)) as [[rd fileLoc] [e |]]; repeat split.
Qed.


(** X8. The files that [store] opened stay open while the loop runs: no pass
    through the loop closes one. When the function returns or panics, the
    deferred [Close] calls run as its last calls, once for each opened
    file, the last opened first; when [log.Fatal] ends the process none of
    them runs. *)
Theorem deferred_closes_run_at_the_end (stdin : list string) (rho : Env) (n : nat) :
  let tr := trace rho n (runCommandLoop fs stdin) in
  match result rho n (runCommandLoop fs stdin) with
  | Exits _ => closed tr = []
  | _ =>
      closed tr = rev (filesOpened tr) /\
      exists before,
        closed before = [] /\
        tr = before ++ trace rho (n + length before) (runDeferred (rev (filesOpened before)))
  end.
Proof.
  intros tr. destruct (commandLoop_summary fs stdin [] rho n) as (_ & _ & Hout).
  fold tr in Hout. unfold runCommandLoop in *.
  assert (Hend : forall before,
             closed before = [] ->
             tr = before ++ trace rho (n + length before)
                              (runDeferred (rev (filesOpened before) ++ [])) ->
             closed tr = rev (filesOpened tr) /\
             exists before',
               closed before' = [] /\
               tr = before' ++ trace rho (n + length before')
                                 (runDeferred (rev (filesOpened before')))).
  { intros before Hbefore Htr. rewrite app_nil_r in Htr. split.
    - destruct (runDeferred_closes (rev (filesOpened before)) rho (n + length before))
        as (Hclosed & _).
      destruct (runDeferred_opens_nothing (rev (filesOpened before)) rho (n + length before))
        as (Hopened & _).
      rewrite Htr, closed_app, filesOpened_app, Hbefore, Hclosed, Hopened, app_nil_r.
      reflexivity.
    - exists before. split; assumption. }
  destruct (result rho n (commandLoop fs stdin [])) as [[] | code |].
  - destruct Hout as (_ & before & Hbefore & Htr). exact (Hend before Hbefore Htr).
  - destruct Hout as (_ & Hclosed & _). exact Hclosed.
  - destruct Hout as (_ & before & Hbefore & Htr). exact (Hend before Hbefore Htr).
Qed.

(** X9. The loop ends the process in one way only: with status 1, after
    exactly one [log.Fatal] whose message reports a failed read; when it
    returns or panics, [log.Fatal] was not called. *)
Theorem loop_exits_only_on_a_failed_read (stdin : list string) (rho : Env) (n : nat) :
  match result rho n (runCommandLoop fs stdin) with
  | Exits code =>
      code = 1 /\
      exists e, fatals (trace rho n (runCommandLoop fs stdin)) = ["Error reading data " +:+ e]
  | _ => fatals (trace rho n (runCommandLoop fs stdin)) = []
  end.
Proof.
  destruct (commandLoop_summary fs stdin [] rho n) as (_ & _ & Hout).
  unfold runCommandLoop.
  destruct (result rho n (commandLoop fs stdin [])) as [[] | code |].
  - destruct Hout as (Hfatal & _). exact Hfatal.
  - destruct Hout as (Hcode & _ & Hfatal). split; assumption.
  - destruct Hout as (Hfatal & _). exact Hfatal.
Qed.

Lemma commandLoop_reaches_the_end (stdin : list string) :
  forall (deferred : list File) (rho : Env) (n : nat),
    Forall (fun line => forall a0, head (Fields line) = Some a0 ->
                                   ToLower a0 <> "get" /\ ToLower a0 <> "quit") stdin ->
    result rho n (commandLoop fs stdin deferred) = Returns tt /\
    prompts (trace rho n (commandLoop fs stdin deferred)) = S (length stdin).
Proof.
  induction stdin as [| line rest IH]; intros deferred rho n Hall.
  - destruct (commandLoop_nil fs deferred rho n) as [Htr Hres].
    destruct (runDeferred_closes deferred rho (S n)) as (_ & Hprinted & _).
    split; [exact Hres |]. rewrite Htr. unfold prompts. cbn [printed].
    rewrite Hprinted. reflexivity.
  - apply Forall_cons in Hall as [Hline Hrest].
    rewrite commandLoop_cons_result, commandLoop_cons.
    pose proof (loopBody_leaves fs line deferred rho (S n)) as Hleave.
    destruct (loopBody_summary fs line deferred rho (S n)) as (_ & _ & _ & Hlines & _).
    apply prompts_lines in Hlines.
    destruct (result rho (S n) (loopBody fs line deferred)) as [[| o] d'].
    + destruct (IH d' rho (S n + length (trace rho (S n) (loopBody fs line deferred)))%nat
                  Hrest) as [IHres IHprompts].
      split; [exact IHres |].
      change (prompts (?s :: ?l)) with (S (prompts l)).
      rewrite prompts_app, Hlines. cbn [afterBody]. rewrite IHprompts. reflexivity.
    + destruct (Hleave o eq_refl) as (a0 & args & HF & Hcmd).
      destruct (Hline a0) as [Hget Hquit]; [rewrite HF; reflexivity |].
      destruct Hcmd as [[Hq _] | [Hg _]]; contradiction.
Qed.

(** X10. Errors of the file server do not end the loop: when no line is a
    [get] or a [quit], the loop takes every line, with one prompt before
    each and one at the end of standard input, and returns, whatever the
    file server and [os.Open] answer; [log.Fatal] is not called. *)
Theorem loop_survives_file_server_errors (stdin : list string) (rho : Env) (n : nat) :
  Forall (fun line => forall a0, head (Fields line) = Some a0 ->
                                 ToLower a0 <> "get" /\ ToLower a0 <> "quit") stdin ->
  result rho n (runCommandLoop fs stdin) = Returns tt /\
  fatals (trace rho n (runCommandLoop fs stdin)) = [] /\
  prompts (trace rho n (runCommandLoop fs stdin)) = S (length stdin).
Proof.
  intros Hall. unfold runCommandLoop.
  destruct (commandLoop_reaches_the_end stdin [] rho n Hall) as [Hres Hprompts].
  destruct (commandLoop_summary fs stdin [] rho n) as (_ & _ & Hout).
  rewrite Hres in Hout. destruct Hout as [Hfatal _].
  repeat split; assumption.
Qed.

(** X11. Blank lines are skipped: when every line of standard input is
    empty or white space, the loop does nothing but print its prompt, once
    per line and once more before the end of input, and returns. *)
Theorem blank_lines_only_prompt (stdin : list string) :
  forall (rho : Env) (n : nat),
    Forall (fun line => Fields line = []) stdin ->
    printed (trace rho n (runCommandLoop fs stdin)) = replicate (S (length stdin)) ">>> " /\
    length (trace rho n (runCommandLoop fs stdin)) = S (length stdin) /\
    result rho n (runCommandLoop fs stdin) = Returns tt.
Proof.
  unfold runCommandLoop.
  induction stdin as [| line rest IH]; intros rho n Hall; [repeat split |].
  apply Forall_cons in Hall as [Hline Hrest].
  rewrite commandLoop_cons_result, commandLoop_cons, (loopBody_empty fs line [] Hline).
  cbn [trace result run fst snd app length afterBody printed].
  destruct (IH rho (S n + 0)%nat Hrest) as (IHprinted & IHlen & IHres).
  rewrite IHprinted, IHlen.
  repeat split. exact IHres.
Qed.

(** X12. [help] looks its topic up as it was typed: for one of the six
    topics of [helpText] it prints the text of that topic, which begins
    with the name of the command; for every other word, among them [help]
    itself and a topic in upper case, it prints an empty line. Nothing
    else happens, and the pause at the end of the loop body is skipped. *)
Theorem help_prints_the_text_of_the_exact_topic
  (line c topic : string) (deferred : list File) (rho : Env) (n : nat) :
  let tr := trace rho n (loopBody fs line deferred) in
  let text := default EmptyString (helpText !! topic) in
  Fields line = [c; topic] -> ToLower c = "help" ->
  printed tr = [Sprintln [text]] /\
  length tr = 1%nat /\
  result rho n (loopBody fs line deferred) = (Continue, deferred) /\
  (topic ∈ helpTopics -> String.prefix topic text = true) /\
  (topic ∉ helpTopics -> text = EmptyString /\ printed tr = [newline]).
Proof.
  intros tr text HF Hc. unfold tr.
  destruct (loopBody_switch fs line c [topic] deferred HF) as (_ & _ & _ & _ & _ & Hhelp & _).
  rewrite (Hhelp Hc).
  split; [reflexivity |]. split; [reflexivity |]. split; [reflexivity |]. split.
  - intros Hin. unfold helpTopics in Hin.
    repeat (apply elem_of_cons in Hin as [-> | Hin]; [vm_compute; reflexivity |]).
    apply elem_of_nil in Hin. destruct Hin.
  - intros Hout.
    assert (Hnone : helpText !! topic = None)
      by (apply not_elem_of_list_to_map_1; exact Hout).
    change (printed (trace rho n (caseHelp [c; topic] deferred)))
      with [Sprintln [text]].
    unfold text. rewrite Hnone. split; reflexivity.
Qed.

(** X13. [deleteremote] hands the file server the third word cut at its
    commas: the pieces joined by commas give the word back, none of them
    holds a comma, and a word with k commas gives k+1 pieces, the empty
    ones included; no piece is dropped or trimmed. *)
Theorem deleteremote_cuts_the_peer_list_at_commas
  (line c name peers : string) (deferred : list File) (rho : Env) (n : nat) :
  Fields line = [c; name; peers] -> ToLower c = "deleteremote" ->
  exists session : list string,
    fsCalls (trace rho n (loopBody fs line deferred)) = [CallDeleteRemote fs name session] /\
    Join session "," = peers /\
    length session = S (countByte comma peers) /\
    Forall (fun piece => occurs comma piece = false) session.
Proof.
  intros HF Hc.
  destruct (loopBody_switch fs line c [name; peers] deferred HF)
    as (_ & _ & _ & _ & Hremote & _).
  rewrite (Hremote Hc).
  destruct (caseDeleteRemote_run fs c name peers deferred rho n) as [Hcalls _].
  destruct (splitFrom_comma peers EmptyString eq_refl) as (Hjoin & Hlen & Hall).
  exists (Split peers ","). repeat split; assumption.
Qed.
End LoopTheorems.

Lemma store_of_unopenable_path_witness :
  Fields (Runtime := Posix.runtime) "store missing.txt" = ["store"; "missing.txt"] /\
  logged (trace noSuchFile 0 (loopBody (H := Posix.runtime) 0%nat "store missing.txt" [])) =
    ["open missing.txt: no such file or directory"] /\
  fsCalls (trace noSuchFile 0 (loopBody (H := Posix.runtime) 0%nat "store missing.txt" [])) = [] /\
  slept (trace noSuchFile 0 (loopBody (H := Posix.runtime) 0%nat "store missing.txt" [])) = [].
Proof.
  split; [reflexivity |].
  destruct (store_of_unopenable_path (H := Posix.runtime) 0%nat
              "store missing.txt" "store" "missing.txt" [] noSuchFile 0
              "open missing.txt: no such file or directory" eq_refl eq_refl eq_refl)
    as (_ & _ & Hlogged & Hcalls & Hslept & _).
  split; [exact Hlogged |]. split; [exact Hcalls | exact Hslept].
Defined.

Lemma get_with_extension_reads_nothing_witness :
  getExtension (Runtime := Posix.runtime) "notes.txt" = ".txt" /\
  readAlls (trace Posix.failing 0 (loopBody (H := Posix.runtime) 0%nat "get notes.txt" [])) = [] /\
  printed (trace Posix.failing 0 (loopBody (H := Posix.runtime) 0%nat "get notes.txt" [])) =
    [Sprintln ["Error getting file:"; "file not found"]] /\
  result Posix.failing 0 (loopBody (H := Posix.runtime) 0%nat "get notes.txt" []) =
    (Continue, []).
Proof.
  split; [reflexivity |].
  destruct (get_with_extension_reads_nothing (H := Posix.runtime) 0%nat
              "get notes.txt" "get" "notes.txt" [] Posix.failing 0
              eq_refl eq_refl ltac:(discriminate))
    as (_ & Hread & _ & Hprinted & _ & Hres).
  split; [exact Hread |]. split; [exact Hprinted | exact Hres].
Defined.

Lemma loop_survives_file_server_errors_witness :
  printed (trace refusing 0
             (runCommandLoop (H := Posix.runtime) 0%nat ["store a.txt"; "delete a.txt"])) =
    [">>> "; SprintlnSlice ["store"; "a.txt"];
     Sprintln ["Error storing data"; "no peer answered"];
     ">>> "; Sprintln ["Error deleting file:"; "no peer answered"]; ">>> "] /\
  result refusing 0
    (runCommandLoop (H := Posix.runtime) 0%nat ["store a.txt"; "delete a.txt"]) = Returns tt /\
  prompts (trace refusing 0
             (runCommandLoop (H := Posix.runtime) 0%nat ["store a.txt"; "delete a.txt"])) = 3%nat.
Proof.
  split; [reflexivity |].
  assert (Hall : Forall (fun line => forall a0,
                           head (Fields (Runtime := Posix.runtime) line) = Some a0 ->
                           ToLower (Runtime := Posix.runtime) a0 <> "get" /\
                           ToLower (Runtime := Posix.runtime) a0 <> "quit")
                        ["store a.txt"; "delete a.txt"]).
  { constructor; [| constructor; [| constructor]];
      intros a0 Heq; injection Heq as <-; split; discriminate. }
  destruct (loop_survives_file_server_errors (H := Posix.runtime) 0%nat
              ["store a.txt"; "delete a.txt"] refusing 0 Hall)
    as (Hres & _ & Hprompts).
  split; [exact Hres | exact Hprompts].
Defined.

Lemma blank_lines_only_prompt_witness :
  Fields (Runtime := Posix.runtime) "   " = [] /\
  printed (trace Posix.quiet 0 (runCommandLoop (H := Posix.runtime) 0%nat ["   "; EmptyString])) =
    [">>> "; ">>> "; ">>> "] /\
  length (trace Posix.quiet 0 (runCommandLoop (H := Posix.runtime) 0%nat ["   "; EmptyString])) =
    3%nat.
Proof.
  split; [reflexivity |].
  destruct (blank_lines_only_prompt (H := Posix.runtime) 0%nat ["   "; EmptyString]
              Posix.quiet 0 ltac:(repeat constructor))
    as (Hprinted & Hlen & _).
  split; [exact Hprinted | exact Hlen].
Defined.

Lemma help_prints_the_text_of_the_exact_topic_witness :
  Fields (Runtime := Posix.runtime) "help STORE" = ["help"; "STORE"] /\
  printed (trace Posix.quiet 0 (loopBody (H := Posix.runtime) 0%nat "help STORE" [])) =
    [newline] /\
  printed (trace Posix.quiet 0 (loopBody (H := Posix.runtime) 0%nat "HELP quit" [])) =
    [Sprintln ["quit" +:+ newline +:+ " It quits the program."]].
Proof.
  split; [reflexivity |].
  destruct (help_prints_the_text_of_the_exact_topic (H := Posix.runtime) 0%nat
              "help STORE" "help" "STORE" [] Posix.quiet 0 eq_refl eq_refl)
    as (_ & _ & _ & _ & Hother).
  destruct (help_prints_the_text_of_the_exact_topic (H := Posix.runtime) 0%nat
              "HELP quit" "HELP" "quit" [] Posix.quiet 0 eq_refl eq_refl)
    as (Hquit & _).
  split; [| exact Hquit].
  apply Hother. unfold helpTopics. intros Hin.
  repeat (apply elem_of_cons in Hin as [Heq | Hin]; [discriminate Heq |]).
  apply elem_of_nil in Hin. exact Hin.
Defined.

Lemma deleteremote_cuts_the_peer_list_at_commas_witness :
  Fields (Runtime := Posix.runtime) "deleteremote note.txt :3001,,:3002," =
    ["deleteremote"; "note.txt"; ":3001,,:3002,"] /\
  exists session : list string,
    fsCalls (trace Posix.quiet 0
               (loopBody (H := Posix.runtime) 0%nat "deleteremote note.txt :3001,,:3002," [])) =
      [CallDeleteRemote 0%nat "note.txt" session] /\
    session = [":3001"; EmptyString; ":3002"; EmptyString] /\
    length session = 4%nat.
Proof.
  split; [reflexivity |].
  destruct (deleteremote_cuts_the_peer_list_at_commas (H := Posix.runtime) 0%nat
              "deleteremote note.txt :3001,,:3002," "deleteremote" "note.txt" ":3001,,:3002,"
              [] Posix.quiet 0 eq_refl eq_refl)
    as (session & Hcalls & _ & Hlen & _).
  exists session. split; [exact Hcalls |]. split; [| exact Hlen].
  injection Hcalls as <-. reflexivity.
Defined.

(** ** Threads that log at the same time: what the file holds *)

Lemma writtenBy_insert (calls : list LogArgs) :
  forall (phases : list phase) (i : nat) (c : LogArgs) (ph ph' : phase),
    calls !! i = Some c -> phases !! i = Some ph ->
    (wrote ph = true -> wrote ph' = true) ->
    writtenBy calls (<[i := ph']> phases) ≡ₚ
      (if wrote ph' && negb (wrote ph) then [c] else []) ++ writtenBy calls phases.
Proof.
  induction calls as [| c0 cs IH]; intros [| ph0 phs] [| i] c ph ph' Hc Hph Hmono;
    try discriminate.
  - injection Hc as ->. injection Hph as ->. cbn [insert list_insert writtenBy].
    destruct (wrote ph) eqn:Hw.
    + rewrite (Hmono eq_refl). reflexivity.
    + destruct (wrote ph'); reflexivity.
  - cbn [insert list_insert writtenBy].
    change (list_insert i ph' phs) with (<[i := ph']> phs).
    pose proof (IH phs i c ph ph' Hc Hph Hmono) as Hperm.
    destruct (wrote ph0); [| exact Hperm].
    rewrite Hperm. apply Permutation_middle.
Qed.

Lemma callsLeft_insert (phases : list phase) :
  forall (i : nat) (ph ph' : phase),
    phases !! i = Some ph ->
    S (stepsLeft ph') = stepsLeft ph ->
    S (callsLeft (<[i := ph']> phases)) = callsLeft phases.
Proof.
  induction phases as [| ph0 phs IH]; intros [| i] ph ph' Hph Hsteps; try discriminate.
  - injection Hph as ->. cbn [insert list_insert callsLeft].
    rewrite <- Hsteps. reflexivity.
  - cbn [insert list_insert callsLeft].
    change (list_insert i ph' phs) with (<[i := ph']> phs).
    rewrite <- (IH i ph ph' Hph Hsteps). apply plus_n_Sm.
Qed.

Lemma callsLeft_zero (phases : list phase) :
  callsLeft phases = O -> Forall (fun ph => ph = Finished) phases.
Proof.
  induction phases as [| ph phs IH]; intros Hzero; [constructor |].
  cbn [callsLeft] in Hzero.
  constructor; [destruct ph; try reflexivity; cbn in Hzero; lia |].
  apply IH. lia.
Qed.

Lemma writtenBy_sublist (calls : list LogArgs) :
  forall phases : list phase, writtenBy calls phases `sublist_of` calls.
Proof.
  induction calls as [| c cs IH]; intros [| ph phs]; cbn [writtenBy];
    try apply sublist_nil_l.
  destruct (wrote ph); [apply sublist_skip | apply sublist_cons]; apply IH.
Qed.

Lemma writtenBy_finished (calls : list LogArgs) :
  forall phases : list phase,
    length phases = length calls ->
    Forall (fun ph => ph = Finished) phases ->
    writtenBy calls phases = calls.
Proof.
  induction calls as [| c cs IH]; intros [| ph phs] Hlen Hall; try discriminate;
    [reflexivity |].
  apply Forall_cons in Hall as [-> Hall]. cbn [writtenBy wrote].
  rewrite IH; [reflexivity | | exact Hall]. cbn [length] in Hlen. lia.
Qed.

Section LoggingFacts.
Context `{Runtime}.

Lemma entriesAt_app (now : Time) (l1 l2 : list LogArgs) :
  entriesAt now (l1 ++ l2) = entriesAt now l1 +:+ entriesAt now l2.
Proof.
  unfold entriesAt. induction l1 as [| c l1 IH]; [reflexivity |].
  cbn [app foldr]. rewrite IH, append_assoc. reflexivity.
Qed.

Lemma entriesAt_one (now : Time) (c : LogArgs) :
  entriesAt now [c] = logEntry now (argOp c) (argFilekey c) (argPeer c) (argStatus c).
Proof. unfold entriesAt. cbn [foldr]. apply append_empty_r. Qed.

(** One call of a thread that logs, while the file is open for appending. *)
Lemma logFrom_step (a : AuditLogger) (c : LogArgs) (ph : phase) (d : Descriptor)
      (w w' : World) (p' : Prog unit) :
  descriptors w !! logFile a = Some d ->
  dFlags d = appendCreateWronly ->
  sound (clock w) ph ->
  threadStep w (logFrom a c ph) = Some (w', p') ->
  exists ph',
    p' = logFrom a c ph' /\
    S (stepsLeft ph') = stepsLeft ph /\
    sound (clock w) ph' /\
    (wrote ph = true -> wrote ph' = true) /\
    descriptors w' = descriptors w /\ clock w' = clock w /\ stdout w' = stdout w /\
    files w' =
      (if wrote ph' && negb (wrote ph)
       then <[dPath d := default EmptyString (files w !! dPath d)
                          +:+ logEntry (clock w) (argOp c) (argFilekey c)
                                (argPeer c) (argStatus c)]> (files w)
       else files w) /\
    (inCritical p' = false -> mu a ∉ held w').
Proof.
  intros Hd Hflags Hsound Hstep.
  destruct ph; cbn [logFrom Log bind call threadStep osStep] in Hstep.
  - destruct (decide (mu a ∈ held w)) as [Hin | Hout]; [discriminate Hstep |].
    injection Hstep as <- <-. exists AtNow. repeat split; discriminate.
  - injection Hstep as <- <-. exists (AtWrite (clock w)). repeat split; discriminate.
  - cbn [sound] in Hsound. subst now. unfold writeString in Hstep.
    rewrite Hd, Hflags in Hstep. cbn [appendCreateWronly O_WRONLY O_APPEND negb] in Hstep.
    injection Hstep as <- <-. exists AtUnlock. repeat split; discriminate.
  - destruct Hsound.
  - destruct (decide (mu a ∈ held w)) as [Hin | Hout]; [| discriminate Hstep].
    injection Hstep as <- <-. exists Finished. repeat split.
    intros _. cbn [held setHeld]. rewrite elem_of_difference, elem_of_singleton.
    intros [_ Hne]. apply Hne. reflexivity.
  - discriminate Hstep.
Qed.

Lemma writtenBy_start (calls : list LogArgs) :
  writtenBy calls (replicate (length calls) AtLock) = [].
Proof. induction calls as [| c cs IH]; [reflexivity | exact IH]. Qed.

Lemma logging_start (a : AuditLogger) (calls : list LogArgs) (w : World)
      (d : Descriptor) (old : string) :
  descriptors w !! logFile a = Some d ->
  dFlags d = appendCreateWronly ->
  files w !! dPath d = Some old ->
  mu a ∉ held w ->
  logging a d old (clock w) (stdout w) calls (replicate (length calls) AtLock) [] w
    ((fun c => Log a (argOp c) (argFilekey c) (argPeer c) (argStatus c)) <$> calls).
Proof.
  intros Hd Hflags Hold Hfree. split.
  - rewrite zip_with_replicate_r_eq by reflexivity. reflexivity.
  - apply length_replicate.
  - apply Forall_replicate. exact I.
  - exact Hd.
  - exact Hflags.
  - reflexivity.
  - reflexivity.
  - cbn [entriesAt foldr]. rewrite append_empty_r. exact Hold.
  - rewrite writtenBy_start. reflexivity.
  - exact (exclusive_start a w calls Hfree).
  - intros Hin. contradiction.
Qed.

Lemma logging_thread (a : AuditLogger) (d : Descriptor) (old : string) (t0 : Time)
      (out : string) (calls : list LogArgs) (phases : list phase)
      (written : list LogArgs) (w : World) (threads : list (Prog unit))
      (i : nat) (p : Prog unit) :
  logging a d old t0 out calls phases written w threads ->
  threads !! i = Some p ->
  exists c ph,
    p = logFrom a c ph /\ calls !! i = Some c /\ phases !! i = Some ph /\
    sound (clock w) ph.
Proof.
  intros L Hi. rewrite (lg_threads _ _ _ _ _ _ _ _ _ _ L) in Hi.
  apply lookup_zip_with_Some in Hi as (c & ph & -> & Hc & Hph).
  exists c, ph. repeat split; try assumption.
  rewrite (lg_clock _ _ _ _ _ _ _ _ _ _ L).
  exact (proj1 (Forall_lookup _ _) (lg_sound _ _ _ _ _ _ _ _ _ _ L) i ph Hph).
Qed.

(** A step of one thread keeps the threads logging and leaves one call
    less to make. *)
Lemma logging_step (a : AuditLogger) (d : Descriptor) (old : string) (t0 : Time)
      (out : string) (calls : list LogArgs) (phases : list phase)
      (written : list LogArgs) (w w' : World) (threads : list (Prog unit))
      (i : nat) (p p' : Prog unit) :
  logging a d old t0 out calls phases written w threads ->
  threads !! i = Some p ->
  threadStep w p = Some (w', p') ->
  exists phases' written',
    logging a d old t0 out calls phases' written' w' (<[i := p']> threads) /\
    S (callsLeft phases') = callsLeft phases.
Proof.
  intros L Hi Hstep.
  destruct (logging_thread _ _ _ _ _ _ _ _ _ _ i p L Hi) as (c & ph & -> & Hc & Hph & Hsound).
  pose proof L as [Hthreads Hlen Hall Hd Hflags Hclock Hout Hfile Hwritten Hex Howner].
  destruct (logFrom_step a c ph d w w' p' Hd Hflags Hsound Hstep)
    as (ph' & -> & Hsteps & Hsound' & Hmono & Hdesc' & Hclock' & Hout' & Hfiles' & Hfree').
  exists (<[i := ph']> phases),
         (if wrote ph' && negb (wrote ph) then written ++ [c] else written).
  split; [| exact (callsLeft_insert phases i ph ph' Hph Hsteps)].
  split.
  - rewrite Hthreads, insert_zip_with, (list_insert_id calls i c Hc). reflexivity.
  - rewrite length_insert. exact Hlen.
  - apply Forall_insert; [exact Hall |]. rewrite <- Hclock. exact Hsound'.
  - rewrite Hdesc'. exact Hd.
  - exact Hflags.
  - rewrite Hclock'. exact Hclock.
  - rewrite Hout'. exact Hout.
  - rewrite Hfiles'. destruct (wrote ph' && negb (wrote ph)); [| exact Hfile].
    rewrite lookup_insert_eq, Hfile, Hclock. cbn [default]. unfold id.
    rewrite entriesAt_app, entriesAt_one, append_assoc. reflexivity.
  - rewrite (writtenBy_insert calls phases i c ph ph' Hc Hph Hmono).
    destruct (wrote ph' && negb (wrote ph)); [| exact Hwritten].
    rewrite Hwritten. apply Permutation_app_comm.
  - exact (exclusive_step a w w' threads i _ _ Hex Hi Hstep).
  - intros Hin. destruct (inCritical (logFrom a c ph')) eqn:Hcrit.
    + exists i, (logFrom a c ph'). split; [| exact Hcrit].
      apply list_lookup_insert_eq. eapply lookup_lt_Some. exact Hi.
    + destruct (Hfree' eq_refl Hin).
Qed.

Lemma logging_run (a : AuditLogger) (d : Descriptor) (old : string) (t0 : Time)
      (out : string) (calls : list LogArgs) (schedule : list nat) :
  forall (phases : list phase) (written : list LogArgs) (w : World)
         (threads : list (Prog unit)),
    logging a d old t0 out calls phases written w threads ->
    exists phases' written',
      logging a d old t0 out calls phases' written'
        (runThreads schedule w threads).1 (runThreads schedule w threads).2.
Proof.
  induction schedule as [| i rest IH]; intros phases written w threads L.
  - exists phases, written. exact L.
  - cbn [runThreads].
    destruct (threads !! i) as [p |] eqn:Hi; [| exact (IH _ _ _ _ L)].
    destruct (threadStep w p) as [[w' p'] |] eqn:Hstep; [| exact (IH _ _ _ _ L)].
    destruct (logging_step _ _ _ _ _ _ _ _ _ _ _ i p p' L Hi Hstep)
      as (phases' & written' & L' & _).
    exact (IH _ _ _ _ L').
Qed.

Lemma callsLeft_some (phases : list phase) :
  callsLeft phases <> O -> exists i ph, phases !! i = Some ph /\ ph <> Finished.
Proof.
  induction phases as [| ph phs IH]; intros Hleft; [destruct Hleft; reflexivity |].
  destruct (stepsLeft ph) eqn:Hsteps.
  - destruct IH as (i & ph' & Hi & Hne).
    + cbn [callsLeft] in Hleft. rewrite Hsteps in Hleft. exact Hleft.
    + exists (S i), ph'. split; assumption.
  - exists O, ph. split; [reflexivity |]. intros ->. discriminate Hsteps.
Qed.

(** While a call is left to make, some thread can make one: the threads
    cannot all wait. *)
Lemma logging_progress (a : AuditLogger) (d : Descriptor) (old : string) (t0 : Time)
      (out : string) (calls : list LogArgs) (phases : list phase)
      (written : list LogArgs) (w : World) (threads : list (Prog unit)) :
  logging a d old t0 out calls phases written w threads ->
  callsLeft phases <> O ->
  exists i p w' p', threads !! i = Some p /\ threadStep w p = Some (w', p').
Proof.
  intros L Hleft.
  pose proof L as [Hthreads Hlen Hall Hd Hflags Hclock Hout Hfile Hwritten Hex Howner].
  destruct (decide (mu a ∈ held w)) as [Hheld | Hfree].
  - destruct (Howner Hheld) as (i & p & Hi & Hcrit).
    destruct (logging_thread _ _ _ _ _ _ _ _ _ _ i p L Hi) as (c & ph & -> & _ & _ & Hsound).
    exists i, (logFrom a c ph).
    destruct ph; try discriminate Hcrit; try destruct Hsound;
      cbn [logFrom bind call threadStep osStep].
    + eexists. eexists. split; [exact Hi | reflexivity].
    + unfold writeString. rewrite Hd, Hflags.
      cbn [appendCreateWronly O_WRONLY O_APPEND negb].
      eexists. eexists. split; [exact Hi | reflexivity].
    + destruct (decide (mu a ∈ held w)) as [_ | Hout']; [| contradiction].
      eexists. eexists. split; [exact Hi | reflexivity].
  - destruct (callsLeft_some phases Hleft) as (i & ph & Hph & Hne).
    destruct (lookup_lt_is_Some_2 calls i) as [c Hc];
      [rewrite <- Hlen; eapply lookup_lt_Some; exact Hph |].
    assert (Hi : threads !! i = Some (logFrom a c ph)).
    { rewrite Hthreads. apply lookup_zip_with_Some. exists c, ph. repeat split; assumption. }
    pose proof (ex_free _ _ _ Hex Hfree i _ Hi) as Hcrit.
    exists i, (logFrom a c ph).
    destruct ph; try discriminate Hcrit; [| destruct Hne; reflexivity].
    cbn [logFrom Log bind call threadStep osStep].
    destruct (decide (mu a ∈ held w)) as [Hin | _]; [contradiction |].
    eexists. eexists. split; [exact Hi | reflexivity].
Qed.

Lemma logging_finish (a : AuditLogger) (d : Descriptor) (old : string) (t0 : Time)
      (out : string) (calls : list LogArgs) (m : nat) :
  forall (phases : list phase) (written : list LogArgs) (w : World)
         (threads : list (Prog unit)),
    callsLeft phases = m ->
    logging a d old t0 out calls phases written w threads ->
    exists more phases' written',
      logging a d old t0 out calls phases' written'
        (runThreads more w threads).1 (runThreads more w threads).2 /\
      callsLeft phases' = O.
Proof.
  induction m as [| m IH]; intros phases written w threads Hleft L.
  - exists [], phases, written. split; assumption.
  - destruct (logging_progress _ _ _ _ _ _ _ _ _ _ L) as (i & p & w' & p' & Hi & Hstep);
      [rewrite Hleft; discriminate |].
    destruct (logging_step _ _ _ _ _ _ _ _ _ _ _ i p p' L Hi Hstep)
      as (phases' & written' & L' & Hless).
    destruct (IH phases' written' w' (<[i := p']> threads)) as (more & ph'' & wr'' & L'' & Hzero);
      [rewrite Hleft in Hless; injection Hless as Hless; exact Hless | exact L' |].
    exists (i :: more), ph'', wr''. cbn [runThreads]. rewrite Hi, Hstep.
    split; assumption.
Qed.

Lemma runThreads_app (s1 s2 : list nat) :
  forall (w : World) (threads : list (Prog unit)),
    runThreads (s1 ++ s2) w threads =
    runThreads s2 (runThreads s1 w threads).1 (runThreads s1 w threads).2.
Proof.
  induction s1 as [| i s1 IH]; intros w threads; [reflexivity |].
  cbn [app runThreads].
  destruct (threads !! i) as [p |]; [| apply IH].
  destruct (threadStep w p) as [[w' p'] |]; apply IH.
Qed.

Lemma logging_all_finished (a : AuditLogger) (d : Descriptor) (old : string) (t0 : Time)
      (out : string) (calls : list LogArgs) (phases : list phase)
      (written : list LogArgs) (w : World) (threads : list (Prog unit)) :
  logging a d old t0 out calls phases written w threads ->
  Forall (fun p => finished p = true) threads ->
  written ≡ₚ calls.
Proof.
  intros L Hdone.
  pose proof L as [Hthreads Hlen Hall Hd Hflags Hclock Hout Hfile Hwritten Hex Howner].
  rewrite Hwritten. rewrite writtenBy_finished; [reflexivity | exact Hlen |].
  apply Forall_lookup. intros i ph Hph.
  destruct (lookup_lt_is_Some_2 calls i) as [c Hc];
    [rewrite <- Hlen; eapply lookup_lt_Some; exact Hph |].
  assert (Hi : threads !! i = Some (logFrom a c ph)).
  { rewrite Hthreads. apply lookup_zip_with_Some. exists c, ph. repeat split; assumption. }
  pose proof (proj1 (Forall_lookup _ _) Hdone i _ Hi) as Hfin.
  destruct ph; try discriminate Hfin. reflexivity.
Qed.

Lemma logging_done (a : AuditLogger) (d : Descriptor) (old : string) (t0 : Time)
      (out : string) (calls : list LogArgs) (phases : list phase)
      (written : list LogArgs) (w : World) (threads : list (Prog unit)) :
  logging a d old t0 out calls phases written w threads ->
  callsLeft phases = O ->
  Forall (fun p => finished p = true) threads /\ mu a ∉ held w.
Proof.
  intros L Hzero.
  pose proof L as [Hthreads Hlen Hall Hd Hflags Hclock Hout Hfile Hwritten Hex Howner].
  apply callsLeft_zero in Hzero.
  assert (Hdone : forall i p, threads !! i = Some p -> p = Ret tt).
  { intros i p Hi. rewrite Hthreads in Hi.
    apply lookup_zip_with_Some in Hi as (c & ph & -> & _ & Hph).
    rewrite (proj1 (Forall_lookup _ _) Hzero i ph Hph). reflexivity. }
  split.
  - apply Forall_lookup. intros i p Hi. rewrite (Hdone i p Hi). reflexivity.
  - intros Hheld. destruct (Howner Hheld) as (i & p & Hi & Hcrit).
    rewrite (Hdone i p Hi) in Hcrit. discriminate Hcrit.
Qed.

(** X15. Threads that log through one logger at the same time lose no entry
    and tear none: under every schedule the file holds, behind what it held
    before, entries of the calls and nothing else, each whole and at most
    once per call, and nothing was reported on standard output; once all
    threads have finished it holds one entry for each call. *)
Theorem concurrent_logs_lose_no_entry
  (a : AuditLogger) (calls : list LogArgs) (schedule : list nat) (w : World)
  (d : Descriptor) (old : string) :
  descriptors w !! logFile a = Some d ->
  dFlags d = appendCreateWronly ->
  files w !! dPath d = Some old ->
  mu a ∉ held w ->
  let threads :=
    (fun c => Log a (argOp c) (argFilekey c) (argPeer c) (argStatus c)) <$> calls in
  let after := runThreads schedule w threads in
  exists written : list LogArgs,
    files after.1 !! dPath d = Some (old +:+ entriesAt (clock w) written) /\
    written ⊆+ calls /\
    stdout after.1 = stdout w /\
    (Forall (fun p => finished p = true) after.2 -> written ≡ₚ calls).
Proof.
  intros Hd Hflags Hold Hfree threads after.
  destruct (logging_run a d old (clock w) (stdout w) calls schedule _ _ w threads
              (logging_start a calls w d old Hd Hflags Hold Hfree))
    as (phases & written & L).
  fold after in L. exists written.
  split; [exact (lg_file _ _ _ _ _ _ _ _ _ _ L) |].
  split; [rewrite (lg_written _ _ _ _ _ _ _ _ _ _ L);
          apply sublist_submseteq, writtenBy_sublist |].
  split; [exact (lg_stdout _ _ _ _ _ _ _ _ _ _ L) |].
  exact (logging_all_finished _ _ _ _ _ _ _ _ _ _ L).
Qed.

(** X16. Threads that log through one logger cannot block each other for
    good: whatever has been scheduled so far, the schedule can be continued
    so that every thread finishes; the mutex is free then and the file
    holds, behind what it held before, one entry for each call. *)
Theorem concurrent_logs_can_always_finish
  (a : AuditLogger) (calls : list LogArgs) (schedule : list nat) (w : World)
  (d : Descriptor) (old : string) :
  descriptors w !! logFile a = Some d ->
  dFlags d = appendCreateWronly ->
  files w !! dPath d = Some old ->
  mu a ∉ held w ->
  let threads :=
    (fun c => Log a (argOp c) (argFilekey c) (argPeer c) (argStatus c)) <$> calls in
  exists (more : list nat) (written : list LogArgs),
    let after := runThreads (schedule ++ more) w threads in
    Forall (fun p => finished p = true) after.2 /\
    (mu a ∉ held after.1) /\
    written ≡ₚ calls /\
    files after.1 !! dPath d = Some (old +:+ entriesAt (clock w) written).
Proof.
  intros Hd Hflags Hold Hfree threads.
  destruct (logging_run a d old (clock w) (stdout w) calls schedule _ _ w threads
              (logging_start a calls w d old Hd Hflags Hold Hfree))
    as (phases & written & L).
  destruct (logging_finish a d old (clock w) (stdout w) calls (callsLeft phases)
              phases written _ _ eq_refl L)
    as (more & phases' & written' & L' & Hzero).
  exists more, written'. cbn zeta. rewrite runThreads_app.
  destruct (logging_done _ _ _ _ _ _ _ _ _ _ L' Hzero) as [Hdone Hfree'].
  split; [exact Hdone |]. split; [exact Hfree' |].
  split; [exact (logging_all_finished _ _ _ _ _ _ _ _ _ _ L' Hdone) |].
  exact (lg_file _ _ _ _ _ _ _ _ _ _ L').
Qed.
End LoggingFacts.

Lemma concurrent_logs_lose_no_entry_witness :
  let a := {| mu := 0%nat; logFile := 0%nat; logFilePath := "audit.log" |} in
  let threads :=
    (fun c => Log (H := Posix.runtime) a (argOp c) (argFilekey c) (argPeer c) (argStatus c))
      <$> twoCalls in
  exists written : list LogArgs,
    files (runThreads [0; 1; 0; 1; 0; 0; 1; 1; 1; 1]%nat openLog threads).1 !! "audit.log" =
      Some (("started" +:+ newline) +:+ entriesAt (H := Posix.runtime) 0 written) /\
    written ≡ₚ twoCalls.
Proof.
  intros a threads.
  destruct (concurrent_logs_lose_no_entry (H := Posix.runtime) a twoCalls
              [0; 1; 0; 1; 0; 0; 1; 1; 1; 1]%nat openLog
              {| dPath := "audit.log"; dFlags := appendCreateWronly |}
              ("started" +:+ newline) eq_refl eq_refl eq_refl (not_elem_of_empty _))
    as (written & Hfile & _ & _ & Hdone).
  exists written. split; [exact Hfile |]. apply Hdone.
  repeat constructor.
Defined.

Lemma concurrent_logs_can_always_finish_witness :
  let a := {| mu := 0%nat; logFile := 0%nat; logFilePath := "audit.log" |} in
  let threads :=
    (fun c => Log (H := Posix.runtime) a (argOp c) (argFilekey c) (argPeer c) (argStatus c))
      <$> twoCalls in
  exists (more : list nat) (written : list LogArgs),
    Forall (fun p => finished p = true) (runThreads ([0; 1; 1]%nat ++ more) openLog threads).2 /\
    written ≡ₚ twoCalls /\
    files (runThreads ([0; 1; 1]%nat ++ more) openLog threads).1 !! "audit.log" =
      Some (("started" +:+ newline) +:+ entriesAt (H := Posix.runtime) 0 written).
Proof.
  intros a threads.
  destruct (concurrent_logs_can_always_finish (H := Posix.runtime) a twoCalls
              [0; 1; 1]%nat openLog
              {| dPath := "audit.log"; dFlags := appendCreateWronly |}
              ("started" +:+ newline) eq_refl eq_refl eq_refl (not_elem_of_empty _))
    as (more & written & Hdone & _ & Hperm & Hfile).
  exists more, written. split; [exact Hdone |]. split; [exact Hperm | exact Hfile].
Defined.

(** ** The logger after Close *)

Section CloseFacts.
Context `{Runtime}.

(** X14. [Close] closes the file of the logger and nothing else; a call of
    [Log] after it adds nothing to the file: the failed write is reported
    on standard output, in one line, the mutex is released and the call
    returns. A second [Close] reports an error and changes nothing. *)
Theorem Log_after_Close (a : AuditLogger) (op filekey peer status : string)
        (w : World) (d : Descriptor) :
  descriptors w !! logFile a = Some d ->
  mu a ∉ held w ->
  exists (w1 w2 : World) (err : error),
    interp (Close a) w = Some (None, w1) /\
    descriptors w1 = delete (logFile a) (descriptors w) /\
    interp (Log a op filekey peer status) w1 = Some (tt, w2) /\
    files w2 = files w /\
    stdout w2 = stdout w +:+ Sprintln ["Error writing to log file:"; err] /\
    held w2 = held w /\
    (exists err', interp (Close a) w2 = Some (Some err', w2)).
Proof.
  intros Hd Hfree. unfold Close, Log. cbn [bind call interp osStep]. rewrite Hd.
  exists (setDescriptors w (delete (logFile a) (descriptors w))).
  cbn [held setDescriptors].
  destruct (decide (mu a ∈ held w)) as [Hin | _]; [contradiction |].
  cbn [interp osStep clock setHeld setDescriptors]. unfold writeString.
  cbn [descriptors setHeld setDescriptors]. rewrite lookup_delete_eq.
  cbn [snd bind call interp osStep held setStdout setHeld].
  destruct (decide (mu a ∈ {[mu a]} ∪ held w)) as [_ | Hout];
    [| exfalso; apply Hout; apply elem_of_union_l, elem_of_singleton; reflexivity].
  eexists. eexists. split; [reflexivity |]. split; [reflexivity |].
  split; [reflexivity |].
  cbn [files stdout held descriptors setStdout setHeld setDescriptors].
  split; [reflexivity |]. split; [reflexivity |].
  split; [apply held_restored; exact Hfree |].
  rewrite lookup_delete_eq. eexists. reflexivity.
Qed.
End CloseFacts.

(** ** Decoding the configuration: keys *)

Section KeyFacts.
Context `{Runtime}.

(** X17. A configuration entry is decoded from the keys that select a field
    of [ServerConfig], [port] and [peers] by their tags, and from nothing
    else: every other key is skipped whatever its value, so that dropping
    those keys changes neither the result nor the error. An entry that
    decodes and has no key for the port has the empty listen address; one
    that has no key for the peers has no bootstrap node. *)
Theorem config_entry_is_read_from_its_known_keys (members : list (string * json)) :
  unmarshalServerConfig (JObject members) =
    unmarshalServerConfig (JObject (List.filter knownKey members)) /\
  forall c : ServerConfig,
    unmarshalServerConfig (JObject members) = inl c ->
    (existsb (selects FPort) members = false -> ServerConfig.Port c = EmptyString) /\
    (existsb (selects FBootstrapNodes) members = false ->
     ServerConfig.BootstrapNodes c = []).
Proof.
  split; [apply unmarshalMembers_skips |].
  intros c Hrun. exact (unmarshalMembers_keeps members zeroServerConfig c [] Hrun).
Qed.
End KeyFacts.

Lemma Log_after_Close_witness :
  let a := {| mu := 0%nat; logFile := 0%nat; logFilePath := "audit.log" |} in
  exists (w1 w2 : World) (err : error),
    interp (Close a) openLog = Some (None, w1) /\
    interp (Log (H := Posix.runtime) a "STORE" "e1c9a" ":3001" "ok") w1 = Some (tt, w2) /\
    files w2 = files openLog /\
    stdout w2 = Sprintln ["Error writing to log file:"; err].
Proof.
  intros a.
  destruct (Log_after_Close (H := Posix.runtime) a "STORE" "e1c9a" ":3001" "ok" openLog
              {| dPath := "audit.log"; dFlags := appendCreateWronly |}
              eq_refl (not_elem_of_empty _))
    as (w1 & w2 & err & Hclose & _ & Hlog & Hfiles & Hout & _).
  exists w1, w2, err. repeat split; assumption.
Defined.

(** ** The pauses of the command loop *)

Section PauseFacts.
Context `{Runtime}.
Variable fs : FileServer.

(** X18. The only waits of a pass through the loop are its pauses: two
    seconds after a call of [Store], whether it failed or not, and 50 ms at
    the end of the [switch]; a pass that makes no [Store] call waits 50 ms
    or not at all, and none waits longer than 2050 ms. *)
Theorem pauses_of_one_line (line : string) (deferred : list File) (rho : Env) (n : nat) :
  let tr := trace rho n (loopBody fs line deferred) in
  (storeKeys (fsCalls tr) <> [] /\ slept tr = [2000; 50]) \/
  (storeKeys (fsCalls tr) = [] /\ (slept tr = [50] \/ slept tr = [])).
Proof.
  intros tr. subst tr. unfold loopBody.
  destruct (Fields line) as [| a0 rest]; [right; split; [reflexivity | right; reflexivity] |].
  cbn [length Nat.eqb arg nth].
  unfold caseStore, caseGet, caseDelete, caseDeleteLocal, caseDeleteRemote, caseHelp,
         caseQuit, caseDefault, println, afterSwitch.
  walk; cbn [fsCalls slept storeKeys];
    first [ left; split; [discriminate | reflexivity]
          | right; split; [reflexivity | left; reflexivity]
          | right; split; [reflexivity | right; reflexivity] ].
Qed.
End PauseFacts.

(** ** The logger and its file *)

Section AccessorFacts.
Context `{Runtime}.

(** X19. Whenever the constructor returns a logger, the logger reports the
    file it writes: [GetLogFilePath] is the name the constructor was given,
    [GetLogFile] is a file that was not open before and is now open on that
    very path for appending, and an entry logged through the logger lands
    at the end of the file that [GetLogFilePath] names, behind what the
    file held and the banner. The mutex of a new logger is unlocked. *)
Theorem logger_reports_the_file_it_writes
  (logFileName op filekey peer status : string) (w w1 : World) (a : AuditLogger) :
  interp (simpleNewAuditLogger logFileName) w = Some ((Some a, None), w1) ->
  mu a ∉ held w ->
  GetLogFilePath a = logFileName /\
  descriptors w !! GetLogFile a = None /\
  descriptors w1 !! GetLogFile a =
    Some {| dPath := GetLogFilePath a; dFlags := appendCreateWronly |} /\
  exists w2 : World,
    interp (Log a op filekey peer status) w1 = Some (tt, w2) /\
    files w2 !! GetLogFilePath a =
      Some (default EmptyString (files w !! logFileName)
            +:+ ("[" +:+ FormatRFC3339 (clock w) +:+ "] LOGGING STARTED...." +:+ newline)
            +:+ newline
            +:+ logEntry (clock w) op filekey peer status).
Proof.
  intros Hrun Hfree.
  destruct (denied w !! logFileName) as [why |] eqn:Hdenied.
  { rewrite (simpleNewAuditLogger_refused logFileName why w Hdenied) in Hrun.
    discriminate Hrun. }
  destruct (simpleNewAuditLogger_interp logFileName w Hdenied)
    as (w' & Hrun' & Hdesc & Hfile & Hheld & Hclock & _).
  rewrite Hrun' in Hrun. injection Hrun as <- <-.
  cbn [GetLogFilePath GetLogFile logFilePath logFile mu] in *.
  assert (Hd : descriptors w' !! nextFile w =
               Some {| dPath := logFileName; dFlags := appendCreateWronly |})
    by (rewrite Hdesc; apply lookup_insert_eq).
  assert (Hfree1 : nextFile w ∉ held w') by (rewrite Hheld; exact Hfree).
  destruct (Log_interp {| mu := nextFile w; logFile := nextFile w;
                          logFilePath := logFileName |}
              op filekey peer status w' _ Hd eq_refl Hfree1)
    as (w2 & Hlog & Hfiles2 & _).
  split; [reflexivity |]. split; [apply nextFile_fresh |]. split; [exact Hd |].
  exists w2. split; [exact Hlog |].
  rewrite Hfiles2. cbn [dPath].
  rewrite lookup_insert_eq, Hfile, lookup_insert_eq, Hclock. cbn [default]. unfold id.
  rewrite !append_assoc. reflexivity.
Qed.
End AccessorFacts.

Lemma logger_reports_the_file_it_writes_witness :
  exists (a : AuditLogger) (w1 w2 : World),
    interp (simpleNewAuditLogger (H := Posix.runtime) "audit.log") openLog =
      Some ((Some a, None), w1) /\
    GetLogFilePath a = "audit.log" /\
    GetLogFile a = 1%nat /\
    interp (Log (H := Posix.runtime) a "STORE" "e1c9a" ":3001" "ok") w1 = Some (tt, w2) /\
    files w2 !! "audit.log" =
      Some ("started" +:+ newline +:+
            "[1970-01-01T00:00:00Z] LOGGING STARTED...." +:+ newline +:+ newline +:+
            "1970-01-01T00:00:00Z | STORE | e1c9a | :3001 | ok" +:+ newline).
Proof.
  destruct (simpleNewAuditLogger_interp (H := Posix.runtime) "audit.log" openLog eq_refl)
    as (w1 & Hrun & _).
  destruct (logger_reports_the_file_it_writes (H := Posix.runtime)
              "audit.log" "STORE" "e1c9a" ":3001" "ok" openLog w1 _ Hrun
              (not_elem_of_empty _))
    as (Hpath & _ & _ & w2 & Hlog & Hfile).
  eexists. exists w1, w2. split; [exact Hrun |]. split; [exact Hpath |].
  split; [reflexivity |]. split; [exact Hlog | exact Hfile].
Defined.
